(** * BCCDecentrathon: ingestion, scoring and push rendering

    A shallow embedding of the Python sources of the repository
    ([src/utils.py], [src/build_data.py], [src/config.py], [src/rules.py],
    [src/scorer.py], [src/pushgen_llm.py]) together with the properties
    stated about them.

    Conventions
    - a Python [float] is an IEEE 754 binary64 value, [spec_float] with
      [prec = 53] and [emax = 1024]; arithmetic is the correctly rounded
      arithmetic of the Standard Library's [SpecFloat];
    - a Python [int] is a [Z];
    - a Python [str] is the list of its Unicode code points ([list N]), so
      that [len] is [length] and Cyrillic letters count for one;
    - [None] / [NaN] / [NaT] / [<NA>] cells are [option]s;
    - a [dict] whose iteration order matters is an association list, the
      process-wide [_last_sent] cache is a [gmap]. *)

From Stdlib Require Import ZArith NArith QArith Qpower Lia Lqa List Bool Sorted SpecFloat.
From Stdlib Require String Ascii.
From stdpp Require Import base option list gmap.
Import String.StringSyntax.
Delimit Scope string_scope with string.

Local Open Scope Z_scope.

(* ===================================================================== *)
(** * Part I. The program                                                 *)
(* ===================================================================== *)

(** ** Python floats *)

Module F64.

Definition prec : Z := 53.
Definition emax : Z := 1024.

Definition fmul : spec_float -> spec_float -> spec_float := SFmul prec emax.
Definition fadd : spec_float -> spec_float -> spec_float := SFadd prec emax.
Definition fsub : spec_float -> spec_float -> spec_float := SFsub prec emax.
Definition fdiv : spec_float -> spec_float -> spec_float := SFdiv prec emax.
Definition fabs : spec_float -> spec_float := SFabs.

(** [x < y], [x <= y], [x > y], [x >= y]; every comparison with NaN is
    [False]. *)
Definition flt (x y : spec_float) : bool := SFltb x y.
Definition fle (x y : spec_float) : bool := SFleb x y.
Definition fgt (x y : spec_float) : bool := SFltb y x.
Definition fge (x y : spec_float) : bool := SFleb y x.
Definition feq (x y : spec_float) : bool := SFeqb x y.

Definition is_nan (x : spec_float) : bool :=
  match x with S754_nan => true | _ => false end.

(** The builtins [max(a, b)] and [min(a, b)]: the first argument is kept
    unless the second one is strictly better. *)
Definition py_max (a b : spec_float) : spec_float := if fgt b a then b else a.
Definition py_min (a b : spec_float) : spec_float := if flt b a then b else a.

(** A decimal literal [n * 10^-k] with sign [s], correctly rounded (one
    rounding of the exact quotient), as the Python parser reads
    [0.04] or [15_000.0]. *)
Definition of_decimal (s : bool) (n : Z) (k : nat) : spec_float :=
  match n with
  | Zpos m =>
      let '(mz, ez, lz) :=
        SFdiv_core_binary prec emax (Zpos m) 0 (10 ^ Z.of_nat k) 0 in
      binary_round_aux prec emax s mz ez lz
  | _ => S754_zero s
  end.

Definition dec (n : Z) (k : nat) : spec_float := of_decimal false n k.

Definition zero : spec_float := S754_zero false.
Definition inf : spec_float := S754_infinity false.

(** Conversion of an [int] operand in mixed [int * float] arithmetic.
    CPython raises [OverflowError] when the integer does not fit a double;
    the integers converted here are row counts (numpy [int64]), for which
    the conversion is total, and the statements below assume that range. *)
Definition of_int (n : Z) : spec_float := binary_normalize prec emax n 0 false.

(** A number that is not NaN and not below zero ([-0.0] is [>= 0]). *)
Definition nn (x : spec_float) : Prop :=
  match x with
  | S754_zero _ => True
  | S754_infinity s => s = false
  | S754_nan => False
  | S754_finite s _ _ => s = false
  end.

(** A finite, strictly positive number. *)
Definition pos_finite (x : spec_float) : Prop :=
  match x with
  | S754_finite false _ _ => True
  | _ => False
  end.

(** Position of a non-negative number on the line: zero, the finite
    numbers by exponent and mantissa, then infinity. *)
Definition rank (x : spec_float) : Z * Z * Z :=
  match x with
  | S754_finite _ m e => (1, e, Zpos m)
  | S754_infinity _ => (2, 0, 0)
  | _ => (0, 0, 0)
  end.

Definition lex_lt (a b : Z * Z * Z) : Prop :=
  let '(a1, a2, a3) := a in
  let '(b1, b2, b3) := b in
  a1 < b1 \/ (a1 = b1 /\ (a2 < b2 \/ (a2 = b2 /\ a3 < b3))).

(** The exact value of a finite float, [(-1)^s * m * 2^e]. *)
Definition to_Q (x : spec_float) : Q :=
  match x with
  | S754_finite s m e => (inject_Z (cond_Zopp s (Zpos m)) * 2 ^ e)%Q
  | _ => 0%Q
  end.

(** [x < n] for a [float] and an [int]: Python compares the exact
    values; every comparison with NaN is [False]. *)
Definition float_lt_int (x : spec_float) (n : Z) : bool :=
  match x with
  | S754_nan => false
  | S754_infinity s => s
  | _ => if Qlt_le_dec (to_Q x) (inject_Z n) then true else false
  end.

(** A positive binary64 number, as [time.time()] returns. *)
Definition reading (x : spec_float) : bool :=
  match x with
  | S754_finite false m e => bounded prec emax m e
  | _ => false
  end.

End F64.

Import F64.

(** ** [src/config.py] *)

Module CFG.

Definition travel_cb_rate : spec_float := Eval vm_compute in dec 4 2.
Definition travel_cb_monthly_cap : spec_float := Eval vm_compute in dec 15000 0.

Definition premium_base_cb_low : spec_float := Eval vm_compute in dec 2 2.
Definition premium_base_cb_high : spec_float := Eval vm_compute in dec 4 2.
Definition premium_high_balance_kzt : spec_float := Eval vm_compute in dec 2000000 0.
Definition premium_fee_savings_atm_per_tx : spec_float := Eval vm_compute in dec 300 0.
Definition premium_fee_savings_transfer_per_tx : spec_float := Eval vm_compute in dec 100 0.
Definition premium_cb_monthly_cap : spec_float := Eval vm_compute in dec 25000 0.

Definition cc_fav_rate : spec_float := Eval vm_compute in dec 10 2.
Definition cc_online_rate : spec_float := Eval vm_compute in dec 10 2.
Definition cc_cb_monthly_cap : spec_float := Eval vm_compute in dec 30000 0.

Definition fx_spread_saving_rate : spec_float := Eval vm_compute in dec 5 3.
Definition cash_loan_need_ratio : spec_float := Eval vm_compute in dec 15 1.

Definition savings_high_rate : spec_float := Eval vm_compute in dec 13 2.
Definition savings_accum_rate : spec_float := Eval vm_compute in dec 10 2.
Definition multi_curr_rate : spec_float := Eval vm_compute in dec 7 2.
Definition invest_util_rate : spec_float := Eval vm_compute in dec 3 3.
Definition gold_util_rate : spec_float := Eval vm_compute in dec 2 3.

End CFG.

(** ** [src/rules.py] *)

Module Rules.

Definition lit_0_04 : spec_float := Eval vm_compute in dec 4 2.
Definition lit_0_01 : spec_float := Eval vm_compute in dec 1 2.
Definition lit_0_001 : spec_float := Eval vm_compute in dec 1 3.
Definition lit_4_0 : spec_float := Eval vm_compute in dec 4 0.

Definition _cap (value cap_value : spec_float) : spec_float :=
  if fle value zero then zero else py_min value cap_value.

Definition benefit_travel (travel_spend : spec_float) : spec_float :=
  _cap (fmul travel_spend CFG.travel_cb_rate) CFG.travel_cb_monthly_cap.

Definition benefit_premium (avg_balance base_spend premium_spend : spec_float)
    (atm_cnt transfer_cnt : Z) : spec_float :=
  let base_rate :=
    if fge avg_balance CFG.premium_high_balance_kzt
    then CFG.premium_base_cb_high
    else CFG.premium_base_cb_low in
  let base_cb := fmul base_rate (py_max base_spend zero) in
  let boost_cb := fmul lit_0_04 (py_max premium_spend zero) in
  let fees_saved :=
    fadd (fmul (of_int (Z.max atm_cnt 0)) CFG.premium_fee_savings_atm_per_tx)
         (fmul (of_int (Z.max transfer_cnt 0))
               CFG.premium_fee_savings_transfer_per_tx) in
  fadd (_cap (fadd base_cb boost_cb) CFG.premium_cb_monthly_cap)
       (py_max fees_saved zero).

Definition benefit_credit_card (fav_spend_sum online_spend : spec_float)
    : spec_float :=
  let cb := fadd (fmul CFG.cc_fav_rate (py_max fav_spend_sum zero))
                 (fmul CFG.cc_online_rate (py_max online_spend zero)) in
  _cap cb CFG.cc_cb_monthly_cap.

Definition benefit_fx (fx_turnover : spec_float) : spec_float :=
  fmul (py_max fx_turnover zero) CFG.fx_spread_saving_rate.

Definition benefit_cash_loan (need_ratio shortfall_abs : spec_float)
    : spec_float :=
  if fge need_ratio CFG.cash_loan_need_ratio && fgt shortfall_abs zero
  then fmul lit_0_01 shortfall_abs
  else zero.

Definition benefit_deposit_savings (free_balance_3m : spec_float) : spec_float :=
  fmul (py_max free_balance_3m zero) (fdiv CFG.savings_high_rate lit_4_0).

Definition benefit_deposit_accum (free_balance_3m : spec_float) : spec_float :=
  fmul (py_max free_balance_3m zero) (fdiv CFG.savings_accum_rate lit_4_0).

Definition benefit_deposit_multi (free_balance_3m fx_turnover : spec_float)
    : spec_float :=
  fadd (fmul (py_max free_balance_3m zero) (fdiv CFG.multi_curr_rate lit_4_0))
       (fmul lit_0_001 (py_max fx_turnover zero)).

Definition benefit_invest (free_balance_3m : spec_float) : spec_float :=
  fmul (py_max free_balance_3m zero) CFG.invest_util_rate.

Definition benefit_gold (free_balance_3m : spec_float) : spec_float :=
  fmul (py_max free_balance_3m zero) CFG.gold_util_rate.

End Rules.

(** ** Python strings *)

Module Str.

(** A [str] is the sequence of its code points. *)
Definition str : Type := list N.

Local Open Scope N_scope.

(** Source literals are written as UTF-8 text and decoded once. *)
Fixpoint utf8_decode (bs : list N) : str :=
  match bs with
  | [] => []
  | b0 :: r0 =>
      if b0 <? 0x80 then b0 :: utf8_decode r0
      else if b0 <? 0xE0 then
        match r0 with
        | b1 :: r1 => ((b0 - 0xC0) * 64 + (b1 - 0x80)) :: utf8_decode r1
        | _ => []
        end
      else if b0 <? 0xF0 then
        match r0 with
        | b1 :: b2 :: r2 =>
            ((b0 - 0xE0) * 4096 + (b1 - 0x80) * 64 + (b2 - 0x80))
              :: utf8_decode r2
        | _ => []
        end
      else
        match r0 with
        | b1 :: b2 :: b3 :: r3 =>
            ((b0 - 0xF0) * 262144 + (b1 - 0x80) * 4096
             + (b2 - 0x80) * 64 + (b3 - 0x80)) :: utf8_decode r3
        | _ => []
        end
  end.

Definition bytes_of_string (s : String.string) : list N :=
  map (fun b => N.of_nat (Ascii.nat_of_ascii b)) (String.list_ascii_of_string s).

Definition u (s : String.string) : str := utf8_decode (bytes_of_string s).
Arguments u s%_string.

(** [s.encode("utf-8")]; lone surrogates and values beyond U+10FFFF make
    CPython raise [UnicodeEncodeError], here [None]. *)
Definition utf8_encode_char (c : N) : option (list N) :=
  if c <? 0x80 then Some [c]
  else if c <? 0x800 then Some [0xC0 + c / 64; 0x80 + c mod 64]
  else if (0xD800 <=? c) && (c <? 0xE000) then None
  else if c <? 0x10000 then
    Some [0xE0 + c / 4096; 0x80 + (c / 64) mod 64; 0x80 + c mod 64]
  else if c <? 0x110000 then
    Some [0xF0 + c / 262144; 0x80 + (c / 4096) mod 64;
          0x80 + (c / 64) mod 64; 0x80 + c mod 64]
  else None.

Fixpoint utf8_encode (s : str) : option (list N) :=
  match s with
  | [] => Some []
  | c :: r =>
      match utf8_encode_char c, utf8_encode r with
      | Some bs, Some rest => Some (bs ++ rest)
      | _, _ => None
      end
  end.

Definition str_eqb (a b : str) : bool := bool_decide (a = b).

(** [a < b] on strings: lexicographic on code points. *)
Fixpoint str_ltb (a b : str) : bool :=
  match a, b with
  | _, [] => false
  | [], _ :: _ => true
  | x :: a', y :: b' =>
      if x <? y then true else if y <? x then false else str_ltb a' b'
  end.

(** [str.isspace] of one character: the white-space table of CPython's
    [unicodeobject] ([_PyUnicode_IsWhitespace]). *)
Definition is_space (c : N) : bool :=
  ((0x09 <=? c) && (c <=? 0x0D)) || ((0x1C <=? c) && (c <=? 0x20))
  || (c =? 0x85) || (c =? 0xA0) || (c =? 0x1680)
  || ((0x2000 <=? c) && (c <=? 0x200A))
  || (c =? 0x2028) || (c =? 0x2029) || (c =? 0x202F) || (c =? 0x205F)
  || (c =? 0x3000).

Definition mem (c : N) (set : str) : bool := existsb (N.eqb c) set.

(** [s.lstrip()], [s.rstrip()], [s.strip()] and their one-argument forms. *)
Fixpoint lstrip_by (p : N -> bool) (s : str) : str :=
  match s with
  | [] => []
  | c :: s' => if p c then lstrip_by p s' else s
  end.
Definition rstrip_by (p : N -> bool) (s : str) : str :=
  rev (lstrip_by p (rev s)).
Definition strip_by (p : N -> bool) (s : str) : str :=
  rstrip_by p (lstrip_by p s).

Definition lstrip : str -> str := lstrip_by is_space.
Definition rstrip : str -> str := rstrip_by is_space.
Definition strip : str -> str := strip_by is_space.
Definition rstrip_chars (set : str) : str -> str :=
  rstrip_by (fun c => mem c set).

(** [s.startswith(p)] and [s.endswith(p)]. *)
Fixpoint startswith (s p : str) : bool :=
  match p, s with
  | [], _ => true
  | _ :: _, [] => false
  | y :: p', x :: s' => (x =? y) && startswith s' p'
  end.

Definition endswith (s p : str) : bool := startswith (rev s) (rev p).

(** [s.find(p)]: the lowest index of an occurrence, [-1] if there is none. *)
Fixpoint find_from (s p : str) (i : Z) : Z :=
  if startswith s p then i
  else match s with
       | [] => (-1)%Z
       | _ :: s' => find_from s' p (i + 1)%Z
       end.

Definition find (s p : str) : Z := find_from s p 0%Z.

(** [s.rfind(p)]: the highest index of an occurrence, [-1] if there is
    none. *)
Fixpoint rfind_from (s p : str) (i : Z) : Z :=
  match s with
  | [] => if startswith [] p then i else (-1)%Z
  | _ :: s' =>
      let r := rfind_from s' p (i + 1)%Z in
      if (0 <=? r)%Z then r else if startswith s p then i else (-1)%Z
  end.

Definition rfind (s p : str) : Z := rfind_from s p 0%Z.

(** [p in s]. *)
Definition contains (s p : str) : bool := (0 <=? find s p)%Z.

Definition len (s : str) : Z := Z.of_nat (length s).

(** Slices [s[:n]] and [s[n:]]; a negative index counts from the end. *)
Definition slice_index (s : str) (n : Z) : nat :=
  if (0 <=? n)%Z then Z.to_nat n else Z.to_nat (len s + n).
Definition slice_to (s : str) (n : Z) : str := take (slice_index s n) s.
Definition slice_from (s : str) (n : Z) : str := drop (slice_index s n) s.

(** [sep.join(parts)] *)
Fixpoint join (sep : str) (parts : list str) : str :=
  match parts with
  | [] => []
  | [p] => p
  | p :: rest => p ++ sep ++ join sep rest
  end.

(** [s.replace(a, b)] for a one-character [a]. *)
Definition replace_char (a : N) (b : str) (s : str) : str :=
  flat_map (fun c => if c =? a then b else [c]) s.

(** [str(n)] for an [int]. *)
Fixpoint digits_fuel (fuel : nat) (n : N) (acc : str) : str :=
  match fuel with
  | O => acc
  | S f =>
      let acc' := (0x30 + n mod 10) :: acc in
      if n <? 10 then acc' else digits_fuel f (n / 10) acc'
  end.

Definition str_of_N (n : N) : str := digits_fuel (S (N.to_nat (N.log2 n))) n [].

Definition str_of_Z (z : Z) : str :=
  match z with
  | Zneg p => 0x2D :: str_of_N (Npos p)
  | _ => str_of_N (Z.to_N z)
  end.

End Str.

Import Str.

(** ** [hashlib.md5] (RFC 1321), used by [_seeded_choice] *)

Module Md5.

Local Open Scope N_scope.

Definition w32 (x : N) : N := x mod 4294967296.
Definition not32 (x : N) : N := N.lxor (w32 x) 4294967295.
Definition rotl32 (x : N) (c : N) : N :=
  w32 (N.lor (N.shiftl (w32 x) c) (N.shiftr (w32 x) (32 - c))).

Definition K : list N :=
  [ 0xd76aa478; 0xe8c7b756; 0x242070db; 0xc1bdceee;
    0xf57c0faf; 0x4787c62a; 0xa8304613; 0xfd469501;
    0x698098d8; 0x8b44f7af; 0xffff5bb1; 0x895cd7be;
    0x6b901122; 0xfd987193; 0xa679438e; 0x49b40821;
    0xf61e2562; 0xc040b340; 0x265e5a51; 0xe9b6c7aa;
    0xd62f105d; 0x02441453; 0xd8a1e681; 0xe7d3fbc8;
    0x21e1cde6; 0xc33707d6; 0xf4d50d87; 0x455a14ed;
    0xa9e3e905; 0xfcefa3f8; 0x676f02d9; 0x8d2a4c8a;
    0xfffa3942; 0x8771f681; 0x6d9d6122; 0xfde5380c;
    0xa4beea44; 0x4bdecfa9; 0xf6bb4b60; 0xbebfbc70;
    0x289b7ec6; 0xeaa127fa; 0xd4ef3085; 0x04881d05;
    0xd9d4d039; 0xe6db99e5; 0x1fa27cf8; 0xc4ac5665;
    0xf4292244; 0x432aff97; 0xab9423a7; 0xfc93a039;
    0x655b59c3; 0x8f0ccc92; 0xffeff47d; 0x85845dd1;
    0x6fa87e4f; 0xfe2ce6e0; 0xa3014314; 0x4e0811a1;
    0xf7537e82; 0xbd3af235; 0x2ad7d2bb; 0xeb86d391 ].

Definition shifts : list N :=
  [ 7; 12; 17; 22; 7; 12; 17; 22; 7; 12; 17; 22; 7; 12; 17; 22;
    5; 9; 14; 20; 5; 9; 14; 20; 5; 9; 14; 20; 5; 9; 14; 20;
    4; 11; 16; 23; 4; 11; 16; 23; 4; 11; 16; 23; 4; 11; 16; 23;
    6; 10; 15; 21; 6; 10; 15; 21; 6; 10; 15; 21; 6; 10; 15; 21 ].

Record state := { sa : N; sb : N; sc : N; sd : N }.

Definition init : state :=
  {| sa := 0x67452301; sb := 0xefcdab89; sc := 0x98badcfe; sd := 0x10325476 |}.

(** One of the 64 operations of a block. *)
Definition step (M : list N) (st : state) (i : nat) : state :=
  let '(Build_state A B C D) := st in
  let n := N.of_nat i in
  let '(F, g) :=
    if n <? 16 then (N.lor (N.land B C) (N.land (not32 B) D), n)
    else if n <? 32 then
      (N.lor (N.land D B) (N.land (not32 D) C), (5 * n + 1) mod 16)
    else if n <? 48 then (N.lxor (N.lxor B C) D, (3 * n + 5) mod 16)
    else (N.lxor C (N.lor B (not32 D)), (7 * n) mod 16) in
  let F' := w32 (F + A + nth i K 0 + nth (N.to_nat g) M 0) in
  {| sa := D; sd := C; sc := B; sb := w32 (B + rotl32 F' (nth i shifts 0)) |}.

Definition le32 (b0 b1 b2 b3 : N) : N :=
  b0 + 256 * b1 + 65536 * b2 + 16777216 * b3.

Fixpoint words (bs : list N) : list N :=
  match bs with
  | b0 :: b1 :: b2 :: b3 :: r => le32 b0 b1 b2 b3 :: words r
  | _ => []
  end.

Definition block (st : state) (chunk : list N) : state :=
  let M := words chunk in
  let st' := fold_left (step M) (seq 0 64) st in
  {| sa := w32 (sa st + sa st'); sb := w32 (sb st + sb st');
     sc := w32 (sc st + sc st'); sd := w32 (sd st + sd st') |}.

Fixpoint blocks (n : nat) (st : state) (bs : list N) : state :=
  match n with
  | O => st
  | S n' => blocks n' (block st (firstn 64 bs)) (skipn 64 bs)
  end.

Fixpoint le_bytes (k : nat) (x : N) : list N :=
  match k with
  | O => []
  | S k' => (x mod 256) :: le_bytes k' (x / 256)
  end.

Definition pad (bs : list N) : list N :=
  let l := N.of_nat (length bs) in
  let zeros := N.to_nat ((55 + 64 - l mod 64) mod 64) in
  bs ++ [0x80] ++ repeat 0 zeros ++ le_bytes 8 (w32 (8 * l) + 4294967296 * w32 ((8 * l) / 4294967296)).

Definition digest (bs : list N) : list N :=
  let p := pad bs in
  let st := blocks (length p / 64) init p in
  le_bytes 4 (sa st) ++ le_bytes 4 (sb st) ++ le_bytes 4 (sc st)
    ++ le_bytes 4 (sd st).

(** [int(hashlib.md5(b).hexdigest(), 16)]: the digest read as one
    big-endian number. *)
Definition hexdigest_int (bs : list N) : N :=
  fold_left (fun acc b => 256 * acc + b) (digest bs) 0.

End Md5.

(** ** The [re] patterns of the sources *)

Module Re.

Local Open Scope N_scope.

(** What the patterns ask of CPython's Unicode database: [\w] and [\b]
    (word characters), [\d] (decimal digits), literal comparison under
    [re.IGNORECASE], and [str.lower].  The database is not part of the
    repository; general statements are made for every table that obeys
    [TableLaws], evaluations use [basic]. *)
Class Tables : Type := {
  is_word : N -> bool;
  is_digit : N -> bool;
  ieq : N -> N -> bool;
  lower : str -> str
}.

Definition lower_char (c : N) : N :=
  if (0x41 <=? c) && (c <=? 0x5A) then c + 32
  else if (0x410 <=? c) && (c <=? 0x42F) then c + 32
  else if (0x400 <=? c) && (c <=? 0x40F) then c + 80
  else c.

(** The tables on Basic Latin and on the Cyrillic letters
    [U+0400..U+045F], where they are the ones of CPython; the further
    Cyrillic letters up to [U+052F] are word characters taken without
    case, and every other code point is read as a caseless symbol.  The
    evaluations below stay within the first two ranges and common
    punctuation. *)
Definition basic : Tables := {|
  is_word c :=
    ((0x30 <=? c) && (c <=? 0x39)) || ((0x41 <=? c) && (c <=? 0x5A))
    || ((0x61 <=? c) && (c <=? 0x7A)) || (c =? 0x5F)
    || ((0x400 <=? c) && (c <=? 0x481)) || ((0x48A <=? c) && (c <=? 0x52F));
  is_digit c := (0x30 <=? c) && (c <=? 0x39);
  ieq p c := lower_char p =? lower_char c;
  lower s := map lower_char s
|}.

(** What the statements below use of the real tables: a character
    matches itself; the Cyrillic letters [U+0410..U+044F] are word
    characters and so is whatever matches one of them when case is
    ignored; a word character is not white space; the full stop is not a
    word character. *)
Class TableLaws (T : Tables) : Prop := {
  ieq_refl : forall c, ieq c c = true;
  word_cyrillic : forall c, 0x410 <= c <= 0x44F -> is_word c = true;
  ieq_cyrillic_word :
    forall p c, 0x410 <= p <= 0x44F -> ieq p c = true -> is_word c = true;
  word_not_space : forall c, is_word c = true -> is_space c = false;
  word_full_stop : is_word 0x2E = false
}.

(** The character before position [length a] of a text that starts with
    [a] and is itself preceded by [prev]. *)
Definition last_or (prev : option N) (a : str) : option N :=
  match last a with Some c => Some c | None => prev end.

Section Patterns.
Context {T : Tables}.

Definition word_at (o : option N) : bool :=
  match o with Some c => is_word c | None => false end.

(** [\b] between the character before ([None] at the start of the text)
    and the character after ([None] at its end). *)
Definition boundary (prev next : option N) : bool :=
  xorb (word_at prev) (word_at next).

(** A literal matched case-insensitively at the head of [s]; the result
    is the last character consumed and the remaining text. *)
Fixpoint ilit (w s : str) (prev : option N) : option (option N * str) :=
  match w with
  | [] => Some (prev, s)
  | p :: w' =>
      match s with
      | c :: s' => if ieq p c then ilit w' s' (Some c) else None
      | [] => None
      end
  end.

(** [(w1|w2|...)\b]: the first alternative that matches and is followed
    by a word boundary; the result is the length of the match. *)
Fixpoint alt_then_boundary (ws : list str) (prev : option N) (s : str)
    : option nat :=
  match ws with
  | [] => None
  | w :: ws' =>
      match ilit w s prev with
      | Some (last, rest) =>
          if boundary last (head rest) then Some (length w)
          else alt_then_boundary ws' prev s
      | None => alt_then_boundary ws' prev s
      end
  end.

(** [_CTA_RE = \b(Открыть|Оформить|Подключить|Подключите|Посмотреть|
    Настроить|Узнать)\b], [re.IGNORECASE]. *)
Definition CTA_WORDS : list str := Eval vm_compute in
  [ u "Открыть"; u "Оформить"; u "Подключить"; u "Подключите";
    u "Посмотреть"; u "Настроить"; u "Узнать" ].

Definition cta_match_at (prev : option N) (s : str) : option nat :=
  if boundary prev (head s) then alt_then_boundary CTA_WORDS prev s else None.

(** [pattern.finditer(t)] for a pattern [m] that never matches the empty
    string: the non-overlapping matches, leftmost first, as
    [(start, end)].  [skip] counts the characters of the current match
    still to be stepped over. *)
Fixpoint finditer_from (m : option N -> str -> option nat)
    (prev : option N) (s : str) (pos skip : nat) : list (nat * nat) :=
  match s with
  | [] => []
  | c :: s' =>
      match skip with
      | S k => finditer_from m (Some c) s' (S pos) k
      | O =>
          match m prev s with
          | Some n =>
              (pos, (pos + n)%nat)
                :: finditer_from m (Some c) s' (S pos) (Nat.pred n)
          | None => finditer_from m (Some c) s' (S pos) O
          end
      end
  end.

Definition cta_finditer (t : str) : list (nat * nat) :=
  finditer_from cta_match_at None t 0 0.

(** [_CTA_RE.search(t)]: the leftmost match, if any. *)
Definition cta_search (t : str) : option (nat * nat) := head (cta_finditer t).

(** [re.sub(r"!{2,}", "!", s)]: every run of two or more [!] becomes one. *)
Fixpoint collapse_bangs (s : str) : str :=
  match s with
  | c :: s' =>
      match s' with
      | d :: _ =>
          if (c =? 0x21) && (d =? 0x21) then collapse_bangs s'
          else c :: collapse_bangs s'
      | [] => s
      end
  | [] => []
  end.

(** [k] to [k + extra] digits ([\d{k,k+extra}], greedy with backtracking)
    followed by the continuation [next]. *)
Fixpoint digits_then (k extra : nat) (next : option N -> str -> bool)
    (prev : option N) (s : str) : bool :=
  match k with
  | S k' =>
      match s with
      | c :: s' => is_digit c && digits_then k' extra next (Some c) s'
      | [] => false
      end
  | O =>
      match extra with
      | S e' =>
          match s with
          | c :: s' =>
              (is_digit c && digits_then O e' next (Some c) s') || next prev s
          | [] => next prev s
          end
      | O => next prev s
      end
  end.

Definition dot_then (next : option N -> str -> bool)
    (prev : option N) (s : str) : bool :=
  match s with
  | c :: s' => (c =? 0x2E) && next (Some c) s'
  | [] => false
  end.

(** [\b\d{1,2}[.]\d{1,2}[.]\d{2,4}\b] matched at the head of [s]. *)
Definition date_match_at (prev : option N) (s : str) : bool :=
  boundary prev (head s)
  && digits_then 1 1
       (dot_then
          (digits_then 1 1
             (dot_then
                (digits_then 2 2 (fun last rest => boundary last (head rest))))))
       prev s.

(** [re.search] of the date pattern, as [Series.str.contains] applies it
    to one value. *)
Fixpoint date_search_from (prev : option N) (s : str) : bool :=
  date_match_at prev s
  || match s with
     | c :: s' => date_search_from (Some c) s'
     | [] => false
     end.

Definition contains_date (s : str) : bool := date_search_from None s.

End Patterns.

(** [_AMOUNT_JUNK_RE = [^0-9.\-]]: the characters that are kept. *)
Definition amount_char (c : N) : bool :=
  ((0x30 <=? c) && (c <=? 0x39)) || (c =? 0x2E) || (c =? 0x2D).

End Re.

(** ** [src/pushgen_llm.py] *)

Module Pushgen.

Import Re.

Definition MAX_LEN : Z := 220.

Section Renderer.
Context {T : Tables}.

Definition ends_terminal (s : str) : bool :=
  endswith s (u ".") || endswith s (u "!") || endswith s (u "?").

Definition STOPS : list str := Eval vm_compute in [u ". "; u "! "; u "? "].

(** The [for stop in (". ", "! ", "? ")] loop: the index found for the
    first stop with [i >= bound], or [None] when the loop runs to its
    end. *)
Fixpoint first_stop (stops : list str) (head : str) (bound : Z) : option Z :=
  match stops with
  | [] => None
  | stop :: rest =>
      let i := rfind head stop in
      if (bound <=? i)%Z then Some i else first_stop rest head bound
  end.

(** The cut of the text [head] for the budget [budget]: at a sentence
    end within 40 characters of the budget, else at a word end within 25
    characters with an ellipsis. *)
Definition cut_head (head : str) (budget : Z) : str :=
  match first_stop STOPS head (budget - 40) with
  | Some i => rstrip (slice_to head (i + 1))
  | None =>
      let i := rfind head (u " ") in
      let cut := if (budget - 25 <=? i)%Z then slice_to head i else head in
      rstrip_chars (u " ,;") cut ++ u "…"
  end.

(** The tail kept for the CTA match starting at [start]. *)
Definition cta_tail (t : str) (start : nat) : str :=
  let tail := rstrip (slice_from t (Z.of_nat start)) in
  if ends_terminal tail then tail else tail ++ u ".".

Definition _smart_clamp (text : str) (max_len : Z) : str :=
  let t := collapse_bangs (strip text) in
  if (len t <=? max_len)%Z then t
  else
    match last (cta_finditer t) with
    | Some (start, _) =>
        let tail := cta_tail t start in
        let head_budget := Z.max (max_len - len tail - 1) 0 in
        let head := slice_to t head_budget in
        strip (cut_head head head_budget ++ u " " ++ tail)
    | None => cut_head (slice_to t max_len) max_len
    end.

Definition _norm_status (raw : option str) : str :=
  match raw with
  | None => u "Стандартный клиент"
  | Some raw =>
      let s := lower (strip raw) in
      if contains s (u "студент") then u "Студент"
      else if contains s (u "зарплат") then u "Зарплатный клиент"
      else if contains s (u "преми") then u "Премиальный клиент"
      else u "Стандартный клиент"
  end.

Definition _month_hint (month : option str) : str :=
  match month with
  | Some m => if bool_decide (strip m = []) then u "этом месяце" else strip m
  | None => u "этом месяце"
  end.

(** [_seeded_choice]; [None] stands for the [UnicodeEncodeError] of
    [seed.encode("utf-8")]. *)
Definition _seeded_choice (seed : str) (options : list str) : option str :=
  match options with
  | [] => Some []
  | _ =>
      match utf8_encode seed with
      | Some bs =>
          let h := Md5.hexdigest_int bs in
          Some (nth (N.to_nat (h mod N.of_nat (length options))) options [])
      | None => None
      end
  end.

Definition cta_pools : list (str * list str) := Eval vm_compute in
  [ (u "Карта для путешествий", [u "Оформить карту"; u "Оформить сейчас"]);
    (u "Премиальная карта", [u "Оформить сейчас"; u "Подключить карту"]);
    (u "Кредитная карта", [u "Оформить карту"; u "Подключить карту"]);
    (u "Обмен валют", [u "Настроить обмен"; u "Посмотреть курс"]);
    (u "FX", [u "Настроить обмен"; u "Посмотреть курс"]);
    (u "Инвестиции", [u "Открыть счёт"; u "Посмотреть условия"]);
    (u "Кредит наличными", [u "Узнать лимит"; u "Посмотреть условия"]);
    (u "Золотые слитки", [u "Посмотреть условия"; u "Открыть в приложении"]) ].

Definition cta_default : list str := Eval vm_compute in
  [u "Оформить сейчас"; u "Посмотреть"; u "Подключить"].

(** [d.get(k, default)] on a dictionary literal. *)
Fixpoint dict_get {V : Type} (d : list (str * V)) (k : str) (default : V) : V :=
  match d with
  | [] => default
  | (k', v) :: d' => if str_eqb k k' then v else dict_get d' k default
  end.

Definition _cta_for_product_var (product key : str) : option str :=
  let opts := dict_get cta_pools product cta_default in
  _seeded_choice (key ++ u "|cta|" ++ product) opts.

Definition _tone_preamble (name : str) (status : option str)
    (city : option str) : str :=
  let status := _norm_status status in
  let name_part :=
    if bool_decide (name = []) then u "Здравствуйте," else name ++ u "," in
  let city_hint :=
    match city with
    | Some c => if bool_decide (strip c = []) then [] else u " в " ++ strip c
    | None => []
    end in
  if str_eqb status (u "Студент") then
    name_part ++ u " если часто" ++ city_hint
      ++ u " пользуетесь сервисами и такси — есть выгоднее."
  else if str_eqb status (u "Премиальный клиент") then
    name_part ++ u " с вашим профилем можно оптимизировать расходы и сервис."
  else if str_eqb status (u "Зарплатный клиент") then
    name_part ++ u " давайте сделаем повседневные платежи удобнее."
  else
    name_part ++ u " смотрим на последние траты и подбираем лучший продукт.".

(** The keys of the context dictionary that the renderer reads, typed as
    [_build_ctx_map] fills them; [None] is an absent key. *)
Record ctx : Type := {
  benefit_num : option spec_float;
  benefit : option str;
  travel_sum : option str;
  premium_sum : option str;
  online_sum : option str;
  top3_names : option str;
  fav : option str;
  atm_cnt : option Z;
  transfer_cnt : option Z
}.

(** Truth values of [str] and [int] objects, [None] being false. *)
Definition truthy_str (o : option str) : bool :=
  match o with Some (_ :: _) => true | _ => false end.
Definition truthy_int (o : option Z) : bool :=
  match o with Some z => negb (z =? 0)%Z | None => false end.

(** [f"{x}"] of an optional value. *)
Definition fmt_str (o : option str) : str :=
  match o with Some s => s | None => u "None" end.
Definition fmt_int (o : option Z) : str :=
  match o with Some z => str_of_Z z | None => u "None" end.

Definition or_default (o : option str) (d : str) : str :=
  match o with Some s => s | None => d end.

Definition bf0_candidates : list (str * list str) := Eval vm_compute in
  [ (u "Карта для путешествий",
       [ u "Часть расходов на поездки вернулась бы кешбэком.";
         u "По поездкам и такси можно получать возврат." ]);
    (u "Премиальная карта",
       [ u "Базовый кешбэк и повышенный — на рестораны/косметику.";
         u "Повышенный кешбэк и экономия на комиссиях." ]);
    (u "Кредитная карта",
       [ u "До 10% в любимых категориях и на онлайн-сервисы.";
         u "Кешбэк до 10% по частым тратам." ]);
    (u "Обмен валют",
       [ u "Выгодный курс и автопокупка по цели.";
         u "Можно настроить автопокупку по целевому курсу." ]) ].

Definition bf0_default : list str := Eval vm_compute in
  [ u "Это поможет экономить и упростит платежи.";
    u "Подойдёт по вашему профилю расходов." ].

Definition when (b : bool) (x : str) : list str := if b then [x] else [].

Definition _benefit_phrase (product mon : str) (c : ctx) (key : str)
    : option str :=
  let b :=
    match benefit_num c with
    | Some x => if feq x zero then zero else x
    | None => zero
    end in
  let b_txt := or_default (benefit c) (u "0 ₸") in
  let travel := travel_sum c in
  let prem := premium_sum c in
  let online := online_sum c in
  let fav_ :=
    if truthy_str (top3_names c) then top3_names c
    else Some (or_default (fav c) []) in
  let atm := atm_cnt c in
  let trf := transfer_cnt c in
  let is_travel := str_eqb product (u "Карта для путешествий") in
  let is_premium := str_eqb product (u "Премиальная карта") in
  let is_credit := str_eqb product (u "Кредитная карта") in
  if fle b zero then
    let candidates := dict_get bf0_candidates product bf0_default in
    let extra :=
      when (is_travel && truthy_str travel) (u "Поездки: " ++ fmt_str travel)
      ++ when (is_premium && truthy_str prem)
           (u "Рестораны/косметика: " ++ fmt_str prem)
      ++ when (is_credit && truthy_str online)
           (u "Онлайн-сервисы: " ++ fmt_str online)
      ++ when (is_premium && (truthy_int atm || truthy_int trf))
           (u "Снятия/переводы: " ++ fmt_int atm ++ u "/" ++ fmt_int trf) in
    let tail :=
      match extra with
      | [] => []
      | _ => u ". " ++ join (u "; ") extra
      end in
    match _seeded_choice (key ++ u "|bf0") candidates with
    | Some chosen => Some (chosen ++ tail)
    | None => None
    end
  else
    match
      _seeded_choice (key ++ u "|bf")
        [ u "В " ++ mon ++ u " ориентировочная выгода ~" ++ b_txt ++ u ".";
          u "По вашему профилю в " ++ mon ++ u " вернулось бы около "
            ++ b_txt ++ u ".";
          u "В " ++ mon ++ u " можно было бы сэкономить примерно "
            ++ b_txt ++ u ".";
          u "Оценка выгоды за " ++ mon ++ u ": около " ++ b_txt ++ u "." ]
    with
    | None => None
    | Some core =>
        let reason_parts :=
          when (is_travel && truthy_str travel)
            (u "за счёт поездок (" ++ fmt_str travel ++ u ")")
          ++ when (is_premium && truthy_str prem)
               (u "за счёт премиальных категорий (" ++ fmt_str prem ++ u ")")
          ++ when (is_credit && (truthy_str fav_ || truthy_str online))
               (u "за счёт любимых категорий и онлайн-сервисов")
          ++ when (is_premium && (truthy_int atm || truthy_int trf))
               (u "и снижения комиссий") in
        let why :=
          match reason_parts with
          | [] => []
          | _ => strip (join (u " ") reason_parts ++ u ".")
          end in
        match _seeded_choice (key ++ u "|why") [[]; why] with
        | Some r => Some (core ++ u " " ++ r)
        | None => None
        end
    end.

(** The demographic dictionary [demo]: the keys that are read. *)
Record demo : Type := {
  status : option str;
  city : option str
}.

Definition no_demo : demo := {| status := None; city := None |}.

Definition lead_for (product mon : str) (c : ctx) (city_ : option str) : str :=
  if str_eqb product (u "Карта для путешествий") then
    u "В " ++ mon ++ u " заметные траты на поездки и такси ("
      ++ or_default (travel_sum c) (u "0 ₸") ++ u "). "
  else if str_eqb product (u "Премиальная карта") then
    u "С вашим остатком и тратами в ресторанах/косметике ("
      ++ or_default (premium_sum c) (u "0 ₸") ++ u ") выгода выше. "
  else if str_eqb product (u "Кредитная карта") then
    let fav_ :=
      if truthy_str (top3_names c) then fmt_str (top3_names c)
      else or_default (fav c) (u "-") in
    u "Ваши топ-категории — " ++ fav_ ++ u "; онлайн-сервисы на "
      ++ or_default (online_sum c) (u "0 ₸") ++ u ". "
  else if str_eqb product (u "Обмен валют") || str_eqb product (u "FX") then
    u "Нужен удобный курс"
      ++ (if truthy_str city_ then u " для поездок в " ++ fmt_str city_ else [])
      ++ u "? Настройте автопокупку. "
  else if startswith product (u "Депозит сбер") then
    u "Если средства лежат без снятий — сберегательный вклад даст максимум. "
  else if startswith product (u "Депозит накоп") then
    u "Регулярно пополняете — копите на цели без снятий. "
  else if startswith product (u "Депозит мульти") then
    u "Храните тенге и валюту вместе с начислением. "
  else if str_eqb product (u "Инвестиции") then
    u "Низкий порог входа и сниженные комиссии для аккуратного старта. "
  else if str_eqb product (u "Кредит наличными") then
    u "Нужна подушка на крупные траты — оформите кредит и настройте выплаты. "
  else if str_eqb product (u "Золотые слитки") then
    u "Физическое золото для диверсификации и сохранения стоимости. "
  else
    u "Подбираем вариант с наибольшей пользой для вашего профиля. ".

(** [generate_personalized_push]; [None] is the exception raised when a
    seed cannot be encoded. *)
Definition generate_personalized_push (product name : str)
    (month : option str) (c : ctx) (d : option demo) (max_len : option Z)
    : option str :=
  let d := match d with Some d => d | None => no_demo end in
  let pre := _tone_preamble name (status d) (city d) in
  let mon := _month_hint month in
  let key :=
    name ++ u "|" ++ product ++ u "|" ++ mon ++ u "|"
      ++ (if truthy_str (status d) then fmt_str (status d) else []) ++ u "|"
      ++ (if truthy_str (city d) then fmt_str (city d) else []) in
  match _cta_for_product_var product key with
  | None => None
  | Some cta =>
      let lead := lead_for product mon c (city d) in
      match _benefit_phrase product mon c key with
      | None => None
      | Some benefit_ =>
          let msg := pre ++ u " " ++ lead ++ benefit_ ++ u " " ++ cta ++ u "." in
          let limit :=
            match max_len with
            | Some n => if (0 <? n)%Z then n else MAX_LEN
            | None => MAX_LEN
            end in
          Some (_smart_clamp msg limit)
      end
  end.

(** [ensure_cta]; the [try/except] around the CTA choice falls back to a
    fixed phrase. *)
Definition ensure_cta (product text key : str) : str :=
  if bool_decide (strip text = []) then text
  else if bool_decide (cta_search text <> None) then text
  else
    let cta :=
      match _cta_for_product_var product
              (if bool_decide (key = []) then product else key) with
      | Some c => c
      | None => u "Оформить сейчас"
      end in
    let cleaned := rstrip (rstrip_chars (u ".!?") (rstrip text)) in
    cleaned ++ u ". " ++ cta ++ u ".".

End Renderer.

End Pushgen.

(** ** pandas *)

Module Pandas.

(** The three library entry points whose results the sources consume
    without the repository defining them: [pd.to_datetime(col,
    errors="coerce", dayfirst=...)] on a column of text, with [None] for
    [NaT] and a time stamp as nanoseconds; [pd.to_numeric(cell,
    errors="coerce")] on one cell of text, with [None] for [NaN]; and
    [Series.sum()] on floats.  General statements hold for every
    implementation; evaluations use [model] below. *)
Class Lib : Type := {
  to_datetime : bool -> list str -> list (option Z);
  to_numeric : str -> option spec_float;
  fsum : list spec_float -> spec_float
}.

Local Open Scope N_scope.

(** Plain decimal text: an optional minus sign, digits, at most one
    point, at least one digit.  The result is the sign, the digits read
    as one integer and the number of digits after the point. *)
Fixpoint read_digits (s : str) (acc : Z) (seen : bool) (frac : option nat)
    : option (Z * nat) :=
  match s with
  | [] => if seen then Some (acc, match frac with Some k => k | None => O end)
          else None
  | c :: s' =>
      if (0x30 <=? c) && (c <=? 0x39) then
        read_digits s' (10 * acc + Z.of_N (c - 0x30))%Z true
          (match frac with Some k => Some (S k) | None => None end)
      else if c =? 0x2E then
        match frac with
        | None => read_digits s' acc seen (Some O)
        | Some _ => None
        end
      else None
  end.

Definition read_decimal (s : str) : option (bool * Z * nat) :=
  match s with
  | c :: s' =>
      if c =? 0x2D then
        match read_digits s' 0 false None with
        | Some (n, k) => Some (true, n, k)
        | None => None
        end
      else
        match read_digits s 0 false None with
        | Some (n, k) => Some (false, n, k)
        | None => None
        end
  | [] => None
  end.

Definition decimal_to_numeric (s : str) : option spec_float :=
  match read_decimal s with
  | Some (sg, n, k) => Some (of_decimal sg n k)
  | None => None
  end.

(** Dates written with three numeric fields around points, [A.B.YYYY]:
    day first reads [A] as the day, the default reads [A] as the month.
    Time stamps are days since 1970-01-01 scaled to nanoseconds. *)
Definition days_from_civil (y m d : Z) : Z :=
  let y' := (if m <=? 2 then y - 1 else y)%Z in
  let era := (y' / 400)%Z in
  let yoe := (y' - era * 400)%Z in
  let mp := ((m + 9) mod 12)%Z in
  let doy := ((153 * mp + 2) / 5 + d - 1)%Z in
  let doe := (yoe * 365 + yoe / 4 - yoe / 100 + doy)%Z in
  (era * 146097 + doe - 719468)%Z.

Definition days_in_month (y m : Z) : Z :=
  (if m =? 2 then
     if ((y mod 4 =? 0) && negb (y mod 100 =? 0)) || (y mod 400 =? 0)
     then 29 else 28
   else if (m =? 4) || (m =? 6) || (m =? 9) || (m =? 11) then 30 else 31)%Z.

Fixpoint split_on (sep : N) (s : str) (cur : str) : list str :=
  match s with
  | [] => [rev cur]
  | c :: s' =>
      if c =? sep then rev cur :: split_on sep s' []
      else split_on sep s' (c :: cur)
  end.

Definition field (s : str) : option Z :=
  match read_digits s 0 false None with
  | Some (n, O) => if existsb (N.eqb 0x2E) s then None else Some n
  | _ => None
  end.

Definition dotted_date (dayfirst : bool) (s : str) : option Z :=
  match split_on 0x2E s [] with
  | [fa; fb; fy] =>
      match field fa, field fb, field fy with
      | Some a, Some b, Some y =>
          let '(d, m) := if dayfirst then (a, b) else (b, a) in
          if (Nat.eqb (length fy) 4
              && (1 <=? m)%Z && (m <=? 12)%Z
              && (1 <=? d)%Z && (d <=? days_in_month y m)%Z)
          then Some (days_from_civil y m d * 86400000000000)%Z
          else None
      | _, _, _ => None
      end
  | _ => None
  end.

(** A reference implementation for evaluations: a column of dotted
    numeric dates is read month first, or day first on request, a value
    that does not fit being lost (as pandas reads a column whose first
    value can be read either way: [01.02.2023] is 2 January by default
    and 1 February day first); plain decimal numbers; summation from
    left to right. *)
Definition model : Lib := {|
  to_datetime dayfirst col := map (dotted_date dayfirst) col;
  to_numeric := decimal_to_numeric;
  fsum l := fold_left fadd l zero
|}.

End Pandas.

(** ** Stable sorts and the built-in [sorted] *)

Module PySort.

Section Sorted.
Context {A K : Type} (key : A -> K) (lt : K -> K -> bool).

(** The stable descending sort, by insertion.  [x] comes before every
    element of [l] in the input; it is placed after the elements with a
    strictly greater key and before the first element whose key is not
    greater, so that equal keys keep the input order. *)
Fixpoint insert_desc (x : A) (l : list A) : list A :=
  match l with
  | [] => [x]
  | y :: l' =>
      if lt (key x) (key y) then y :: insert_desc x l' else x :: y :: l'
  end.

Definition sorted_desc (l : list A) : list A := foldr insert_desc [] l.

(** [a] may stand before [b] in a descending order: its key is not
    smaller. *)
Definition ge_key (a b : A) : Prop := lt (key a) (key b) = false.

(** The stable ascending sort, by insertion. *)
Fixpoint insert_asc (x : A) (l : list A) : list A :=
  match l with
  | [] => [x]
  | y :: l' =>
      if lt (key y) (key x) then y :: insert_asc x l' else x :: y :: l'
  end.

Definition sorted_asc (l : list A) : list A := foldr insert_asc [] l.

End Sorted.

(** The built-in [sorted(xs, key=..., reverse=True)] with [float] keys.
    The language promises a stable sort for keys that [<] puts in
    order; with a NaN among the keys the order that comes out is the
    implementation's, so the built-in is a parameter. *)
Class Builtin : Type := {
  py_sorted_reverse : forall {A : Type}, (A -> spec_float) -> list A -> list A
}.

(** What the language says of the built-in: the result holds the
    elements of the list, and when no key is NaN it is the stable
    descending sort. *)
Class BuiltinLaws (B : Builtin) : Prop := {
  py_sorted_perm :
    forall (A : Type) (key : A -> spec_float) (l : list A),
      py_sorted_reverse key l ≡ₚ l;
  py_sorted_numbers :
    forall (A : Type) (key : A -> spec_float) (l : list A),
      Forall (fun a => is_nan (key a) = false) l ->
      py_sorted_reverse key l = sorted_desc key flt l
}.

(** The reference implementation: the stable descending sort on every
    list. *)
Definition reference : Builtin :=
  {| py_sorted_reverse := fun A key l => sorted_desc key flt l |}.

End PySort.

(** ** [src/utils.py] (categories) and [src/scorer.py] *)

Module Scorer.

Import Pandas PySort.

Definition ONLINE_CATS : list str := Eval vm_compute in
  [u "Едим дома"; u "Смотрим дома"; u "Играем дома"].
Definition PREMIUM_BOOST_CATS : list str := Eval vm_compute in
  [u "Ювелирные украшения"; u "Косметика и Парфюмерия"; u "Кафе и рестораны"].
Definition TRAVEL_CATS : list str := Eval vm_compute in
  [u "Путешествия"; u "Такси"; u "Отели"; u "АЗС"].

Definition PRODUCTS : list str := Eval vm_compute in
  [ u "Карта для путешествий";
    u "Премиальная карта";
    u "Кредитная карта";
    u "Обмен валют";
    u "Кредит наличными";
    u "Депозит мультивалютный";
    u "Депозит сберегательный (с «заморозкой»)";
    u "Депозит накопительный";
    u "Инвестиции (брокерский счёт)";
    u "Золотые слитки" ].

(** Rows of the canonical tables; a missing cell is [None]. *)
Record tx_row : Type := {
  tx_date : option Z;
  tx_category : option str;
  tx_amount : spec_float
}.

Record tr_row : Type := {
  tr_date : option Z;
  tr_type : option str;
  tr_direction : option str;
  tr_amount : spec_float
}.

(** The feature dictionary returned by [compute_features_for_client]. *)
Record features : Type := {
  TOTAL_SPEND : spec_float;
  TRAVEL_SPEND : spec_float;
  PREMIUM_SPEND : spec_float;
  ONLINE_SPEND : spec_float;
  FAV_SPEND_SUM : spec_float;
  ATM_CNT : Z;
  TRANSFER_CNT : Z;
  NEED_RATIO : spec_float;
  SHORTFALL : spec_float;
  FX_TURNOVER : spec_float;
  FREE_BAL_3M : spec_float;
  FAV_CATS : list (option str)
}.

Definition lit_3_0 : spec_float := Eval vm_compute in dec 3 0.
Definition lit_12_0 : spec_float := Eval vm_compute in dec 12 0.

(** [(col >= start) & (col < end)]; a comparison with [NaT] is false. *)
Definition in_period (start end_ : Z) (d : option Z) : bool :=
  match d with
  | Some t => (start <=? t) && (t <? end_)
  | None => false
  end.

(** [col.isin(values)] and [col == value] on an optional text cell. *)
Definition isin (values : list str) (c : option str) : bool :=
  match c with
  | Some s => existsb (str_eqb s) values
  | None => false
  end.

Definition cell_eq (value : str) (c : option str) : bool :=
  match c with
  | Some s => str_eqb s value
  | None => false
  end.

Definition count_true {X : Type} (p : X -> bool) (l : list X) : Z :=
  Z.of_nat (length (filter (fun x => p x = true) l)).

(** Order of group labels: text ascending, the missing label last. *)
Definition label_ltb (a b : option str) : bool :=
  match a, b with
  | Some x, Some y => str_ltb x y
  | Some _, None => true
  | None, _ => false
  end.

Definition label_eqb (a b : option str) : bool := bool_decide (a = b).

Fixpoint distinct (l : list (option str)) : list (option str) :=
  match l with
  | [] => []
  | x :: l' => x :: filter (fun y => label_eqb x y = false) (distinct l')
  end.

Section WithLib.
Context {P : Lib}.

(** [top_categories(tx_client, topn)]:
    [groupby("category", dropna=False)["amount"].sum()
       .sort_values(ascending=False)]; the order among equal sums is the
    library's and is taken stable here. *)
Definition category_sums (txm : list tx_row) : list (option str * spec_float) :=
  let labels :=
    sorted_asc (fun x => x) label_ltb (distinct (map tx_category txm)) in
  let grp :=
    map (fun l =>
           (l, fsum (map tx_amount
                       (filter (fun r => label_eqb (tx_category r) l = true)
                               txm))))
        labels in
  sorted_desc snd flt grp.

Definition top_categories (tx_client : list tx_row) (topn : nat)
    : list (option str) * list (option str * spec_float) :=
  let grp := category_sums tx_client in
  (map fst (take topn grp), grp).

Definition compute_features_for_client (tx_client : list tx_row)
    (tr_client : list tr_row) (avg_balance : spec_float) (period : Z * Z)
    : features :=
  let '(start, end_) := period in
  let txm := filter (fun r => in_period start end_ (tx_date r) = true) tx_client in
  let trm := filter (fun r => in_period start end_ (tr_date r) = true) tr_client in
  let total_spend := fsum (map tx_amount txm) in
  let sum_where (cats : list str) :=
    fsum (map tx_amount
            (filter (fun r => isin cats (tx_category r) = true) txm)) in
  let travel_spend := sum_where TRAVEL_CATS in
  let premium_spend := sum_where PREMIUM_BOOST_CATS in
  let online_spend := sum_where ONLINE_CATS in
  let '(fav_cats, cat_series) := top_categories txm 3 in
  let fav_spend_sum :=
    match fav_cats with
    | [] => zero
    | _ => fsum (map snd (take 3 cat_series))
    end in
  let is_out := fun r => cell_eq (u "out") (tr_direction r) in
  let atm_cnt :=
    count_true (fun r => cell_eq (u "atm_withdrawal") (tr_type r) && is_out r)
      trm in
  let transfer_cnt :=
    count_true
      (fun r => isin [u "p2p_out"; u "card_out"; u "utilities_out"] (tr_type r)
                && is_out r) trm in
  let inflows :=
    fsum (map tr_amount
            (filter (fun r => cell_eq (u "in") (tr_direction r) = true) trm)) in
  let outflows :=
    fsum (map tr_amount (filter (fun r => is_out r = true) trm)) in
  let need_ratio := if fgt inflows zero then fdiv outflows inflows else inf in
  let shortfall_abs := py_max zero (fsub outflows inflows) in
  let fx_turnover :=
    fsum (map (fun r => fabs (tr_amount r))
            (filter (fun r => isin [u "fx_buy"; u "fx_sell"] (tr_type r) = true)
                    trm)) in
  let free_balance_3m := fdiv (fmul avg_balance lit_3_0) lit_12_0 in
  {| TOTAL_SPEND := total_spend;
     TRAVEL_SPEND := travel_spend;
     PREMIUM_SPEND := premium_spend;
     ONLINE_SPEND := online_spend;
     FAV_SPEND_SUM := fav_spend_sum;
     ATM_CNT := atm_cnt;
     TRANSFER_CNT := transfer_cnt;
     NEED_RATIO := need_ratio;
     SHORTFALL := shortfall_abs;
     FX_TURNOVER := fx_turnover;
     FREE_BAL_3M := free_balance_3m;
     FAV_CATS := fav_cats |}.

End WithLib.

Import Rules.

(** The [scores] dictionary, in the insertion order of its literal. *)
Definition scores_of (feats : features) (avg_balance : spec_float)
    : list (str * spec_float) :=
  [ (u "Карта для путешествий", benefit_travel (TRAVEL_SPEND feats));
    (u "Премиальная карта",
       benefit_premium avg_balance (TOTAL_SPEND feats) (PREMIUM_SPEND feats)
         (ATM_CNT feats) (TRANSFER_CNT feats));
    (u "Кредитная карта",
       benefit_credit_card (FAV_SPEND_SUM feats) (ONLINE_SPEND feats));
    (u "Обмен валют", benefit_fx (FX_TURNOVER feats));
    (u "Кредит наличными",
       benefit_cash_loan (NEED_RATIO feats) (SHORTFALL feats));
    (u "Депозит мультивалютный",
       benefit_deposit_multi (FREE_BAL_3M feats) (FX_TURNOVER feats));
    (u "Депозит сберегательный (с «заморозкой»)",
       benefit_deposit_savings (FREE_BAL_3M feats));
    (u "Депозит накопительный", benefit_deposit_accum (FREE_BAL_3M feats));
    (u "Инвестиции (брокерский счёт)", benefit_invest (FREE_BAL_3M feats));
    (u "Золотые слитки", benefit_gold (FREE_BAL_3M feats)) ].

Section Ranking.
Context {B : Builtin}.

(** The whole ranking, of which [score_products] returns the first four. *)
Definition ranking (feats : features) (avg_balance : spec_float)
    : list (str * spec_float) :=
  py_sorted_reverse snd (scores_of feats avg_balance).

Definition score_products (feats : features) (avg_balance : spec_float)
    : option str * list (str * spec_float) * list (str * spec_float) :=
  let scores := scores_of feats avg_balance in
  let top4 := take 4 (py_sorted_reverse snd scores) in
  let best := match top4 with (p, _) :: _ => Some p | [] => None end in
  (best, top4, scores).

End Ranking.

End Scorer.

(** ** [src/utils.py] and [src/build_data.py]: normalisation of columns *)

Module Ingest.

Import Re Pandas PySort.

Definition NBSP : N := 0xA0%N.

Definition remove_char (c : N) (s : str) : str := replace_char c [] s.

(** The four [.str.replace] steps shared by [_parse_amount_series] and
    [_to_amount_safe]. *)
Definition clean_amount (raw : str) : str :=
  filter (fun c => amount_char c = true)
    (replace_char 0x2C%N (u ".") (remove_char 0x20%N (remove_char NBSP raw))).

(** Float means of boolean columns, [mask.mean()]: the number of [True]
    divided by the number of rows ([NaN] for an empty column). *)
Definition mean_bool (mask : list bool) : spec_float :=
  fdiv (of_int (Z.of_nat (length (filter (fun b => b = true) mask))))
       (of_int (Z.of_nat (length mask))).

Definition lit_0_5 : spec_float := Eval vm_compute in dec 5 1.
Definition lit_0_3 : spec_float := Eval vm_compute in dec 3 1.

(** Which [pd.to_datetime] calls a parser makes, in order. *)
Inductive call : Type := Unconstrained | DayFirst.

Definition isna {X : Type} (c : option X) : bool :=
  match c with None => true | Some _ => false end.

(** [<NA>]-aware conversion of a float to [Int64]: [NaN] becomes [<NA>];
    a value that is not an integer of the [int64] range makes
    [astype("Int64")] raise, here [None]. *)
Definition float_to_int64 (x : spec_float) : option (option Z) :=
  match x with
  | S754_nan => Some None
  | S754_zero _ => Some (Some 0)
  | S754_infinity _ => None
  | S754_finite s m e =>
      let v :=
        if 0 <=? e then Some (Zpos m * 2 ^ e)
        else if (Zpos m mod 2 ^ (- e) =? 0) then Some (Zpos m / 2 ^ (- e))
        else None in
      match v with
      | Some a =>
          let z := if s then - a else a in
          if (- 2 ^ 63 <=? z) && (z <? 2 ^ 63) then Some (Some z) else None
      | None => None
      end
  end.

Fixpoint sequence {X : Type} (l : list (option X)) : option (list X) :=
  match l with
  | [] => Some []
  | Some x :: l' =>
      match sequence l' with Some r => Some (x :: r) | None => None end
  | None :: _ => None
  end.

(** Raw rows, after the columns have been resolved: the cells that the
    normalisation rewrites are still text. *)
Record raw_tx : Type := {
  raw_tx_date : str;
  raw_tx_category : option str;
  raw_tx_amount : str;
  raw_tx_currency : option str;
  raw_tx_client : str
}.

Record raw_tr : Type := {
  raw_tr_date : str;
  raw_tr_type : option str;
  raw_tr_direction : option str;
  raw_tr_amount : str;
  raw_tr_currency : option str;
  raw_tr_client : str
}.

(** Canonical rows. *)
Record tx : Type := {
  date : option Z;
  category : option str;
  amount : spec_float;
  currency : option str;
  client_code : option Z
}.

Record tr : Type := {
  t_date : option Z;
  t_type : option str;
  t_direction : option str;
  t_amount : spec_float;
  t_currency : option str;
  t_client_code : option Z
}.

#[global] Instance spec_float_eq_dec : EqDecision spec_float.
Proof. solve_decision. Defined.
#[global] Instance tx_eq_dec : EqDecision tx.
Proof. solve_decision. Defined.
#[global] Instance tr_eq_dec : EqDecision tr.
Proof. solve_decision. Defined.

(** [df.dropna(subset=["client_code"])]. *)
Definition dropna_client {R : Type} (code : R -> option Z) (rows : list R)
    : list R :=
  filter (fun r => isna (code r) = false) rows.

(** The cells by which [drop_duplicates] tells the rows apart.  pandas
    compares the amounts as numbers, so that [-0.0] and [0.0] are the
    same amount. *)
Definition number_key (x : spec_float) : spec_float :=
  match x with
  | S754_zero _ => S754_zero false
  | _ => x
  end.

Definition tx_cells (r : tx) : tx :=
  {| date := date r; category := category r;
     amount := number_key (amount r); currency := currency r;
     client_code := client_code r |}.

Definition tr_cells (r : tr) : tr :=
  {| t_date := t_date r; t_type := t_type r; t_direction := t_direction r;
     t_amount := number_key (t_amount r); t_currency := t_currency r;
     t_client_code := t_client_code r |}.

(** [df.drop_duplicates(subset=...)] over all the columns of the part:
    the first of the rows with equal cells is kept. *)
Fixpoint drop_duplicates {R K : Type} `{EqDecision K} (cells : R -> K)
    (rows : list R) : list R :=
  match rows with
  | [] => []
  | r :: rest =>
      r :: filter (fun r' => cells r' <> cells r) (drop_duplicates cells rest)
  end.

(** Sort keys of [sort_values(["client_code", "date"], kind="mergesort")];
    missing values go last. *)
Definition opt_ltb (a b : option Z) : bool :=
  match a, b with
  | Some x, Some y => x <? y
  | Some _, None => true
  | None, _ => false
  end.

Definition key_ltb (a b : option Z * option Z) : bool :=
  opt_ltb (fst a) (fst b)
  || (bool_decide (fst a = fst b) && opt_ltb (snd a) (snd b)).

Section WithLib.
Context {P : Lib}.

(** [.fillna(0.0)] on one cell of the result of [pd.to_numeric]. *)
Definition fillna_zero (c : option spec_float) : spec_float :=
  match c with
  | Some x => if is_nan x then zero else x
  | None => zero
  end.

(** [_parse_amount_series] of [utils.py], one cell. *)
Definition _parse_amount (raw : str) : spec_float :=
  fillna_zero (to_numeric (clean_amount raw)).

Definition _parse_amount_series (s : list str) : list spec_float :=
  map _parse_amount s.

(** [_to_amount_safe] of [build_data.py]: the same steps. *)
Definition _to_amount_safe (s : list str) : list spec_float :=
  map (fun raw => fillna_zero (to_numeric (clean_amount raw))) s.

Context {T : Tables}.

(** [_to_datetime_safe] of [build_data.py], with the calls it makes. *)
Definition _to_datetime_safe (s : list str) : list call * list (option Z) :=
  let series := to_datetime false s in
  if fgt (mean_bool (map isna series)) lit_0_5
     && fgt (mean_bool (map contains_date s)) lit_0_3
  then ([Unconstrained; DayFirst], to_datetime true s)
  else ([Unconstrained], series).

(** [_parse_dates_series] of [utils.py], with the calls it makes. *)
Definition _parse_dates_series (s : list str) : list call * list (option Z) :=
  if fge (mean_bool (map contains_date s)) lit_0_5
  then ([DayFirst], to_datetime true s)
  else ([Unconstrained], to_datetime false s).

(** [_cast_client_code] and [_to_int64_nullable]:
    [pd.to_numeric(s, errors="coerce").astype("Int64")]. *)
Definition cast_cell (c : str) : option (option Z) :=
  match to_numeric c with
  | Some x => float_to_int64 x
  | None => Some None
  end.

Definition _cast_client_code (s : list str) : option (list (option Z)) :=
  sequence (map cast_cell s).

Definition _to_int64_nullable (s : list str) : option (list (option Z)) :=
  sequence (map cast_cell s).

(** The transactions branch of the loop body of [build_data.main] for one
    file: normalise, rename, select, drop the rows without a client. *)
Definition tx_part (df : list raw_tx) : option (list tx) :=
  let dates := snd (_to_datetime_safe (map raw_tx_date df)) in
  let amounts := _to_amount_safe (map raw_tx_amount df) in
  match _cast_client_code (map raw_tx_client df) with
  | None => None
  | Some cids =>
      let rows :=
        zip_with (fun r '(d, a, c) =>
            {| date := d; category := raw_tx_category r; amount := a;
               currency := raw_tx_currency r; client_code := c |})
          df (zip (zip dates amounts) cids) in
      Some (dropna_client client_code rows)
  end.

Definition tr_part (df : list raw_tr) : option (list tr) :=
  let dates := snd (_to_datetime_safe (map raw_tr_date df)) in
  let amounts := _to_amount_safe (map raw_tr_amount df) in
  match _cast_client_code (map raw_tr_client df) with
  | None => None
  | Some cids =>
      let rows :=
        zip_with (fun r '(d, a, c) =>
            {| t_date := d; t_type := raw_tr_type r;
               t_direction := raw_tr_direction r; t_amount := a;
               t_currency := raw_tr_currency r; t_client_code := c |})
          df (zip (zip dates amounts) cids) in
      Some (dropna_client t_client_code rows)
  end.

(** The tables written by [build_data.main] from the recognised files:
    concatenate the parts, drop duplicates, sort by client and date. *)
Definition main_transactions (files : list (list raw_tx)) : option (list tx) :=
  match sequence (map tx_part files) with
  | None => None
  | Some parts =>
      Some (sorted_asc (fun r => (client_code r, date r)) key_ltb
              (drop_duplicates tx_cells (concat parts)))
  end.

Definition main_transfers (files : list (list raw_tr)) : option (list tr) :=
  match sequence (map tr_part files) with
  | None => None
  | Some parts =>
      Some (sorted_asc (fun r => (t_client_code r, t_date r)) key_ltb
              (drop_duplicates tr_cells (concat parts)))
  end.

(** The type conversions of [read_data] on the two event tables. *)
Definition read_data_tx (df : list raw_tx) : option (list tx) :=
  let dates := snd (_parse_dates_series (map raw_tx_date df)) in
  let amounts := _parse_amount_series (map raw_tx_amount df) in
  match _to_int64_nullable (map raw_tx_client df) with
  | None => None
  | Some cids =>
      Some (zip_with (fun r '(d, a, c) =>
                {| date := d; category := raw_tx_category r; amount := a;
                   currency := raw_tx_currency r; client_code := c |})
              df (zip (zip dates amounts) cids))
  end.

Definition read_data_tr (df : list raw_tr) : option (list tr) :=
  let dates := snd (_parse_dates_series (map raw_tr_date df)) in
  let amounts := _parse_amount_series (map raw_tr_amount df) in
  match _to_int64_nullable (map raw_tr_client df) with
  | None => None
  | Some cids =>
      Some (zip_with (fun r '(d, a, c) =>
                {| t_date := d; t_type := raw_tr_type r;
                   t_direction := raw_tr_direction r; t_amount := a;
                   t_currency := raw_tr_currency r; t_client_code := c |})
              df (zip (zip dates amounts) cids))
  end.

End WithLib.

End Ingest.

(** ** [src/utils.py]: the anti-spam gate *)

Module AntiSpam.

Import Re.

(** [_last_sent]: client code to [(ts, last_cta, last_product)].  The
    clock value [time.time()], a [float], is an input of each call. *)
Record sent : Type := {
  ts : spec_float;
  last_cta : str;
  last_product : str
}.

Section Gate.
Context {T : Tables}.

Definition norm_cta (cta : str) : str := lower (strip cta).

(** [can_send(client_code, cta, product, min_hours)] called when the
    clock shows [now], on the cache [m]: the answer and the cache
    afterwards.  [now - ts] is the subtraction of two floats, compared
    with the [int] [min_hours * 3600]. *)
Definition can_send (now : spec_float) (m : gmap Z sent) (client_code_ : Z)
    (cta product : str) (min_hours : Z) : bool * gmap Z sent :=
  match m !! client_code_ with
  | None =>
      (true, <[client_code_ := {| ts := now; last_cta := cta;
                                  last_product := product |}]> m)
  | Some last =>
      if float_lt_int (fsub now (ts last)) (min_hours * 3600) then
        (false, m)
      else if bool_decide (norm_cta cta = norm_cta (last_cta last)) then
        (false, m)
      else
        (true, <[client_code_ := {| ts := now; last_cta := cta;
                                    last_product := product |}]> m)
  end.

(** One call of a run of the process. *)
Record request : Type := {
  at_time : spec_float;
  who : Z;
  req_cta : str;
  req_product : str;
  req_min_hours : Z
}.

(** The answers of a sequence of calls, starting from the cache [m]. *)
Fixpoint run (m : gmap Z sent) (calls : list request) : list bool :=
  match calls with
  | [] => []
  | c :: rest =>
      let '(ok, m') :=
        can_send (at_time c) m (who c) (req_cta c) (req_product c)
          (req_min_hours c) in
      ok :: run m' rest
  end.

(** The cache after a sequence of calls. *)
Fixpoint exec (m : gmap Z sent) (calls : list request) : gmap Z sent :=
  match calls with
  | [] => m
  | c :: rest =>
      exec (snd (can_send (at_time c) m (who c) (req_cta c) (req_product c)
                   (req_min_hours c))) rest
  end.

End Gate.

(** Every call reads a positive number off the clock. *)
Definition clock_readings (calls : list request) : Prop :=
  Forall (fun c => reading (at_time c) = true) calls.

(** The clock does not run backwards along the calls. *)
Definition clock_monotone (calls : list request) : Prop :=
  StronglySorted (fun a b => (to_Q (at_time a) <= to_Q (at_time b))%Q) calls.

End AntiSpam.


(** ** Vocabulary of the statements *)

Module Props.

Import Scorer.

(** The numeric inputs of the scorer are non-negative, the two counts
    being [int64] values. *)
Definition nonneg_inputs (feats : features) (avg_balance : spec_float) : Prop :=
  fge (TRAVEL_SPEND feats) zero = true
  /\ fge (PREMIUM_SPEND feats) zero = true
  /\ fge (ONLINE_SPEND feats) zero = true
  /\ fge (TOTAL_SPEND feats) zero = true
  /\ fge (FAV_SPEND_SUM feats) zero = true
  /\ 0 <= ATM_CNT feats < 2 ^ 63
  /\ 0 <= TRANSFER_CNT feats < 2 ^ 63
  /\ fge (SHORTFALL feats) zero = true
  /\ fge (FX_TURNOVER feats) zero = true
  /\ fge (FREE_BAL_3M feats) zero = true
  /\ fge avg_balance zero = true.

(** Every numeric feature that a formula multiplies is a number (not
    NaN), the two counts being [int64] values. *)
Definition numeric_inputs (feats : features) : Prop :=
  is_nan (TRAVEL_SPEND feats) = false
  /\ is_nan (PREMIUM_SPEND feats) = false
  /\ is_nan (ONLINE_SPEND feats) = false
  /\ is_nan (TOTAL_SPEND feats) = false
  /\ is_nan (FAV_SPEND_SUM feats) = false
  /\ - 2 ^ 63 <= ATM_CNT feats < 2 ^ 63
  /\ - 2 ^ 63 <= TRANSFER_CNT feats < 2 ^ 63
  /\ is_nan (FX_TURNOVER feats) = false
  /\ is_nan (FREE_BAL_3M feats) = false.

(** [a] occurs before [b] in [l]. *)
Definition before {X : Type} (l : list X) (a b : X) : Prop :=
  exists l1 l2 l3, l = l1 ++ a :: l2 ++ b :: l3.

End Props.

(** ** Sample inputs *)

Module Samples.

Import Scorer.

(** A client with 50 000 of travel spend in the month and an average
    balance of 2 500 000. *)
Definition traveller : features := {|
  TOTAL_SPEND := dec 80000 0;
  TRAVEL_SPEND := dec 50000 0;
  PREMIUM_SPEND := dec 0 0;
  ONLINE_SPEND := dec 12500 0;
  FAV_SPEND_SUM := dec 70000 0;
  ATM_CNT := 2;
  TRANSFER_CNT := 3;
  NEED_RATIO := dec 8 1;
  SHORTFALL := dec 0 0;
  FX_TURNOVER := dec 0 0;
  FREE_BAL_3M := dec 625000 0;
  FAV_CATS := [Some (u "Такси"); Some (u "Отели"); Some (u "Едим дома")]
|}.

Definition traveller_balance : spec_float := dec 2500000 0.

(** The same client with a currency turnover that is not a number. *)
Definition nan_turnover : features := {|
  TOTAL_SPEND := dec 80000 0;
  TRAVEL_SPEND := dec 50000 0;
  PREMIUM_SPEND := dec 0 0;
  ONLINE_SPEND := dec 12500 0;
  FAV_SPEND_SUM := dec 70000 0;
  ATM_CNT := 2;
  TRANSFER_CNT := 3;
  NEED_RATIO := dec 8 1;
  SHORTFALL := dec 0 0;
  FX_TURNOVER := S754_nan;
  FREE_BAL_3M := dec 625000 0;
  FAV_CATS := [Some (u "Такси"); Some (u "Отели"); Some (u "Едим дома")]
|}.

End Samples.

Module FeatureSamples.

Import Scorer Pandas.

(** One purchase and one transfer of January 2024, looked at through the
    window of March 2024 (nanoseconds since 1970). *)
Definition jan_15 : Z := 1705276800000000000.
Definition march : Z * Z := (1709251200000000000, 1711929600000000000).

Definition old_purchase : tx_row :=
  {| tx_date := Some jan_15; tx_category := Some (u "Такси");
     tx_amount := dec 1500 0 |}.

Definition old_transfer : tr_row :=
  {| tr_date := Some jan_15; tr_type := Some (u "atm_withdrawal");
     tr_direction := Some (u "out"); tr_amount := dec 20000 0 |}.

End FeatureSamples.

(** ** Vocabulary of the statements on the renderer *)

Module PushProps.

Import Re Pushgen.

Local Open Scope N_scope.

(** A Cyrillic letter of [U+0410..U+044F]. *)
Definition cyr (c : N) : bool := (0x410 <=? c) && (c <=? 0x44F).

(** The phrase begins with one of the words of [_CTA_RE], and the word is
    followed by a space or ends the phrase. *)
Definition begins_with_cta_word (cta : str) : bool :=
  existsb (fun w =>
             startswith cta w
             && match drop (length w) cta with
                | [] => true
                | c :: _ => c =? 0x20
                end) CTA_WORDS.

(** Every phrase that [ensure_cta] can append: the pools and the phrase
    of the [except] branch. *)
Definition cta_fallback : str := Eval vm_compute in u "Оформить сейчас".

Definition every_cta : list str :=
  concat (map snd cta_pools) ++ cta_default ++ [cta_fallback].

Section Paths.
Context {T : Tables}.

(** The text that [_smart_clamp] works on. *)
Definition cleaned (text : str) : str := collapse_bangs (strip text).

(** The branch that [_smart_clamp] takes: the text fits; or the tail of
    the CTA match starting at [start] is kept and the head is cut; or
    there is no CTA.  In the last two, [stop] is the index of the
    sentence end at which the [for] loop breaks, [None] when the loop
    runs to its end and the ellipsis branch is taken. *)
Inductive clamp_path : Type :=
  | Fits
  | KeepsCta (start : nat) (stop : option Z)
  | NoCta (stop : option Z).

Definition clamp_path_of (text : str) (max_len : Z) : clamp_path :=
  let t := cleaned text in
  if (len t <=? max_len)%Z then Fits
  else
    match last (cta_finditer t) with
    | Some (start, _) =>
        let tail := cta_tail t start in
        let head_budget := Z.max (max_len - len tail - 1) 0 in
        KeepsCta start
          (first_stop STOPS (slice_to t head_budget) (head_budget - 40))
    | None => NoCta (first_stop STOPS (slice_to t max_len) (max_len - 40))
    end.


End Paths.

(** Number of [!] in a text, [text.count("!")]. *)
Definition count_bang (s : str) : nat :=
  length (filter (fun c => c = 0x21) s).

End PushProps.

Module PushSamples.

Import Re Pushgen.

(** The context that [_build_ctx_map] builds for a client without
    events: every amount is [0 ₸], no favourite category, no benefit. *)
Definition empty_ctx : ctx := {|
  benefit_num := Some zero;
  benefit := Some (u "0 ₸");
  travel_sum := Some (u "0 ₸");
  premium_sum := Some (u "0 ₸");
  online_sum := Some (u "0 ₸");
  top3_names := Some [];
  fav := Some (u "-");
  atm_cnt := Some 0;
  transfer_cnt := Some 0
|}.

Definition student_in (city_ : str) : demo :=
  {| status := Some (u "Студент"); city := Some city_ |}.

(** A message of 216 characters that ends with its CTA. *)
Definition long_message : str :=
  u "Айгерим, если часто в Алматы пользуетесь сервисами и такси — есть выгоднее. С вашим остатком и тратами в ресторанах/косметике (0 ₸) выгода выше. Базовый кешбэк и повышенный — на рестораны/косметику.. Оформить сейчас.".

(** A text of exactly 221 characters that ends with a CTA. *)
Definition text_221 : str :=
  u "Айгерим, смотрим на последние траты и подбираем лучший продукт. С вашим остатком и тратами в ресторанах/косметике выгода выше. Повышенный кешбэк и экономия на комиссиях за переводы и снятия наличных сумм. Оформить сейчас.".


(** 211 letters without a space, then a CTA. *)
Definition unbroken_then_cta : str := repeat 0x61%N 211 ++ u " Оформить сейчас".

End PushSamples.

(** ** Vocabulary of the statements on ingestion *)

Module IngestProps.

Import Re Pandas Ingest.

Local Open Scope N_scope.

(** What the amount cleaning does to one character, in the words of the
    specification: a non-breaking or an ordinary space disappears, a
    comma becomes a point, a digit, a point or a minus sign stays, and
    anything else disappears. *)
Definition spec_clean_char (c : N) : str :=
  if c =? 0xA0 then []
  else if c =? 0x20 then []
  else if c =? 0x2C then [0x2E]
  else if amount_char c then [c]
  else [].

(** Text without a minus sign never converts to a negative number. *)
Definition unsigned_is_nonneg (P : Lib) : Prop :=
  forall s x, to_numeric s = Some x -> 0x2D ∉ s -> is_nan x = false -> nn x.

(** 2 January 2023 and 1 February 2023, in nanoseconds since 1970. *)
Definition jan_2_2023 : Z := Eval vm_compute in (days_from_civil 2023 1 2 * 86400000000000)%Z.
Definition feb_1_2023 : Z := Eval vm_compute in (days_from_civil 2023 2 1 * 86400000000000)%Z.

(** Two purchases as [read_csv] delivers them; the second has no usable
    client identifier. *)
Definition purchase_of (client : str) : raw_tx :=
  {| raw_tx_date := u "01.02.2023"; raw_tx_category := Some (u "Такси");
     raw_tx_amount := u "1 500,50"; raw_tx_currency := Some (u "KZT");
     raw_tx_client := client |}.

Definition two_purchases : list raw_tx := [purchase_of (u "7"); purchase_of (u "abc")].

End IngestProps.

Module SpamSamples.

Import AntiSpam.

(** Three calls for client 7: at the clock value 1 700 000 000, one
    hour later with another CTA, and three days later with the first
    CTA in capitals. *)
Definition first_call : request :=
  {| at_time := dec 1700000000 0; who := 7; req_cta := u "Оформить сейчас";
     req_product := u "Премиальная карта"; req_min_hours := 48 |}.

Definition hour_later : request :=
  {| at_time := dec 1700003600 0; who := 7; req_cta := u "Посмотреть";
     req_product := u "Кредитная карта"; req_min_hours := 48 |}.

Definition three_days_later : request :=
  {| at_time := dec 1700259200 0; who := 7; req_cta := u " ОФОРМИТЬ СЕЙЧАС ";
     req_product := u "Премиальная карта"; req_min_hours := 48 |}.

(** Two calls for client 7 with a clock that starts at the epoch: at
    [1e-12] and at [172800.0], less than 48 hours later. *)
Definition at_the_epoch : request :=
  {| at_time := dec 1 12; who := 7; req_cta := u "Оформить сейчас";
     req_product := u "Премиальная карта"; req_min_hours := 48 |}.

Definition two_days_on : request :=
  {| at_time := dec 172800 0; who := 7; req_cta := u "Посмотреть";
     req_product := u "Кредитная карта"; req_min_hours := 48 |}.

End SpamSamples.

(** ** Further vocabulary for the renderer *)

Module PushProps2.

Import Re Pushgen.

Local Open Scope N_scope.

(** The text holds two [!] side by side. *)
Fixpoint double_bang (s : str) : bool :=
  match s with
  | c :: s' =>
      match s' with
      | d :: _ => ((c =? 0x21) && (d =? 0x21)) || double_bang s'
      | [] => false
      end
  | [] => false
  end.

(** A code point that UTF-8 can encode: a Unicode scalar value. *)
Definition scalar (c : N) : bool :=
  (c <? 0xD800) || ((0xE000 <=? c) && (c <? 0x110000)).

(** Text that [str.encode("utf-8")] accepts. *)
Definition encodable (s : str) : Prop := Forall (fun c => scalar c = true) s.

Definition encodable_opt (o : option str) : Prop :=
  match o with Some s => encodable s | None => True end.

Definition demo_encodable (d : option demo) : Prop :=
  match d with
  | Some d => encodable_opt (status d) /\ encodable_opt (city d)
  | None => True
  end.

(** No [!] in the text. *)
Definition no_bang (s : str) : bool := forallb (fun c => negb (c =? 0x21)) s.

End PushProps2.

(** ** Reading CSV files: [src/utils.py] and [src/build_data.py] *)

Module Csv.

Import Re.

(** The candidate delimiters [",", ";", "\t", "|"], in the order of the
    list literal. *)
Definition DELIMS : list N := [0x2C; 0x3B; 0x09; 0x7C]%N.

(** [sample_text.count(d)] for a one-character [d]. *)
Definition count (d : N) (s : str) : Z :=
  Z.of_nat (length (filter (fun c => c = d) s)).

(** [max(xs, key=f)] continued from the current best element: a later
    element replaces it only with a strictly greater key. *)
Fixpoint max_by {X : Type} (f : X -> Z) (best : X) (rest : list X) : X :=
  match rest with
  | [] => best
  | x :: r => if f best <? f x then max_by f x r else max_by f best r
  end.

Section Sniffed.

(** [csv.Sniffer().sniff(sample, delimiters=...)]: the delimiter of the
    dialect found, [None] when the call raises. *)
Variable sniff : str -> option N.

(** [_detect_delimiter] of [utils.py]; [detect_delimiter] of
    [build_data.py] has the same body. *)
Definition _detect_delimiter (sample_text : str) : N :=
  match sniff sample_text with
  | Some d => d
  | None =>
      let delim :=
        match DELIMS with
        | d0 :: ds => max_by (fun d => count d sample_text) d0 ds
        | [] => 0x2C%N
        end in
      if 0 <? count delim sample_text then delim else 0x2C%N
  end.

Definition detect_delimiter : str -> N := _detect_delimiter.

(** The delimiter that [read_csv_smart] of [build_data.py] passes to
    [pd.read_csv]: detected on the first 4096 characters, an empty file
    being sampled as [","]. *)
Definition build_data_delimiter (content : str) : N :=
  let sample := match slice_to content 4096 with [] => u "," | s => s end in
  detect_delimiter sample.

(** The one of [_read_csv_smart] of [utils.py]. *)
Definition utils_delimiter (content : str) : N :=
  _detect_delimiter (slice_to content 4096).

End Sniffed.

(** A data frame as its columns in order: the name and the cells, [None]
    for a missing value. *)
Definition frame : Type := list (str * list (option str)).

Definition columns (df : frame) : list str := map fst df.

(** [name in df.columns] *)
Definition has_col (df : frame) (name : str) : bool :=
  existsb (fun n => str_eqb n name) (columns df).

(** [df[name]]: the columns of that name.  One column is a [Series];
    several columns of the same name are a [DataFrame]. *)
Definition columns_named (df : frame) (name : str) : list (list (option str)) :=
  map snd (filter (fun col => fst col = name) df).

(** [len(df)] *)
Definition nrows (df : frame) : nat :=
  match df with
  | (_, cells) :: _ => length cells
  | [] => O
  end.

(** [series.notna().sum()] *)
Definition notna_sum (cells : list (option str)) : Z :=
  Z.of_nat (length (filter (fun c => is_Some c) cells)).

Section Headers.
Context {T : Tables}.

(** One column name through [.str.strip().str.lower()
    .str.replace(" ", "_").str.replace("-", "_")]. *)
Definition normalize_name (name : str) : str :=
  replace_char 0x2D%N (u "_")
    (replace_char 0x20%N (u "_") (lower (strip name))).

(** [_normalize_columns] of [utils.py] and [_normalize_headers] of
    [build_data.py]. *)
Definition _normalize_columns (df : frame) : frame :=
  map (fun col => (normalize_name (fst col), snd col)) df.

Definition _normalize_headers : frame -> frame := _normalize_columns.

End Headers.

Inductive error : Type := KeyError | IndexError.

(** [_coalesce_col] of [utils.py] and [coalesce_col] of [build_data.py]:
    the name returned and the frame as the call leaves it. *)
Definition _coalesce_col (df : frame) (candidates : list str)
    (required : bool) (default_val : option str) : error + (str * frame) :=
  match List.find (has_col df) candidates with
  | Some c => inr (c, df)
  | None =>
      if required then inl KeyError
      else
        match candidates with
        | [] => inl IndexError
        | name :: _ =>
            inr (name, df ++ [(name, repeat default_val (nrows df))])
        end
  end.

Definition coalesce_col := _coalesce_col.

(** [df[name].notna().sum()]: a number for a [Series], one number per
    column (a [Series] of numbers) for a [DataFrame]. *)
Inductive counted : Type :=
  | Number (n : Z)
  | PerColumn (ns : list Z).

Definition notna_sums (df : frame) (name : str) : counted :=
  match columns_named df name with
  | [cells] => Number (notna_sum cells)
  | cols => PerColumn (map notna_sum cols)
  end.

(** [detect_table_kind] of [build_data.py]; [None] is the [ValueError]
    that [if ... and ...] raises on a comparison whose result is a
    [Series] and not a truth value. *)
Definition detect_table_kind (df : frame) : option (bool * bool) :=
  let is_tx :=
    has_col df (u "category") && negb (has_col df (u "direction")) in
  let is_tr := has_col df (u "type") && has_col df (u "direction") in
  if is_tx || is_tr then Some (is_tx, is_tr)
  else
    let cat_nonnull :=
      if has_col df (u "category") then notna_sums df (u "category")
      else Number 0 in
    let type_has := has_col df (u "type") && has_col df (u "direction") in
    let type_nonnull :=
      if type_has then notna_sums df (u "type") else Number 0 in
    match cat_nonnull, type_nonnull with
    | Number c, Number t =>
        if (t <=? c) && has_col df (u "category")
        then Some (true, false)
        else if type_has then Some (false, true)
        else Some (false, false)
    | _, _ => None
    end.

(** What the loop of [build_data.main] does with a file; the call of
    [detect_table_kind] is outside the [try], so its exception ends the
    run. *)
Inductive kind : Type := Transactions | Transfers | Skipped.

Definition kind_of (df : frame) : option kind :=
  match detect_table_kind df with
  | Some (is_transactions, is_transfers) =>
      Some (if is_transactions then Transactions
            else if is_transfers then Transfers
            else Skipped)
  | None => None
  end.

(** The table has more than one column of that name. *)
Definition repeated (df : frame) (name : str) : bool :=
  (1 <? length (columns_named df name))%nat.

(** The first occurrence of [x] in [l] is at the end of [pre]. *)
Definition first_at {X : Type} (l pre : list X) (x : X) : Prop :=
  exists post, l = pre ++ x :: post /\ x ∉ pre.

End Csv.

(** ** Vocabulary for the batch tables *)

Module BatchProps.

Import Ingest.

(** The row [a] may stand before the row [b] in a table sorted by
    [(client_code, date)], missing values last: the key of [b] is not
    smaller. *)
Definition key_le {R : Type} (key : R -> option Z * option Z) (a b : R) : Prop :=
  key_ltb (key b) (key a) = false.

Definition tx_key (r : tx) : option Z * option Z := (client_code r, date r).
Definition tr_key (r : tr) : option Z * option Z := (t_client_code r, t_date r).

End BatchProps.

(** ** Vocabulary for the features *)

Module FeatureProps.

Import Pandas Scorer.

(** [Series.sum()] of numbers that are not below zero is not below zero
    (and not NaN). *)
Definition sum_nonneg (P : Lib) : Prop :=
  forall l, Forall nn l -> nn (fsum l).

(** A purchase and two transfers of 15 March 2024. *)
Definition march_15 : Z := 1710460800000000000.

Definition march_purchase (cat : str) (amount : spec_float) : tx_row :=
  {| tx_date := Some march_15; tx_category := Some cat; tx_amount := amount |}.

Definition march_transfer (type direction : str) (amount : spec_float) : tr_row :=
  {| tr_date := Some march_15; tr_type := Some type;
     tr_direction := Some direction; tr_amount := amount |}.

Definition march_purchases : list tx_row :=
  [ march_purchase (u "Такси") (dec 1500 0);
    march_purchase (u "Отели") (dec 42000 0);
    march_purchase (u "Такси") (dec 2300 0);
    march_purchase (u "Едим дома") (dec 900 0);
    march_purchase (u "Кино") (dec 700 0) ].

Definition march_transfers : list tr_row :=
  [ march_transfer (u "salary_in") (u "in") (dec 300000 0);
    march_transfer (u "atm_withdrawal") (u "out") (dec 20000 0);
    march_transfer (u "p2p_out") (u "out") (dec 15000 0) ].

End FeatureProps.

(** ** Vocabulary for the anti-spam gate *)

Module SpamProps.

Import AntiSpam.

(** The calls made for the client [c], in order. *)
Definition calls_of (c : Z) (calls : list request) : list request :=
  filter (fun k => who k = c) calls.

(** Of the answers to [calls], those given to the client [c]. *)
Definition answers_for (c : Z) (calls : list request) (answers : list bool)
    : list bool :=
  map snd (filter (fun p => who (fst p) = c) (zip calls answers)).

(** A call for another client, between the calls of the samples. *)
Definition other_client : request :=
  {| at_time := dec 1700001800 0; who := 8; req_cta := u "Открыть счёт";
     req_product := u "Инвестиции"; req_min_hours := 48 |}.

End SpamProps.

(** ** The checks of the pushes: [src/pipeline_llm.py] and
    [src/metrics.py] *)

Module Validate.

Import Re Pushgen.

Definition MAX_PUSH_LEN : Z := 220.

(** The entries that [_push_ok] appends to [issues]: "пустой текст",
    "длина n > 220", "больше одного '!'" and "нет явного CTA ...". *)
Inductive issue : Type :=
  | EmptyText
  | TooLong (n : Z)
  | ManyBangs
  | NoCta.

#[global] Instance issue_eq_dec : EqDecision issue.
Proof. solve_decision. Defined.

(** The words of the pattern of [_push_ok]:
    [(Открыть|Оформить|Подключить|Подключите|Посмотреть|Настроить)\b]. *)
Definition PUSH_OK_WORDS : list str := Eval vm_compute in
  [ u "Открыть"; u "Оформить"; u "Подключить"; u "Подключите";
    u "Посмотреть"; u "Настроить" ].

(** [text.count("!")] *)
Definition count_char (c : N) (s : str) : Z :=
  Z.of_nat (length (filter (fun x => x = c) s)).

Section Checks.
Context {T : Tables}.

(** [re.search] of a pattern that is tried at every position. *)
Fixpoint search_from (m : option N -> str -> bool) (prev : option N) (s : str)
    : bool :=
  m prev s
  || match s with
     | c :: s' => search_from m (Some c) s'
     | [] => false
     end.

Definition push_ok_cta_at (prev : option N) (s : str) : bool :=
  bool_decide (is_Some (alt_then_boundary PUSH_OK_WORDS prev s)).

(** [_push_ok(text)]; [None] is a value that is not a [str]. *)
Definition _push_ok (text : option str) : bool * list issue :=
  match text with
  | None => (false, [EmptyText])
  | Some text =>
      if bool_decide (strip text = []) then (false, [EmptyText])
      else
        let issues :=
          (if MAX_PUSH_LEN <? len text then [TooLong (len text)] else [])
          ++ (if 1 <? count_char 0x21%N text then [ManyBangs] else [])
          ++ (if search_from push_ok_cta_at None text then [] else [NoCta]) in
        (bool_decide (length issues = 0%nat), issues)
  end.

(** The text at the head of [s] begins with the word [w], case
    ignored. *)
Definition begins_ci (w s : str) : bool :=
  bool_decide (is_Some (ilit w s None)).

(** *** [CTA_RE] of [metrics.py] *)

(** The alternatives of [CTA_RE]: a word and the continuations that the
    optional group [(?:\s+(?:...))?] allows after white space; [сч[её]т]
    is spelled out as its two readings. *)
Definition METRICS_ALTS : list (str * list str) := Eval vm_compute in
  [ (u "Открыть", [u "счет"; u "счёт"; u "вклад"]);
    (u "Оформить", [u "карту"; u "сейчас"]);
    (u "Подключить", []);
    (u "Подключите", []);
    (u "Посмотреть", [u "условия"]);
    (u "Настроить", [u "обмен"]);
    (u "Узнать", [u "лимит"]) ].

(** [\s+(?:e1|e2|...)\b] after [n] characters already consumed: white
    space is taken greedily and given back one character at a time; the
    result is the length consumed in all. *)
Fixpoint spaces_then (exts : list str) (prev : option N) (s : str) (n : nat)
    : option nat :=
  match s with
  | c :: s' =>
      if is_space c then
        match spaces_then exts (Some c) s' (S n) with
        | Some r => Some r
        | None =>
            match alt_then_boundary exts (Some c) s' with
            | Some k => Some (S n + k)%nat
            | None => None
            end
        end
      else None
  | [] => None
  end.

(** One alternative followed by [\b]: with the optional group if that
    leads to a match, else without it. *)
Definition metrics_alt (alt : str * list str) (prev : option N) (s : str)
    : option nat :=
  match ilit (fst alt) s prev with
  | Some (last, rest) =>
      match spaces_then (snd alt) last rest (length (fst alt)) with
      | Some r => Some r
      | None =>
          if boundary last (head rest) then Some (length (fst alt)) else None
      end
  | None => None
  end.

Fixpoint first_alt (alts : list (str * list str)) (prev : option N) (s : str)
    : option nat :=
  match alts with
  | [] => None
  | alt :: alts' =>
      match metrics_alt alt prev s with
      | Some r => Some r
      | None => first_alt alts' prev s
      end
  end.

(** [CTA_RE] tried at the head of [s]: the length of the match. *)
Definition metrics_match_at (prev : option N) (s : str) : option nat :=
  if boundary prev (head s) then first_alt METRICS_ALTS prev s else None.

(** [CTA_RE.search(text)]: the leftmost match as [(start, length)]. *)
Fixpoint metrics_search_from (prev : option N) (s : str) (pos : nat)
    : option (nat * nat) :=
  match metrics_match_at prev s with
  | Some n => Some (pos, n)
  | None =>
      match s with
      | c :: s' => metrics_search_from (Some c) s' (S pos)
      | [] => None
      end
  end.

Definition metrics_search (text : str) : option (nat * nat) :=
  metrics_search_from None text 0.

(** One row of [push_length_stats]: [length], [has_cta],
    [in_range_180_220] and [cta_text]. *)
Record push_stats : Type := {
  length_ : Z;
  has_cta : bool;
  in_range_180_220 : bool;
  cta_text : str
}.

Definition push_length_stats_row (text : str) : push_stats :=
  {| length_ := len text;
     has_cta := bool_decide (is_Some (metrics_search text));
     in_range_180_220 := (180 <=? len text) && (len text <=? 220);
     cta_text :=
       match metrics_search text with
       | Some (start, n) => take n (drop start text)
       | None => []
       end |}.

Definition push_length_stats (texts : list str) : list push_stats :=
  map push_length_stats_row texts.

End Checks.

End Validate.

(** ** Amounts as text: [kzt] of [src/utils.py] *)

Module Text.

Import Ingest.

(** [round(x)] of a float, to the nearest integer with ties to the even
    one; [None] when it raises ([ValueError] for NaN, [OverflowError]
    for an infinity). *)
Definition py_round (x : spec_float) : option Z :=
  match x with
  | S754_nan | S754_infinity _ => None
  | S754_zero _ => Some 0
  | S754_finite s m e =>
      let a :=
        if 0 <=? e then Zpos m * 2 ^ e
        else
          let q := Zpos m / 2 ^ (- e) in
          let r := Zpos m mod 2 ^ (- e) in
          let half := 2 ^ (- e - 1) in
          if half <? r then q + 1
          else if r <? half then q
          else if Z.even q then q else q + 1 in
      Some (if s then - a else a)
  end.

(** [int(x)] of a float: toward zero; [None] when it raises. *)
Definition py_int (x : spec_float) : option Z :=
  match x with
  | S754_nan | S754_infinity _ => None
  | S754_zero _ => Some 0
  | S754_finite s m e =>
      let a := if 0 <=? e then Zpos m * 2 ^ e else Zpos m / 2 ^ (- e) in
      Some (if s then - a else a)
  end.

(** The digits of a number from the last to the first, a comma after
    every third; [k] digits of the current group are out. *)
Fixpoint commas_rev (r : str) (k : nat) : str :=
  match r with
  | [] => []
  | d :: r' =>
      if Nat.eqb k 3 then 0x2C%N :: d :: commas_rev r' 1
      else d :: commas_rev r' (S k)
  end.

(** [f"{val:,}"] of an [int]. *)
Definition format_comma (val : Z) : str :=
  (if val <? 0 then [0x2D%N] else [])
  ++ rev (commas_rev (rev (str_of_N (Z.to_N (Z.abs val)))) 0).

Definition kzt (x : spec_float) : str :=
  let val := match py_round x with Some v => v | None => 0 end in
  replace_char NBSP (u " ") (replace_char 0x2C%N (u " ") (format_comma val))
  ++ u " ₸".

(** A digit or a minus sign. *)
Definition digit_or_minus (c : N) : bool :=
  ((0x30 <=? c) && (c <=? 0x39))%N || (c =? 0x2D)%N.

End Text.

(** ** The window of the last month: [last_month_span] and [month_word]
    of [src/utils.py] *)

Module Calendar.

Import Pandas.

Definition NS_PER_DAY : Z := 86400000000000.

(** [pd.Timestamp.min] and [pd.Timestamp.max], in nanoseconds since
    1970; the value below [TS_MIN] is [NaT]. *)
Definition TS_MIN : Z := - 2 ^ 63 + 1.
Definition TS_MAX : Z := 2 ^ 63 - 1.

(** Year, month and day of the day number [z] counted from 1970-01-01,
    in the proleptic Gregorian calendar. *)
Definition civil_from_days (z : Z) : Z * Z * Z :=
  let z := z + 719468 in
  let era := z / 146097 in
  let doe := z - era * 146097 in
  let yoe := (doe - doe / 1460 + doe / 36524 - doe / 146096) / 365 in
  let y := yoe + era * 400 in
  let doy := doe - (365 * yoe + yoe / 4 - yoe / 100) in
  let mp := (5 * doy + 2) / 153 in
  let d := doy - (153 * mp + 2) / 5 + 1 in
  let m := if mp <? 10 then mp + 3 else mp - 9 in
  (if m <=? 2 then y + 1 else y, m, d).

(** [ts.year], [ts.month], [ts.day] of a time stamp. *)
Definition fields (ts : Z) : Z * Z * Z := civil_from_days (ts / NS_PER_DAY).

(** [ts.replace(year=y, month=m, day=d)]: the time of day is kept;
    [None] when the result is out of the range of time stamps
    ([OutOfBoundsDatetime]). *)
Definition replace_ymd (ts y m d : Z) : option Z :=
  let r := days_from_civil y m d * NS_PER_DAY + ts mod NS_PER_DAY in
  if (TS_MIN <=? r) && (r <=? TS_MAX) then Some r else None.

(** [last_month_span(dates)]; the outer [None] is the exception of a
    [replace] that leaves the range of time stamps. *)
Definition last_month_span (dates : list (option Z))
    : option (option Z * option Z) :=
  match omap id dates with
  | [] => Some (None, None)
  | t :: rest =>
      let last_date := foldr Z.max t rest in
      let '(y, m, _) := fields last_date in
      match replace_ymd last_date y m 1 with
      | None => None
      | Some start =>
          let '(sy, sm, _) := fields start in
          let next :=
            if sm =? 12 then replace_ymd start (sy + 1) 1 1
            else replace_ymd start sy (sm + 1) 1 in
          match next with
          | None => None
          | Some next_start => Some (Some start, Some next_start)
          end
      end
  end.

Definition RU_MONTHS : list (Z * str) := Eval vm_compute in
  [ (1, u "январе"); (2, u "феврале"); (3, u "марте"); (4, u "апреле");
    (5, u "мае"); (6, u "июне"); (7, u "июле"); (8, u "августе");
    (9, u "сентябре"); (10, u "октябре"); (11, u "ноябре");
    (12, u "декабре") ].

Fixpoint months_get (d : list (Z * str)) (k : Z) (default : str) : str :=
  match d with
  | [] => default
  | (k', v) :: d' => if k =? k' then v else months_get d' k default
  end.

(** [month_word(dt)]; [None] is [NaT], for which the conversion of the
    month raises and the default is returned. *)
Definition month_word (dt : option Z) : str :=
  match dt with
  | Some ts =>
      let '(_, m, _) := fields ts in months_get RU_MONTHS m (u "этом месяце")
  | None => u "этом месяце"
  end.

(** The month that the main loop of [pipeline_llm.py] names in the
    push: [month_word(end - pd.offsets.Day(1))]. *)
Definition month_of_window (end_ : Z) : str :=
  month_word (Some (end_ - NS_PER_DAY)).

(** All of [check lo], [check (lo + 1)], ..., [check (lo + n - 1)]. *)
Definition check_range (check : Z -> bool) (lo : Z) (n : N) : bool :=
  snd (N.iter n (fun p => (fst p + 1, snd p && check (fst p))) (lo, true)).

(** Hinnant's quantities: the first day of the year [k] of an era
    (the years run from 1 March), the year of a day of the era, the last
    day of a year, the first day of a month counted from March, and the
    month of the calendar for a month counted from March. *)
Definition year_start (k : Z) : Z := 365 * k + k / 4 - k / 100.
Definition yoe_of (doe : Z) : Z :=
  (doe - doe / 1460 + doe / 36524 - doe / 146096) / 365.
Definition leap_days (y : Z) : Z :=
  if ((y mod 4 =? 0) && negb (y mod 100 =? 0)) || (y mod 400 =? 0)
  then 1 else 0.
Definition year_end (k : Z) : Z := year_start k + 364 + leap_days (k + 1).
Definition month_start (mp : Z) : Z := (153 * mp + 2) / 5.
Definition month_of_mp (mp : Z) : Z := if mp <? 10 then mp + 3 else mp - 9.

(** What is checked of each of the 400 years of an era, of each of the
    366 days of a year and of each of the 12 months. *)
Definition year_ok (k : Z) : bool :=
  (yoe_of (year_start k) =? k) && (yoe_of (year_end k) =? k)
  && (if k =? 399 then year_end k =? 146096
      else year_start (k + 1) =? year_end k + 1).

Definition doy_ok (doy : Z) : bool :=
  let mp := (5 * doy + 2) / 153 in
  let d := doy - month_start mp + 1 in
  (0 <=? mp) && (mp <=? 11) && (1 <=? d)
  && (doy <? (if mp =? 11 then 366 else month_start (mp + 1)))
  && ((5 * month_start mp + 2) / 153 =? mp).

Definition mp_ok (mp : Z) : bool :=
  let m := month_of_mp mp in
  (1 <=? m) && (m <=? 12) && ((m + 9) mod 12 =? mp)
  && (if mp =? 11 then month_start mp =? 337
      else (month_start (mp + 1) - month_start mp =? days_in_month 1 m))
  && (if mp =? 11 then true else negb (m =? 2)).

Definition mp_end_ok (mp : Z) : bool :=
  (5 * (month_start (mp + 1) - 1) + 2) / 153 =? mp.

(** 15 March 2024, 14:30, and the morning of 1 March 2024, 09:00. *)
Definition march_15_1430 : Z := 1710513000000000000.
Definition march_1_0900 : Z := 1709283600000000000.
Definition feb_10 : Z := 1707523200000000000.

End Calendar.

(** ** The benefit shown in the push: [estimate_benefit] and
    [_build_ctx_map] of [src/pipeline_llm.py] *)

Module Pipeline.

Import Pandas PySort Scorer Pushgen Text.

Definition TRAVEL_CB : spec_float := Eval vm_compute in dec 4 2.
Definition TRAVEL_CAP : spec_float := Eval vm_compute in dec 15000 0.
Definition ATM_FEE_SAVED : spec_float := Eval vm_compute in dec 300 0.
Definition TRANSFER_FEE_SAVED : spec_float := Eval vm_compute in dec 200 0.
Definition PREMIUM_CAP : spec_float := Eval vm_compute in dec 20000 0.
Definition CC_CAP : spec_float := Eval vm_compute in dec 20000 0.
Definition lit_0_02 : spec_float := Eval vm_compute in dec 2 2.
Definition lit_0_03 : spec_float := Eval vm_compute in dec 3 2.
Definition lit_0_04 : spec_float := Eval vm_compute in dec 4 2.
Definition lit_0_10 : spec_float := Eval vm_compute in dec 10 2.
Definition lit_100 : spec_float := Eval vm_compute in dec 100 0.
Definition lit_1e6 : spec_float := Eval vm_compute in dec 1000000 0.
Definition lit_3e6 : spec_float := Eval vm_compute in dec 3000000 0.

(** The dictionary [meta]; [None] is an absent key. *)
Record meta : Type := {
  m_total_spend : option spec_float;
  m_calc : option str;
  m_tier : option spec_float;
  m_premium_sum : option spec_float;
  m_saved_fees : option spec_float;
  m_top3_sum : option spec_float;
  m_online_sum : option spec_float;
  m_top3_names : option str
}.

Definition no_meta : meta :=
  {| m_total_spend := None; m_calc := None; m_tier := None;
     m_premium_sum := None; m_saved_fees := None; m_top3_sum := None;
     m_online_sum := None; m_top3_names := None |}.

Section WithLib.
Context {P : Lib}.

(** [estimate_benefit]; [None] is the exception that [int(travel_sum)]
    raises for NaN and for an infinity. *)
Definition estimate_benefit (product : str) (tx_client : list tx_row)
    (feats : features) (avg_bal : spec_float) (period : Z * Z)
    : option (spec_float * meta) :=
  let '(start, end_) := period in
  let tx_last :=
    filter (fun r => in_period start end_ (tx_date r) = true) tx_client in
  let total_spend := fsum (map tx_amount tx_last) in
  let PREMIUM_TIER :=
    if flt avg_bal lit_1e6 then lit_0_02
    else if flt avg_bal lit_3e6 then lit_0_03 else lit_0_04 in
  let travel_sum := TRAVEL_SPEND feats in
  let online_sum := ONLINE_SPEND feats in
  let premium_sum := PREMIUM_SPEND feats in
  if str_eqb product (u "Карта для путешествий") then
    let cb := py_min (fmul TRAVEL_CB travel_sum) TRAVEL_CAP in
    match py_int travel_sum, py_round (fmul TRAVEL_CB lit_100),
          py_int TRAVEL_CAP with
    | Some t, Some pct, Some cap =>
        Some (cb,
              {| m_total_spend := Some total_spend;
                 m_calc :=
                   Some (replace_char 0x2C%N (u " ")
                           (str_of_Z pct ++ u "% × travel ("
                            ++ format_comma t ++ u ") → cap "
                            ++ format_comma cap));
                 m_tier := None; m_premium_sum := None;
                 m_saved_fees := None; m_top3_sum := None;
                 m_online_sum := None; m_top3_names := None |})
    | _, _, _ => None
    end
  else if str_eqb product (u "Премиальная карта") then
    let base_cb := fmul PREMIUM_TIER total_spend in
    let boost_cb := fmul lit_0_04 premium_sum in
    let saved_fees :=
      fadd (fmul (of_int (ATM_CNT feats)) ATM_FEE_SAVED)
           (fmul (of_int (TRANSFER_CNT feats)) TRANSFER_FEE_SAVED) in
    let benefit_ := py_min (fadd (fadd base_cb boost_cb) saved_fees) PREMIUM_CAP in
    Some (benefit_,
          {| m_total_spend := Some total_spend; m_calc := None;
             m_tier := Some PREMIUM_TIER; m_premium_sum := Some premium_sum;
             m_saved_fees := Some saved_fees; m_top3_sum := None;
             m_online_sum := None; m_top3_names := None |})
  else if str_eqb product (u "Кредитная карта") then
    let cat_sum :=
      category_sums (filter (fun r => is_Some (tx_category r)) tx_last) in
    let top3_sum := fsum (map snd (take 3 cat_sum)) in
    let top3_names :=
      join (u ", ")
        (omap fst (take 3 cat_sum)) in
    let benefit_ :=
      py_min (fadd (fmul lit_0_10 top3_sum) (fmul lit_0_10 online_sum)) CC_CAP in
    Some (benefit_,
          {| m_total_spend := None; m_calc := None; m_tier := None;
             m_premium_sum := None; m_saved_fees := None;
             m_top3_sum := Some top3_sum; m_online_sum := Some online_sum;
             m_top3_names := Some top3_names |})
  else
    Some (zero,
          {| m_total_spend := Some total_spend; m_calc := None;
             m_tier := None; m_premium_sum := None; m_saved_fees := None;
             m_top3_sum := None; m_online_sum := None;
             m_top3_names := None |}).

(** [_build_ctx_map], the keys that the renderer reads; [None] is the
    [TypeError] of [", ".join] on a missing category label. *)
Definition _build_ctx_map (feats : features) (avg_bal benefit_num_ : spec_float)
    (meta_ : meta) : option ctx :=
  let fav_ :=
    match FAV_CATS feats with
    | [] => Some (u "-")
    | cats =>
        match Ingest.sequence cats with
        | Some names => Some (join (u ", ") names)
        | None => None
        end
    end in
  match fav_ with
  | None => None
  | Some fav_ =>
      Some {| benefit_num := Some benefit_num_;
              benefit := Some (kzt benefit_num_);
              travel_sum := Some (kzt (TRAVEL_SPEND feats));
              premium_sum := Some (kzt (PREMIUM_SPEND feats));
              online_sum := Some (kzt (ONLINE_SPEND feats));
              top3_names :=
                Some (match m_top3_names meta_ with Some s => s | None => [] end);
              fav := Some fav_;
              atm_cnt := Some (ATM_CNT feats);
              transfer_cnt := Some (TRANSFER_CNT feats) |}
  end.

End WithLib.

End Pipeline.

(* ===================================================================== *)
(** * Part II. Properties                                                 *)
(* ===================================================================== *)

(** ** The tables of Basic Latin and Cyrillic obey the laws *)

Module ReLaws.

Import Re.

Local Open Scope N_scope.

(** Settles the comparisons of a goal about a code point whose range is
    known from the context. *)
Ltac settle_cmp :=
  repeat match goal with
  | |- context [(?a <=? ?b)%N] =>
      first [ replace (a <=? b)%N with true by (symmetry; apply N.leb_le; lia)
            | replace (a <=? b)%N with false by (symmetry; apply N.leb_gt; lia) ]
  | |- context [(?a =? ?b)%N] =>
      first [ replace (a =? b)%N with true by (symmetry; apply N.eqb_eq; lia)
            | replace (a =? b)%N with false by (symmetry; apply N.eqb_neq; lia) ]
  end.

Lemma lower_char_cases c :
  (0x41 <= c <= 0x5A /\ lower_char c = c + 32)
  \/ (0x410 <= c <= 0x42F /\ lower_char c = c + 32)
  \/ (0x400 <= c <= 0x40F /\ lower_char c = c + 80)
  \/ (~ 0x41 <= c <= 0x5A /\ ~ 0x410 <= c <= 0x42F /\ ~ 0x400 <= c <= 0x40F
      /\ lower_char c = c).
Proof.
  unfold lower_char.
  destruct (0x41 <=? c) eqn:E1, (c <=? 0x5A) eqn:E2,
           (0x410 <=? c) eqn:E3, (c <=? 0x42F) eqn:E4,
           (0x400 <=? c) eqn:E5, (c <=? 0x40F) eqn:E6; simpl;
    rewrite ?N.leb_le, ?N.leb_gt in *; lia.
Qed.

#[global] Instance basic_laws : TableLaws basic.
Proof.
  split; simpl.
  - intros c. apply N.eqb_refl.
  - intros c Hc. settle_cmp. reflexivity.
  - intros p c Hp E. apply N.eqb_eq in E.
    assert (Hc : 0x410 <= c <= 0x44F).
    { destruct (lower_char_cases p) as [H|[H|[H|H]]],
               (lower_char_cases c) as [H'|[H'|[H'|H']]]; lia. }
    settle_cmp. reflexivity.
  - intros c H. unfold is_space.
    repeat (apply orb_true_iff in H as [H|H]);
      try (apply andb_true_iff in H as [?%N.leb_le ?%N.leb_le]);
      try apply N.eqb_eq in H; settle_cmp; reflexivity.
  - reflexivity.
Qed.

End ReLaws.

(** ** Signs of float results *)

Module F64Facts.

Lemma shr_1_nonneg mrs : 0 <= shr_m mrs -> 0 <= shr_m (shr_1 mrs).
Proof.
  destruct mrs as [m r s]; simpl.
  destruct m as [|p|p]; [simpl; lia| |lia].
  destruct p; simpl; lia.
Qed.

Lemma iter_shr_1_nonneg p : forall mrs,
  0 <= shr_m mrs -> 0 <= shr_m (SpecFloat.iter_pos shr_1 p mrs).
Proof.
  induction p as [p IH|p IH|]; intros mrs H; simpl.
  - apply IH, IH, shr_1_nonneg, H.
  - apply IH, IH, H.
  - apply shr_1_nonneg, H.
Qed.

Lemma shr_record_of_loc_m m l : shr_m (shr_record_of_loc m l) = m.
Proof. destruct l as [|[]]; reflexivity. Qed.

Lemma shr_fexp_nonneg m e l :
  0 <= m -> 0 <= shr_m (fst (shr_fexp prec emax m e l)).
Proof.
  intros H. unfold shr_fexp, shr.
  destruct (fexp prec emax (Zdigits2 m + e) - e) as [|p|p]; simpl;
    rewrite ?shr_record_of_loc_m; try assumption.
  apply iter_shr_1_nonneg. rewrite shr_record_of_loc_m. assumption.
Qed.

Lemma round_nearest_even_nonneg m l : 0 <= m -> 0 <= round_nearest_even m l.
Proof.
  intros H. unfold round_nearest_even.
  destruct l as [|[]]; try assumption; try lia.
  destruct (Z.even m); lia.
Qed.

(** Rounding never changes the sign and never produces NaN. *)
Lemma binary_round_aux_sign s m e l :
  0 <= m ->
  match binary_round_aux prec emax s m e l with
  | S754_zero s' | S754_infinity s' | S754_finite s' _ _ => s' = s
  | S754_nan => False
  end.
Proof.
  intros H. unfold binary_round_aux.
  pose proof (shr_fexp_nonneg m e l H) as H1.
  destruct (shr_fexp prec emax m e l) as [mrs' e'].
  simpl in H1.
  pose proof (shr_fexp_nonneg _ e' loc_Exact
                (round_nearest_even_nonneg _ (loc_of_shr_record mrs') H1)) as H2.
  destruct (shr_fexp prec emax _ e' loc_Exact) as [mrs'' e''].
  simpl in H2.
  destruct (shr_m mrs'') as [|p|p]; [reflexivity| |lia].
  destruct (e'' <=? emax - prec); reflexivity.
Qed.

Lemma binary_round_aux_nn m e l :
  0 <= m -> nn (binary_round_aux prec emax false m e l).
Proof.
  intros H. pose proof (binary_round_aux_sign false m e l H) as Hs.
  destruct (binary_round_aux prec emax false m e l); simpl; auto.
Qed.

Lemma binary_round_nn m e : nn (binary_round prec emax false m e).
Proof.
  unfold binary_round.
  destruct (shl_align m e _) as [mz ez].
  apply binary_round_aux_nn. lia.
Qed.

Lemma nn_fge x : nn x <-> fge x zero = true.
Proof.
  unfold fge, SFleb, zero.
  destruct x as [s|s| |s m e]; simpl; try destruct s; simpl; intuition congruence.
Qed.

Lemma nn_not_nan x : nn x -> is_nan x = false.
Proof. destruct x; simpl; intuition. Qed.

Lemma fmul_nn_r x c : nn x -> pos_finite c -> nn (fmul x c).
Proof.
  unfold fmul.
  destruct x as [[]|[]| |[] m e], c as [[]|[]| |[] mc ec]; simpl;
    intros Hx Hc; try tauto; try discriminate; try reflexivity.
  apply binary_round_aux_nn. lia.
Qed.

Lemma fmul_nn_l c x : pos_finite c -> nn x -> nn (fmul c x).
Proof.
  unfold fmul.
  destruct x as [[]|[]| |[] m e], c as [[]|[]| |[] mc ec]; simpl;
    intros Hc Hx; try tauto; try discriminate; try reflexivity.
  apply binary_round_aux_nn. lia.
Qed.

Lemma fadd_nn x y : nn x -> nn y -> nn (fadd x y).
Proof.
  unfold fadd.
  destruct x as [s|s| |s m e], y as [s'|s'| |s' m' e']; simpl; try tauto.
  - intros _ _. destruct s, s'; exact I.
  - intros -> ->. reflexivity.
  - intros -> ->. simpl.
    destruct (shl_align m e (Z.min e e')) as [a ?].
    destruct (shl_align m' e' (Z.min e e')) as [b ?].
    simpl. apply binary_round_nn.
Qed.

Lemma py_max_zero_nn x : is_nan x = false -> nn (py_max x zero).
Proof.
  unfold py_max, fgt, SFltb, zero.
  destruct x as [s|s| |s m e]; simpl; try discriminate; intros _.
  - exact I.
  - destruct s; simpl; auto.
  - destruct s; simpl; auto.
Qed.

Lemma py_max_zero_l_nn x : is_nan x = false -> nn (py_max zero x).
Proof.
  unfold py_max, fgt, SFltb, zero.
  destruct x as [s|s| |s m e]; simpl; try discriminate; intros _.
  - exact I.
  - destruct s; simpl; auto.
  - destruct s; simpl; auto.
Qed.

Lemma of_int_nn n : 0 <= n -> nn (of_int n).
Proof.
  intros H. unfold of_int, binary_normalize.
  destruct n as [|p|p]; [exact I| |lia].
  apply binary_round_nn.
Qed.

Lemma not_nan_of_nn_or_neg x : is_nan x = false -> fle x zero = false -> nn x.
Proof.
  unfold fle, SFleb, zero.
  destruct x as [s|s| |s m e]; simpl; try discriminate; auto;
    destruct s; simpl; auto; discriminate.
Qed.

End F64Facts.

(** ** The benefit formulas *)

Module RulesFacts.

Import Rules F64Facts.

Lemma cap_nn value cap_value :
  is_nan value = false -> nn cap_value -> nn (_cap value cap_value).
Proof.
  intros Hv Hc. unfold _cap.
  destruct (fle value zero) eqn:E; [exact I|].
  unfold py_min. destruct (flt cap_value value); [assumption|].
  apply not_nan_of_nn_or_neg; assumption.
Qed.

Ltac const_pos := vm_compute; first [exact I | reflexivity].

Lemma benefit_travel_nn x : nn x -> nn (benefit_travel x).
Proof.
  intros H. unfold benefit_travel.
  apply cap_nn; [apply nn_not_nan, fmul_nn_r; [assumption|const_pos]|const_pos].
Qed.

Lemma benefit_premium_nn bal spend prem atm trf :
  is_nan spend = false -> is_nan prem = false ->
  nn (benefit_premium bal spend prem atm trf).
Proof.
  intros Hs Hp. unfold benefit_premium.
  apply fadd_nn.
  - apply cap_nn; [|const_pos].
    apply nn_not_nan, fadd_nn.
    + apply fmul_nn_l; [|apply py_max_zero_nn, Hs].
      destruct (fge bal _); const_pos.
    + apply fmul_nn_l; [const_pos|apply py_max_zero_nn, Hp].
  - apply py_max_zero_nn, nn_not_nan, fadd_nn;
      (apply fmul_nn_r; [apply of_int_nn; lia|const_pos]).
Qed.

Lemma benefit_credit_card_nn fav online :
  is_nan fav = false -> is_nan online = false ->
  nn (benefit_credit_card fav online).
Proof.
  intros Hf Ho. unfold benefit_credit_card.
  apply cap_nn; [|const_pos].
  apply nn_not_nan, fadd_nn;
    (apply fmul_nn_l; [const_pos|apply py_max_zero_nn; assumption]).
Qed.

Lemma benefit_fx_nn fx : is_nan fx = false -> nn (benefit_fx fx).
Proof.
  intros H. unfold benefit_fx.
  apply fmul_nn_r; [apply py_max_zero_nn, H|const_pos].
Qed.

Lemma benefit_cash_loan_nn ratio shortfall :
  nn (benefit_cash_loan ratio shortfall).
Proof.
  unfold benefit_cash_loan.
  destruct (fge ratio _); cbn [andb]; [|exact I].
  destruct (fgt shortfall zero) eqn:E; [|exact I].
  apply fmul_nn_l; [const_pos|].
  revert E. unfold fgt, SFltb, zero.
  destruct shortfall as [s|s| |s m e]; simpl; try discriminate;
    destruct s; simpl; auto; discriminate.
Qed.

Lemma benefit_deposit_savings_nn fb :
  is_nan fb = false -> nn (benefit_deposit_savings fb).
Proof.
  intros H. apply fmul_nn_r; [apply py_max_zero_nn, H|const_pos].
Qed.

Lemma benefit_deposit_accum_nn fb :
  is_nan fb = false -> nn (benefit_deposit_accum fb).
Proof.
  intros H. apply fmul_nn_r; [apply py_max_zero_nn, H|const_pos].
Qed.

Lemma benefit_deposit_multi_nn fb fx :
  is_nan fb = false -> is_nan fx = false -> nn (benefit_deposit_multi fb fx).
Proof.
  intros H1 H2. apply fadd_nn.
  - apply fmul_nn_r; [apply py_max_zero_nn, H1|const_pos].
  - apply fmul_nn_l; [const_pos|apply py_max_zero_nn, H2].
Qed.

Lemma benefit_invest_nn fb : is_nan fb = false -> nn (benefit_invest fb).
Proof.
  intros H. apply fmul_nn_r; [apply py_max_zero_nn, H|const_pos].
Qed.

Lemma benefit_gold_nn fb : is_nan fb = false -> nn (benefit_gold fb).
Proof.
  intros H. apply fmul_nn_r; [apply py_max_zero_nn, H|const_pos].
Qed.

End RulesFacts.

(** ** The stable descending sort *)

Module SortingFacts.

Import PySort Props.

Section Desc.
Context {A K : Type} (key : A -> K) (lt : K -> K -> bool).

Lemma insert_desc_perm x l : insert_desc key lt x l ≡ₚ x :: l.
Proof.
  induction l as [|y l IH]; simpl; [reflexivity|].
  destruct (lt (key x) (key y)); [|reflexivity].
  rewrite IH. apply Permutation_swap.
Qed.

Lemma sorted_desc_perm l : sorted_desc key lt l ≡ₚ l.
Proof.
  induction l as [|x l IH]; simpl; [reflexivity|].
  rewrite insert_desc_perm, IH. reflexivity.
Qed.

Lemma before_cons {X : Type} (y : X) l a b : before l a b -> before (y :: l) a b.
Proof.
  intros (l1 & l2 & l3 & ->). exists (y :: l1), l2, l3. reflexivity.
Qed.

Lemma before_head {X : Type} (a b : X) l : b ∈ l -> before (a :: l) a b.
Proof.
  intros (l2 & l3 & ->)%list_elem_of_split. exists [], l2, l3. reflexivity.
Qed.

Lemma before_inv_cons {X : Type} (x : X) l a b :
  before (x :: l) a b -> (a = x /\ b ∈ l) \/ before l a b.
Proof.
  intros (l1 & l2 & l3 & E). destruct l1 as [|z l1]; simpl in E.
  - injection E as -> ->. left. split; [reflexivity|].
    set_solver.
  - injection E as -> ->. right. exists l1, l2, l3. reflexivity.
Qed.

Lemma insert_desc_before x l a b :
  before l a b -> before (insert_desc key lt x l) a b.
Proof.
  induction l as [|y l IH]; simpl; intros H.
  - destruct H as (l1 & l2 & l3 & E). destruct l1; discriminate.
  - destruct (lt (key x) (key y)); [|apply before_cons, H].
    apply before_inv_cons in H as [[-> Hb]|H].
    + apply before_head. rewrite insert_desc_perm. set_solver.
    + apply before_cons, IH, H.
Qed.

Lemma insert_desc_first x l b :
  b ∈ l -> lt (key x) (key b) = false -> before (insert_desc key lt x l) x b.
Proof.
  induction l as [|y l IH]; simpl; intros Hb E; [set_solver|].
  destruct (lt (key x) (key y)) eqn:Ey.
  - apply before_cons, IH; [|exact E].
    apply elem_of_cons in Hb as [->|Hb]; [congruence|exact Hb].
  - apply before_head, Hb.
Qed.

(** Stability: two elements of which the earlier one has no smaller key
    keep their order. *)
Lemma sorted_desc_stable l a b :
  before l a b -> lt (key a) (key b) = false ->
  before (sorted_desc key lt l) a b.
Proof.
  induction l as [|x l IH]; simpl; intros H E.
  - destruct H as (l1 & l2 & l3 & E'). destruct l1; discriminate.
  - apply before_inv_cons in H as [[-> Hb]|H].
    + apply insert_desc_first; [|exact E].
      rewrite sorted_desc_perm. exact Hb.
    + apply insert_desc_before, IH; assumption.
Qed.

End Desc.

Section DescSorted.
Context {A K : Type} (key : A -> K) (lt : K -> K -> bool).

(** The keys that occur are comparable: on the set [good], [lt] is a
    strict weak order. *)
Variable good : K -> Prop.
Hypothesis lt_asym : forall a b, good a -> good b -> lt a b = true -> lt b a = false.
Hypothesis lt_negtrans : forall a b c, good a -> good b -> good c ->
  lt a b = false -> lt b c = false -> lt a c = false.

Lemma insert_desc_sorted x l :
  good (key x) -> Forall (fun a => good (key a)) l ->
  StronglySorted (ge_key key lt) l -> StronglySorted (ge_key key lt) (insert_desc key lt x l).
Proof.
  intros Gx Gl Hs. induction Hs as [|y l Hs IH Hy]; simpl.
  - repeat constructor.
  - apply Forall_cons in Gl as [Gy Gl].
    destruct (lt (key x) (key y)) eqn:E.
    + constructor; [apply IH, Gl|].
      rewrite insert_desc_perm. constructor; [|exact Hy].
      apply lt_asym; assumption.
    + constructor; [constructor; assumption|].
      constructor; [exact E|].
      rewrite Forall_forall in *. intros z Hz.
      apply (lt_negtrans _ (key y)); auto.
      apply Hy, Hz.
Qed.

Lemma sorted_desc_sorted l :
  Forall (fun a => good (key a)) l -> StronglySorted (ge_key key lt) (sorted_desc key lt l).
Proof.
  induction l as [|x l IH]; simpl; intros G; [constructor|].
  apply Forall_cons in G as [Gx Gl].
  apply insert_desc_sorted; auto.
  rewrite sorted_desc_perm. exact Gl.
Qed.

End DescSorted.

(** The reference implementation keeps the contract of the built-in. *)
Lemma reference_laws : BuiltinLaws reference.
Proof.
  split; intros A key l.
  - apply sorted_desc_perm.
  - intros _. reflexivity.
Qed.

End SortingFacts.

(** ** Order of non-negative floats *)

Module F64Order.

Lemma flt_rank x y : nn x -> nn y -> (flt x y = true <-> lex_lt (rank x) (rank y)).
Proof.
  unfold flt, SFltb.
  destruct x as [s|s| |s m e], y as [s'|s'| |s' m' e']; simpl;
    try tauto; intros Hx Hy; subst; simpl;
    try (split; [discriminate|lia]); try (split; [lia|reflexivity]);
    try (destruct s; split; (discriminate || lia));
    try (destruct s'; split; (discriminate || lia || reflexivity)).
  rewrite Pos.compare_cont_spec. simpl.
  destruct (Z.compare_spec e e') as [->|H|H].
  - destruct (Pos.compare_spec m m') as [->|H|H];
      (split; [try discriminate; lia|try reflexivity; lia]).
  - split; [lia|reflexivity].
  - split; [discriminate|lia].
Qed.

Lemma flt_asym a b : nn a -> nn b -> flt a b = true -> flt b a = false.
Proof.
  intros Ha Hb H. apply flt_rank in H; [|assumption..].
  destruct (flt b a) eqn:E; [|reflexivity].
  apply flt_rank in E; [|assumption..].
  unfold lex_lt in *. destruct (rank a) as [[? ?] ?], (rank b) as [[? ?] ?]. lia.
Qed.

Lemma flt_negtrans a b c : nn a -> nn b -> nn c ->
  flt a b = false -> flt b c = false -> flt a c = false.
Proof.
  intros Ha Hb Hc H1 H2.
  destruct (flt a c) eqn:E; [|reflexivity].
  apply flt_rank in E; [|assumption..].
  assert (N1 : ~ lex_lt (rank a) (rank b))
    by (rewrite <- flt_rank by assumption; congruence).
  assert (N2 : ~ lex_lt (rank b) (rank c))
    by (rewrite <- flt_rank by assumption; congruence).
  unfold lex_lt in *.
  destruct (rank a) as [[? ?] ?], (rank b) as [[? ?] ?], (rank c) as [[? ?] ?].
  lia.
Qed.

(** On numbers, [not (a < b)] is [a >= b]. *)
Lemma not_flt_fge a b : nn a -> nn b -> flt a b = false -> fge a b = true.
Proof.
  unfold flt, fge, SFltb, SFleb.
  destruct a as [s|s| |s m e], b as [s'|s'| |s' m' e']; simpl;
    try tauto; intros Ha Hb; subst; simpl; try reflexivity; try discriminate;
    try (destruct s; reflexivity || discriminate);
    try (destruct s'; reflexivity || discriminate).
  rewrite !Pos.compare_cont_spec. simpl.
  rewrite (Z.compare_antisym e e'), (Pos.compare_antisym m m').
  destruct (e ?= e'); simpl; try discriminate; try reflexivity.
  destruct (m ?= m')%positive; simpl; try discriminate; reflexivity.
Qed.

End F64Order.

(** ** The scorer *)

Module ScorerFacts.

Import Scorer Rules RulesFacts F64Facts Props PySort SortingFacts F64Order.

Lemma scores_of_products feats bal : map fst (scores_of feats bal) = PRODUCTS.
Proof. reflexivity. Qed.

Lemma scores_of_nn feats bal :
  numeric_inputs feats -> Forall (fun ps => nn (snd ps)) (scores_of feats bal).
Proof.
  intros (Ht & Hp & Ho & Hs & Hf & Ha & Hr & Hx & Hb).
  unfold scores_of. repeat apply Forall_cons_2; simpl snd.
  - apply cap_nn; [|const_pos]. unfold fmul.
    destruct (TRAVEL_SPEND feats) as [?|?| |? ? ?]; try discriminate;
      try reflexivity.
    simpl. pose proof (binary_round_aux_sign (xorb s false)
      (Z.pos (m * 5764607523034235)) (e + -57) loc_Exact ltac:(lia)) as H.
    destruct (binary_round_aux _ _ _ _ _ _); tauto || reflexivity.
  - apply benefit_premium_nn; assumption.
  - apply benefit_credit_card_nn; assumption.
  - apply benefit_fx_nn; assumption.
  - apply benefit_cash_loan_nn.
  - apply benefit_deposit_multi_nn; assumption.
  - apply benefit_deposit_savings_nn; assumption.
  - apply benefit_deposit_accum_nn; assumption.
  - apply benefit_invest_nn; assumption.
  - apply benefit_gold_nn; assumption.
  - constructor.
Qed.

Lemma nonneg_numeric feats bal : nonneg_inputs feats bal -> numeric_inputs feats.
Proof.
  unfold nonneg_inputs, numeric_inputs.
  rewrite <- !nn_fge.
  intros (Ht & Hp & Ho & Hs & Hf & Ha & Hr & _ & Hx & Hb & _).
  repeat split; try (apply nn_not_nan; assumption); lia.
Qed.

Section Ranking.
Context {B : Builtin}.

(** C2. For every feature record whose numeric inputs (the five spends,
    the ATM and transfer counts, the shortfall, the FX turnover, the free
    balance) are non-negative and every non-negative average balance, the
    score map of [score_products] holds the ten catalog products, each
    with the value of its benefit function, and every value is [>= 0]. *)
Theorem C2_scores_nonneg feats avg_balance :
  nonneg_inputs feats avg_balance ->
  let scores := snd (score_products feats avg_balance) in
  map fst scores = PRODUCTS
  /\ Forall (fun ps => fge (snd ps) zero = true) scores.
Proof.
  intros H. simpl. split; [reflexivity|].
  eapply Forall_impl; [apply scores_of_nn, (nonneg_numeric _ _ H)|].
  intros ps Hps. apply nn_fge, Hps.
Qed.

Lemma StronglySorted_lookup {X : Type} (R : X -> X -> Prop) l :
  StronglySorted R l ->
  forall (i j : nat) a b, (i < j)%nat -> l !! i = Some a -> l !! j = Some b -> R a b.
Proof.
  induction 1 as [|x l Hs IH Hx]; intros i j a b Hij Ha Hb.
  - rewrite lookup_nil in Ha. discriminate.
  - destruct j as [|j]; [lia|]. simpl in Hb.
    destruct i as [|i]; simpl in Ha.
    + injection Ha as ->. rewrite Forall_forall in Hx.
      apply Hx. eapply list_elem_of_lookup_2, Hb.
    + apply (IH i j); [lia|assumption..].
Qed.

Context {L : BuiltinLaws B}.

(** C7. For every feature record of numbers, every balance and every
    built-in [sorted] that keeps the contract of the language,
    [score_products] ranks by a stable descending sort: the top four are
    the first four of a ranking that is a permutation of the score map of
    the ten catalog products, in which no product stands before one with
    a greater score and products with equal scores keep the order of the
    catalog; scoring equal features again gives the same result; and
    [best] is the product at the head of the ranking, never the null
    value. *)
Theorem C7_ranking_stable feats avg_balance :
  numeric_inputs feats ->
  let '(best, top4, scores) := score_products feats avg_balance in
  let r := ranking feats avg_balance in
  top4 = take 4 r
  /\ r ≡ₚ scores
  /\ map fst scores = PRODUCTS
  /\ (forall (i j : nat) a b, (i < j)%nat -> r !! i = Some a -> r !! j = Some b ->
        fge (snd a) (snd b) = true)
  /\ (forall a b, before scores a b -> feq (snd a) (snd b) = true ->
        before r a b)
  /\ (forall feats', feats' = feats ->
        score_products feats' avg_balance = score_products feats avg_balance)
  /\ (exists p s rest, r = (p, s) :: rest /\ best = Some p).
Proof.
  intros Hnum. unfold score_products, ranking.
  pose proof (scores_of_nn feats avg_balance Hnum) as Hnn.
  set (scores := scores_of feats avg_balance) in *.
  assert (Hsort : py_sorted_reverse snd scores = sorted_desc snd flt scores).
  { apply py_sorted_numbers. eapply Forall_impl; [exact Hnn|].
    intros ps Hps. apply nn_not_nan, Hps. }
  rewrite Hsort.
  set (r := sorted_desc snd flt scores).
  assert (Hperm : r ≡ₚ scores) by apply sorted_desc_perm.
  assert (Hnn' : Forall (fun ps => nn (snd ps)) r) by (rewrite Hperm; exact Hnn).
  repeat split.
  - exact Hperm.
  - intros i j a b Hij Ha Hb.
    rewrite Forall_forall in Hnn'.
    apply not_flt_fge;
      [eapply Hnn', list_elem_of_lookup_2, Ha
      |eapply Hnn', list_elem_of_lookup_2, Hb|].
    eapply (StronglySorted_lookup (ge_key snd flt) r); eauto.
    apply (sorted_desc_sorted snd flt nn flt_asym flt_negtrans), Hnn.
  - intros a b Hab E. apply sorted_desc_stable; [exact Hab|].
    revert E. unfold feq, flt, SFeqb, SFltb.
    destruct (SFcompare (snd a) (snd b)) as [[]|]; congruence.
  - intros feats' ->. fold scores. rewrite Hsort. reflexivity.
  - assert (Hlen : length r = 10%nat) by (rewrite Hperm; reflexivity).
    destruct r as [|[p s] rest]; [discriminate|].
    exists p, s, rest. split; reflexivity.
Qed.

End Ranking.

End ScorerFacts.

Module ScorerExamples.

Import Scorer Rules Props Samples ScorerFacts PySort SortingFacts.

Example travel_benefit_2000 : benefit_travel (dec 50000 0) = dec 2000 0.
Proof. vm_compute. reflexivity. Qed.

Example traveller_best :
  fst (fst (score_products (B := reference) traveller traveller_balance))
  = Some (u "Депозит сберегательный (с «заморозкой»)").
Proof. vm_compute. reflexivity. Qed.

Lemma C2_scores_nonneg_witness :
  nonneg_inputs traveller traveller_balance
  /\ Forall (fun ps => fge (snd ps) zero = true)
       (snd (score_products (B := reference) traveller traveller_balance)).
Proof.
  assert (H : nonneg_inputs traveller traveller_balance).
  { unfold nonneg_inputs. vm_compute. intuition discriminate. }
  split; [exact H|].
  exact (proj2 (C2_scores_nonneg (B := reference) traveller traveller_balance H)).
Defined.

Lemma C7_ranking_stable_witness :
  (BuiltinLaws reference /\ numeric_inputs traveller)
  /\ let '(best, top4, scores) :=
       score_products (B := reference) traveller traveller_balance in
     top4 = take 4 (ranking (B := reference) traveller traveller_balance).
Proof.
  assert (H : numeric_inputs traveller).
  { unfold numeric_inputs. vm_compute. intuition discriminate. }
  split; [exact (conj reference_laws H)|].
  pose proof (C7_ranking_stable (B := reference) (L := reference_laws)
                traveller traveller_balance H) as T.
  destruct (score_products (B := reference) traveller traveller_balance)
    as [[best top4] scores].
  exact (proj1 T).
Defined.

(** C7, as stated, fails: the currency turnover of a feature record can
    be NaN, the scores of the currency exchange and of the
    multi-currency deposit are then NaN, and whatever order the
    built-in returns, the ranking is not in descending order: some
    product stands before another without its score being greater or
    equal. *)
Lemma C7_counterexample :
  (u "Обмен валют", S754_nan) ∈ scores_of nan_turnover traveller_balance
  /\ forall (B : Builtin), BuiltinLaws B ->
       exists (i j : nat) a b,
         (i < j)%nat
         /\ ranking nan_turnover traveller_balance !! i = Some a
         /\ ranking nan_turnover traveller_balance !! j = Some b
         /\ fge (snd a) (snd b) = false.
Proof.
  set (scores := scores_of nan_turnover traveller_balance).
  assert (Hin : (u "Обмен валют", S754_nan) ∈ scores).
  { apply list_elem_of_lookup. exists 3%nat. vm_compute. reflexivity. }
  assert (Hlen : length scores = 10%nat) by reflexivity.
  split; [exact Hin|].
  intros B L. unfold ranking. fold scores.
  pose proof (py_sorted_perm _ snd scores) as Hperm.
  revert Hin Hperm. generalize (u "Обмен валют"). clearbody scores.
  intros nm Hin Hperm.
  set (r := py_sorted_reverse snd scores) in *. clearbody r.
  assert (Hr : length r = 10%nat) by (rewrite Hperm; exact Hlen).
  assert (Hnan : (nm, S754_nan) ∈ r) by (rewrite Hperm; exact Hin).
  apply list_elem_of_lookup in Hnan as [k Hk].
  destruct k as [|k].
  - destruct r as [|a0 [|b0 r']]; try discriminate.
    simpl in Hk. injection Hk as ->.
    exists 0%nat, 1%nat, (nm, S754_nan), b0.
    split; [lia|]. split; [reflexivity|]. split; [reflexivity|].
    cbn [snd]. unfold fge, SFleb. destruct (snd b0); reflexivity.
  - destruct r as [|a0 r']; [discriminate|].
    exists 0%nat, (S k), a0, (nm, S754_nan).
    split; [lia|]. split; [reflexivity|]. split; [exact Hk|].
    cbn [snd]. unfold fge, SFleb. destruct (snd a0); reflexivity.
Qed.

End ScorerExamples.

(** ** The feature extractor *)

Module FeatureFacts.

Import Scorer Pandas Props FeatureSamples.

Lemma filter_none {X : Type} (p : X -> bool) (l : list X) :
  Forall (fun x => p x = false) l -> filter (fun x => p x = true) l = [].
Proof.
  induction 1 as [|x l Hx _ IH]; [reflexivity|].
  rewrite filter_cons, IH. destruct (decide (p x = true)); congruence.
Qed.

(** C6, as the code has it. For every average balance, every window and
    every pair of event tables without a row inside the window (empty
    tables included), the extractor returns the record whose sums are
    [0.0], whose counts are [0] and whose favourite categories are empty,
    while the need ratio is the sentinel [+inf] and the disposable
    balance is [(avg_balance * 3.0) / 12.0] in binary64 arithmetic; the
    disposable balance is that value for all inputs. *)
Theorem C6_features_outside_window {P : Lib} tx tr avg_balance start end_ :
  fsum [] = zero ->
  Forall (fun r => in_period start end_ (tx_date r) = false) tx ->
  Forall (fun r => in_period start end_ (tr_date r) = false) tr ->
  compute_features_for_client tx tr avg_balance (start, end_)
  = {| TOTAL_SPEND := zero; TRAVEL_SPEND := zero; PREMIUM_SPEND := zero;
       ONLINE_SPEND := zero; FAV_SPEND_SUM := zero;
       ATM_CNT := 0; TRANSFER_CNT := 0;
       NEED_RATIO := inf; SHORTFALL := zero; FX_TURNOVER := zero;
       FREE_BAL_3M := fdiv (fmul avg_balance lit_3_0) lit_12_0;
       FAV_CATS := [] |}
  /\ forall tx' tr' period,
       FREE_BAL_3M (compute_features_for_client tx' tr' avg_balance period)
       = fdiv (fmul avg_balance lit_3_0) lit_12_0.
Proof.
  intros Hsum Htx Htr. split.
  - unfold compute_features_for_client.
    rewrite (filter_none _ _ Htx), (filter_none _ _ Htr).
    cbn [top_categories category_sums map take fst snd].
    rewrite !filter_nil. cbn [map length count_true].
    rewrite !Hsum. reflexivity.
  - intros tx' tr' [s e]. reflexivity.
Qed.

(** C6, as stated, fails for two empty tables and an average balance of
    0.7: the need ratio is [+inf], not zero, and the disposable balance
    [0.7 * 3.0 / 12.0 = 0.17499999999999996] differs from
    [0.7 * 0.25 = 0.175]. *)
Lemma C6_counterexample :
  let f := compute_features_for_client (P := model) [] [] (dec 7 1) march in
  feq (NEED_RATIO f) zero = false
  /\ NEED_RATIO f = inf
  /\ feq (FREE_BAL_3M f) (fmul (dec 7 1) (dec 25 2)) = false.
Proof. vm_compute. repeat split; reflexivity. Qed.

Lemma C6_features_outside_window_witness :
  (@fsum model [] = zero
   /\ Forall (fun r => in_period (fst march) (snd march) (tx_date r) = false)
        [old_purchase]
   /\ Forall (fun r => in_period (fst march) (snd march) (tr_date r) = false)
        [old_transfer])
  /\ NEED_RATIO (compute_features_for_client (P := model) [old_purchase]
                   [old_transfer] (dec 2500000 0) march) = inf.
Proof.
  assert (H1 : @fsum model [] = zero) by reflexivity.
  assert (H2 : Forall
            (fun r => in_period (fst march) (snd march) (tx_date r) = false)
            [old_purchase]) by (repeat constructor).
  assert (H3 : Forall
            (fun r => in_period (fst march) (snd march) (tr_date r) = false)
            [old_transfer]) by (repeat constructor).
  split; [auto|].
  pose proof (proj1 (C6_features_outside_window (P := model) [old_purchase]
                       [old_transfer] (dec 2500000 0) _ _ H1 H2 H3)) as E.
  change (fst march, snd march) with march in E.
  rewrite E. reflexivity.
Defined.

Example free_balance_of_2500000 :
  FREE_BAL_3M (compute_features_for_client (P := model) [] []
                 (dec 2500000 0) march) = dec 625000 0.
Proof. vm_compute. reflexivity. Qed.

End FeatureFacts.

(** ** Strings *)

Module StrFacts.




(** Stripping on the left leaves a suffix. *)
Lemma lstrip_by_suffix p s : exists pre, s = pre ++ lstrip_by p s.
Proof.
  induction s as [|c s [pre IH]]; simpl; [exists []; reflexivity|].
  destruct (p c).
  - exists (c :: pre). simpl. f_equal. exact IH.
  - exists []. reflexivity.
Qed.

Lemma lstrip_by_keep p c s : p c = false -> lstrip_by p (c :: s) = c :: s.
Proof. intros H. simpl. rewrite H. reflexivity. Qed.

Lemma rstrip_by_snoc p a c : p c = false -> rstrip_by p (a ++ [c]) = a ++ [c].
Proof.
  intros H. unfold rstrip_by. rewrite rev_app_distr. simpl.
  rewrite H. simpl. rewrite rev_involutive. reflexivity.
Qed.

(** Stripping on the left of [a ++ c :: b] with [c] kept: the part from
    [c] on survives. *)
Lemma lstrip_by_app_keep p a c b :
  p c = false -> exists pre, lstrip_by p (a ++ c :: b) = pre ++ c :: b.
Proof.
  intros H. induction a as [|x a [pre IH]]; simpl.
  - rewrite H. exists []. reflexivity.
  - destruct (p x).
    + exists pre. exact IH.
    + exists (x :: a). reflexivity.
Qed.

Lemma strip_by_nonempty p s c :
  c ∈ s -> p c = false -> strip_by p s <> [].
Proof.
  intros (a & b & ->)%list_elem_of_split H.
  unfold strip_by.
  destruct (lstrip_by_app_keep p a c b H) as [pre ->].
  unfold rstrip_by. rewrite rev_app_distr. simpl. rewrite <- app_assoc. simpl.
  destruct (lstrip_by_app_keep p (rev b) c (rev pre) H) as [pre' ->].
  rewrite rev_app_distr. simpl. rewrite <- app_assoc. simpl.
  destruct (rev (rev pre)); discriminate.
Qed.






Lemma rstrip_by_head p c s :
  p c = false -> exists s', rstrip_by p (c :: s) = c :: s'.
Proof.
  intros H. unfold rstrip_by. simpl.
  destruct (lstrip_by_app_keep p (rev s) c [] H) as [pre ->].
  rewrite rev_app_distr. simpl. eexists. reflexivity.
Qed.

Lemma startswith_one s z : startswith s [z] = true -> exists s', s = z :: s'.
Proof.
  destruct s as [|x s]; simpl; [discriminate|].
  destruct (N.eqb_spec x z) as [->|]; [|discriminate].
  intros _. eexists. reflexivity.
Qed.

Lemma endswith_one s z : endswith s [z] = true -> exists s', s = s' ++ [z].
Proof.
  unfold endswith. simpl. intros [s' E]%startswith_one.
  exists (rev s'). rewrite <- (rev_involutive s), E. reflexivity.
Qed.

End StrFacts.

(** ** The CTA pattern *)

Module ReFacts.

Import Re.

Section WithTables.
Context {T : Tables}.

Lemma last_or_cons prev x a : last_or prev (x :: a) = last_or (Some x) a.
Proof.
  unfold last_or. destruct a as [|y a]; [reflexivity|].
  change (last (x :: y :: a)) with (last (y :: a)).
  destruct (last (y :: a)) eqn:E; [reflexivity|].
  apply last_None in E. discriminate.
Qed.

(** A match anywhere in the text is enough for [finditer] to report at
    least one match. *)
Lemma finditer_from_nonempty m a b prev pos n :
  b <> [] -> m (last_or prev a) b = Some n ->
  finditer_from m prev (a ++ b) pos 0 <> [].
Proof.
  intros Hb. revert prev pos. induction a as [|x a IH]; intros prev pos Hm.
  - simpl. destruct b as [|c b]; [congruence|].
    simpl. unfold last_or in Hm. simpl in Hm. rewrite Hm. discriminate.
  - simpl. destruct (m prev (x :: a ++ b)); [discriminate|].
    apply IH. rewrite <- (last_or_cons prev). exact Hm.
Qed.

Lemma alt_then_boundary_some ws w prev s lastc rest :
  w ∈ ws -> ilit w s prev = Some (lastc, rest) ->
  boundary lastc (head rest) = true ->
  is_Some (alt_then_boundary ws prev s).
Proof.
  intros Hw Hl Hb. induction ws as [|w' ws IH]; [set_solver|].
  simpl. apply elem_of_cons in Hw as [<-|Hw].
  - rewrite Hl, Hb. eexists; reflexivity.
  - destruct (ilit w' s prev) as [[l' r']|]; [|apply IH, Hw].
    destruct (boundary l' (head r')); [eexists; reflexivity|apply IH, Hw].
Qed.

Lemma alt_then_boundary_inv ws prev s n :
  alt_then_boundary ws prev s = Some n ->
  exists w lastc rest, w ∈ ws /\ ilit w s prev = Some (lastc, rest).
Proof.
  induction ws as [|w ws IH]; simpl; [discriminate|].
  destruct (ilit w s prev) as [[l r]|] eqn:E.
  - destruct (boundary l (head r)).
    + intros _. exists w, l, r. split; [left|exact E].
    + intros H. destruct (IH H) as (w' & l' & r' & Hw & E').
      exists w', l', r'. split; [right; exact Hw|exact E'].
  - intros H. destruct (IH H) as (w' & l' & r' & Hw & E').
    exists w', l', r'. split; [right; exact Hw|exact E'].
Qed.

(** Where [finditer] reports a match, the pattern matches. *)
Lemma finditer_from_inv m s : forall prev pos skip st e,
  (st, e) ∈ finditer_from m prev s pos skip ->
  exists a b prev', s = a ++ b /\ st = (pos + length a)%nat
                   /\ is_Some (m prev' b).
Proof.
  induction s as [|c s IH]; intros prev pos skip st e H; simpl in H.
  - set_solver.
  - assert (Hrec : forall k, (st, e) ∈ finditer_from m (Some c) s (S pos) k ->
      exists a b prev', c :: s = a ++ b /\ st = (pos + length a)%nat
                        /\ is_Some (m prev' b)).
    { intros k Hk. destruct (IH _ _ _ _ _ Hk) as (a & b & prev' & -> & -> & Hm).
      exists (c :: a), b, prev'. simpl. split; [reflexivity|]. split; [lia|exact Hm]. }
    destruct skip as [|k]; [|apply (Hrec k), H].
    destruct (m prev (c :: s)) as [n|] eqn:E; [|apply (Hrec O), H].
    apply elem_of_cons in H as [[= -> ->]|H]; [|apply (Hrec (Nat.pred n)), H].
    exists [], (c :: s), prev. simpl. split; [reflexivity|].
    split; [lia|]. rewrite E. eexists; reflexivity.
Qed.

Context {L : TableLaws T}.

Lemma ilit_self w rest prev :
  ilit w (w ++ rest) prev = Some (last_or prev w, rest).
Proof.
  revert prev. induction w as [|p w IH]; intros prev; simpl; [reflexivity|].
  rewrite ieq_refl, IH, last_or_cons. reflexivity.
Qed.

End WithTables.

End ReFacts.

(** ** The renderer *)

Module PushgenFacts.

Import Re Pushgen ReFacts StrFacts PushProps.

Lemma every_cta_begins : forallb begins_with_cta_word every_cta = true.
Proof. vm_compute. reflexivity. Qed.

Lemma cta_words_shape :
  forallb (fun w => match w, last w with
                    | c :: _, Some d => cyr c && cyr d
                    | _, _ => false
                    end) CTA_WORDS = true.
Proof. vm_compute. reflexivity. Qed.

Lemma cyr_range c : cyr c = true -> (0x410 <= c <= 0x44F)%N.
Proof.
  unfold cyr. intros [H1 H2]%andb_true_iff.
  apply N.leb_le in H1. apply N.leb_le in H2. lia.
Qed.

Lemma startswith_split s p : startswith s p = true -> s = p ++ drop (length p) s.
Proof.
  revert s. induction p as [|y p IH]; intros [|x s]; simpl; try discriminate;
    try reflexivity.
  intros [E H]%andb_true_iff. apply N.eqb_eq in E. subst.
  f_equal. apply IH, H.
Qed.

Lemma dict_get_cases {V : Type} (d : list (str * V)) k def :
  dict_get d k def = def \/ In (dict_get d k def) (map snd d).
Proof.
  induction d as [|[k' v] d IH]; simpl; [left; reflexivity|].
  destruct (str_eqb k k'); [right; left; reflexivity|].
  destruct IH as [IH|IH]; [left|right; right]; exact IH.
Qed.

Lemma seeded_choice_in seed opts c :
  opts <> [] -> _seeded_choice seed opts = Some c -> In c opts.
Proof.
  intros Hne. unfold _seeded_choice.
  assert (Hlen : N.of_nat (length opts) <> 0%N)
    by (destruct opts; [congruence|simpl; lia]).
  destruct opts as [|o opts]; [congruence|].
  remember (o :: opts) as l eqn:El.
  destruct (utf8_encode seed) as [bs|]; [|discriminate].
  generalize (Md5.hexdigest_int bs). intros h E.
  pose proof (N.mod_upper_bound h (N.of_nat (length l)) Hlen) as Hi.
  injection E as <-. apply nth_In. lia.
Qed.

Lemma cta_for_product_in product key c :
  _cta_for_product_var product key = Some c -> In c every_cta.
Proof.
  unfold _cta_for_product_var, every_cta. intros H.
  destruct (dict_get_cases cta_pools product cta_default) as [E|E].
  - rewrite E in H. apply in_or_app. right. apply in_or_app. left.
    apply seeded_choice_in in H; [exact H|discriminate].
  - apply in_or_app. left. apply in_concat.
    exists (dict_get cta_pools product cta_default). split; [exact E|].
    apply seeded_choice_in in H; [exact H|].
    revert E. generalize (dict_get cta_pools product cta_default).
    intros l Hl Hnil. subst l. vm_compute in Hl. intuition discriminate.
Qed.

Section WithTables.
Context {T : Tables} {L : TableLaws T}.

Lemma space_not_word : is_word 0x20 = false.
Proof.
  destruct (is_word 0x20) eqn:E; [|reflexivity].
  apply word_not_space in E. discriminate.
Qed.

(** A text that ends with [". " + cta + "."] carries a CTA for the
    pattern, whatever stands before. *)
Lemma appended_cta_found cta cleaned :
  begins_with_cta_word cta = true ->
  cta_finditer (cleaned ++ u ". " ++ cta ++ u ".") <> [].
Proof.
  intros H. unfold begins_with_cta_word in H.
  apply existsb_exists in H as (w & Hw & H).
  apply andb_true_iff in H as [Hs Hnext].
  pose proof cta_words_shape as Hshape.
  rewrite forallb_forall in Hshape. specialize (Hshape w Hw).
  destruct w as [|c0 w']; [discriminate|].
  destruct (last (c0 :: w')) as [d|] eqn:Elast; [|discriminate].
  apply andb_true_iff in Hshape as [Hc0 Hd].
  apply cyr_range in Hc0. apply cyr_range in Hd.
  apply startswith_split in Hs.
  set (rest := drop (length (c0 :: w')) cta) in *. clearbody rest.
  unfold cta_finditer.
  replace (cleaned ++ u ". " ++ cta ++ u ".")
    with ((cleaned ++ u ". ") ++ (c0 :: w') ++ (rest ++ u "."))
    by (rewrite Hs, <- !app_assoc; reflexivity).
  assert (Hprev : last_or None (cleaned ++ u ". ") = Some 0x20%N).
  { unfold last_or.
    replace (cleaned ++ u ". ") with ((cleaned ++ [0x2E%N]) ++ [0x20%N])
      by (rewrite <- app_assoc; reflexivity).
    rewrite last_snoc. reflexivity. }
  assert (Hm : is_Some (cta_match_at (Some 0x20%N) ((c0 :: w') ++ rest ++ u "."))).
  { unfold cta_match_at, boundary. simpl head. simpl word_at.
    rewrite space_not_word, (word_cyrillic c0 Hc0). cbn [xorb].
    apply (alt_then_boundary_some CTA_WORDS (c0 :: w') _ _
             (last_or (Some 0x20%N) (c0 :: w')) (rest ++ u ".")).
    - apply list_elem_of_In, Hw.
    - apply ilit_self.
    - unfold last_or. rewrite Elast. unfold boundary. simpl word_at.
      rewrite (word_cyrillic d Hd).
      destruct rest as [|r0 rest']; simpl.
      + change (is_word 46%N) with (is_word 0x2E%N).
        rewrite word_full_stop. reflexivity.
      + apply N.eqb_eq in Hnext. subst r0. rewrite space_not_word.
        reflexivity. }
  destruct Hm as [n Hm].
  apply (finditer_from_nonempty _ _ _ _ _ n); [discriminate|].
  rewrite Hprev. exact Hm.
Qed.

(** C3. [ensure_cta] is idempotent: for every product, text and key a
    second application returns what the first returned; a text that
    already carries a CTA is returned unchanged; and the result for a
    text that is not blank always carries a CTA, the appended product
    phrase being found by the pattern. *)
Theorem C3_ensure_cta_idempotent product text key :
  ensure_cta product (ensure_cta product text key) key
  = ensure_cta product text key
  /\ (cta_search text <> None -> ensure_cta product text key = text)
  /\ (strip text <> [] -> cta_search (ensure_cta product text key) <> None).
Proof.
  assert (Happ : forall k,
    strip text <> [] -> cta_search text = None ->
    exists cta cleaned,
      ensure_cta product text k = cleaned ++ u ". " ++ cta ++ u "."
      /\ begins_with_cta_word cta = true).
  { intros k Hs Hc. unfold ensure_cta.
    rewrite (bool_decide_eq_false_2 _ Hs).
    rewrite bool_decide_eq_false_2 by (rewrite Hc; auto).
    eexists _, _. split; [reflexivity|].
    pose proof every_cta_begins as Hall. rewrite forallb_forall in Hall.
    apply Hall.
    destruct (_cta_for_product_var product _) eqn:E.
    - eapply cta_for_product_in, E.
    - unfold every_cta. apply in_or_app. right. apply in_or_app. right.
      left. reflexivity. }
  assert (Hfound : strip text <> [] ->
            cta_search (ensure_cta product text key) <> None).
  { intros Hs. destruct (cta_search text) eqn:Hc.
    - unfold ensure_cta. rewrite (bool_decide_eq_false_2 _ Hs).
      rewrite bool_decide_eq_true_2 by (rewrite Hc; discriminate).
      rewrite Hc. discriminate.
    - destruct (Happ key Hs eq_refl) as (cta & cleaned & -> & Hb).
      unfold cta_search.
      pose proof (appended_cta_found cta cleaned Hb) as Hne.
      destruct (cta_finditer _); [congruence|discriminate]. }
  split; [|split].
  - destruct (decide (strip text = [])) as [Hs|Hs].
    + unfold ensure_cta at 2 3. rewrite (bool_decide_eq_true_2 _ Hs).
      unfold ensure_cta. rewrite (bool_decide_eq_true_2 _ Hs). reflexivity.
    + specialize (Hfound Hs).
      destruct (cta_search text) eqn:Hc.
      * unfold ensure_cta at 2 3. rewrite (bool_decide_eq_false_2 _ Hs).
        rewrite bool_decide_eq_true_2 by (rewrite Hc; discriminate).
        unfold ensure_cta. rewrite (bool_decide_eq_false_2 _ Hs).
        rewrite bool_decide_eq_true_2 by (rewrite Hc; discriminate).
        reflexivity.
      * destruct (Happ key Hs eq_refl) as (cta & cleaned & E & Hb).
        rewrite E in Hfound |- *.
        unfold ensure_cta.
        rewrite bool_decide_eq_false_2.
        -- rewrite (bool_decide_eq_true_2 _ Hfound). reflexivity.
        -- apply (strip_by_nonempty _ _ 0x2E%N); [|reflexivity].
           rewrite !elem_of_app. right. right. right.
           change (u ".") with [0x2E%N]. set_solver.
  - intros Hc. unfold ensure_cta.
    destruct (bool_decide (strip text = [])); [reflexivity|].
    rewrite (bool_decide_eq_true_2 _ Hc). reflexivity.
  - exact Hfound.
Qed.

Lemma ilit_first p w s prev r :
  ilit (p :: w) s prev = Some r -> exists c s', s = c :: s' /\ ieq p c = true.
Proof.
  simpl. destruct s as [|c s']; [discriminate|].
  destruct (ieq p c) eqn:E; [|discriminate].
  intros _. exists c, s'. split; [reflexivity|exact E].
Qed.

(** A CTA match begins with a word character. *)
Lemma cta_match_first prev b :
  is_Some (cta_match_at prev b) ->
  exists c b', b = c :: b' /\ is_space c = false.
Proof.
  intros [n H]. unfold cta_match_at in H.
  destruct (boundary prev (head b)); [|discriminate].
  apply alt_then_boundary_inv in H as (w & lastc & rest & Hw & Hl).
  pose proof cta_words_shape as Hshape.
  rewrite forallb_forall in Hshape.
  specialize (Hshape w (proj1 (list_elem_of_In _ _) Hw)).
  destruct w as [|c0 w']; [discriminate|].
  destruct (last (c0 :: w')); [|discriminate].
  apply andb_true_iff in Hshape as [Hc0 _]. apply cyr_range in Hc0.
  apply ilit_first in Hl as (c & b' & -> & E).
  exists c, b'. split; [reflexivity|].
  apply word_not_space, (ieq_cyrillic_word c0 c Hc0 E).
Qed.

(** The tail kept for a reported match begins with a character that is
    not white space and ends with one. *)
Lemma cta_tail_shape t start e :
  (start, e) ∈ cta_finditer t ->
  exists c tl z tl',
    cta_tail t start = c :: tl /\ is_space c = false
    /\ cta_tail t start = tl' ++ [z] /\ is_space z = false.
Proof.
  intros H. apply finditer_from_inv in H as (a & b & prev' & -> & -> & Hm).
  apply cta_match_first in Hm as (c & b' & -> & Hc).
  unfold cta_tail, slice_from, slice_index.
  replace (0 <=? Z.of_nat (0 + length a)) with true
    by (symmetry; apply Z.leb_le; lia).
  rewrite Nat2Z.id. simpl plus. rewrite drop_app_length.
  destruct (rstrip_by_head is_space c b' Hc) as [s' Es].
  unfold rstrip. rewrite Es.
  destruct (ends_terminal (c :: s')) eqn:Et.
  - unfold ends_terminal in Et.
    assert (Hz : exists z tl', c :: s' = tl' ++ [z] /\ is_space z = false).
    { apply orb_true_iff in Et as [Et|Et];
        [apply orb_true_iff in Et as [Et|Et]|];
        apply endswith_one in Et as [tl' Et];
        eexists _, tl'; (split; [exact Et|reflexivity]). }
    destruct Hz as (z & tl' & Ez & Hz).
    exists c, s', z, tl'. auto.
  - exists c, (s' ++ u "."), 0x2E%N, (c :: s'). auto.
Qed.









End WithTables.

End PushgenFacts.

Module PushgenExamples.

Import Re ReLaws Pushgen PushProps PushSamples PushgenFacts.

Example long_message_clamped_to_100 :
  _smart_clamp (T := basic) long_message 100
  = u "Айгерим, если часто в Алматы пользуетесь сервисами и такси — есть выгоднее. Оформить сейчас.".
Proof. vm_compute. reflexivity. Qed.

(** A text of 221 characters with its CTA at the end, clamped to 220:
    the head loses its last word, the CTA stays. *)
Example text_221_clamped :
  len text_221 = 221
  /\ _smart_clamp (T := basic) text_221 220
     = u "Айгерим, смотрим на последние траты и подбираем лучший продукт. С вашим остатком и тратами в ресторанах/косметике выгода выше. Повышенный кешбэк и экономия на комиссиях за переводы и снятия наличных… Оформить сейчас."
  /\ len (_smart_clamp (T := basic) text_221 220) = 216.
Proof. vm_compute. repeat split; reflexivity. Qed.


(** The ellipsis branch does not budget for the ellipsis: 227 characters
    clamped to 220 come back 221 long. *)
Example ellipsis_one_over :
  clamp_path_of (T := basic) unbroken_then_cta 220 = KeepsCta 212 None
  /\ len (_smart_clamp (T := basic) unbroken_then_cta 220) = 221.
Proof. vm_compute. split; reflexivity. Qed.


Lemma C3_ensure_cta_idempotent_witness :
  TableLaws basic
  /\ ensure_cta (T := basic) (u "Премиальная карта")
       (ensure_cta (T := basic) (u "Премиальная карта") (u "Привет, мир!  ") [])
       []
     = ensure_cta (T := basic) (u "Премиальная карта") (u "Привет, мир!  ") [].
Proof.
  split; [exact basic_laws|].
  exact (proj1 (C3_ensure_cta_idempotent (T := basic) (u "Премиальная карта")
                  (u "Привет, мир!  ") [])).
Defined.

Example ensure_cta_appends :
  ensure_cta (T := basic) (u "Премиальная карта") (u "Привет, мир!  ") []
  = u "Привет, мир. Подключить карту.".
Proof. vm_compute. reflexivity. Qed.

(** C8 fails on the code: the pattern [!{2,}] removes only adjacent
    marks.  For the client named [Анна!] of the city [Алматы!] the push
    for the premium card keeps both marks. *)
Theorem C8_two_exclamation_marks :
  generate_personalized_push (T := basic) (u "Премиальная карта") (u "Анна!")
    (Some (u "этом месяце")) empty_ctx (Some (student_in (u "Алматы!")))
    (Some 220)
  = Some (u "Анна!, если часто в Алматы! пользуетесь сервисами и такси — есть выгоднее. С вашим остатком и тратами в ресторанах/косметике (0 ₸) выгода выше. Базовый кешбэк и повышенный — на рестораны/косметику.. Оформить сейчас.")
  /\ option_map count_bang
       (generate_personalized_push (T := basic) (u "Премиальная карта")
          (u "Анна!") (Some (u "этом месяце")) empty_ctx
          (Some (student_in (u "Алматы!"))) (Some 220))
     = Some 2%nat.
Proof. vm_compute. split; reflexivity. Qed.

End PushgenExamples.

(** ** Ingestion *)

Module IngestFacts.

Import Re Pandas PySort Ingest IngestProps F64Facts StrFacts.

Lemma div_core_nonneg m1 e1 m2 e2 :
  0 <= m1 -> 0 < m2 ->
  0 <= fst (fst (SFdiv_core_binary prec emax m1 e1 m2 e2)).
Proof.
  intros H1 H2. unfold SFdiv_core_binary.
  set (s := _ - _ - Z.min _ _).
  set (m' := match s with Z.pos _ => Z.shiftl m1 s | 0 => m1 | Z.neg _ => 0 end).
  assert (Hm : 0 <= m').
  { subst m'. destruct s; try lia. apply Z.shiftl_nonneg. lia. }
  pose proof (Z_div_mod m' m2 ltac:(lia)) as Hd.
  destruct (Z.div_eucl m' m2) as [q r]. simpl.
  destruct Hd as [Hd Hr]. nia.
Qed.

Lemma of_decimal_nn n k : nn (of_decimal false n k).
Proof.
  unfold of_decimal. destruct n as [|m|m]; try exact I.
  pose proof (div_core_nonneg (Z.pos m) 0 (10 ^ Z.of_nat k) 0 ltac:(lia)
                ltac:(apply Z.pow_pos_nonneg; lia)) as H.
  destruct (SFdiv_core_binary _ _ _ _ _ _) as [[mz ez] lz]. simpl in H.
  apply binary_round_aux_nn, H.
Qed.

(** The reference conversion obeys the sign law. *)
Lemma model_unsigned_is_nonneg : unsigned_is_nonneg model.
Proof.
  intros s x H Hs _. simpl in H. unfold decimal_to_numeric, read_decimal in H.
  destruct s as [|c s]; [discriminate|].
  destruct (N.eqb_spec c 0x2D) as [->|_]; [exfalso; apply Hs; left|].
  destruct (read_digits (c :: s) 0 false None) as [[n k]|]; [|discriminate].
  injection H as <-. apply of_decimal_nn.
Qed.

Lemma clean_amount_spec raw : clean_amount raw = flat_map spec_clean_char raw.
Proof.
  unfold clean_amount, remove_char, replace_char, NBSP, str.
  change (u ".") with [0x2E%N].
  induction raw as [|c raw IH]; [reflexivity|].
  cbn [flat_map]. unfold spec_clean_char at 1.
  destruct (N.eqb_spec c 0xA0) as [->|H1]; [exact IH|].
  cbn [app flat_map].
  destruct (N.eqb_spec c 0x20) as [->|H2]; [exact IH|].
  cbn [app flat_map].
  destruct (N.eqb_spec c 0x2C) as [->|H3].
  - cbn [app]. rewrite filter_cons, IH.
    destruct (decide (amount_char 0x2E = true)) as [_|N]; [reflexivity|].
    exfalso. apply N. reflexivity.
  - cbn [app]. rewrite filter_cons, IH.
    destruct (decide (amount_char c = true)) as [E|E].
    + rewrite E. reflexivity.
    + apply not_true_is_false in E. rewrite E. reflexivity.
Qed.

Lemma clean_amount_chars raw :
  Forall (fun c => amount_char c = true) (clean_amount raw).
Proof.
  unfold clean_amount. apply Forall_forall. intros c Hc.
  apply list_elem_of_filter in Hc as [Hc _]. exact Hc.
Qed.

Lemma clean_amount_no_minus raw : 0x2D%N ∉ raw -> 0x2D%N ∉ clean_amount raw.
Proof.
  rewrite clean_amount_spec. intros H Hin.
  apply list_elem_of_In, in_flat_map in Hin as (c & Hc & Hin).
  apply list_elem_of_In in Hc.
  unfold spec_clean_char in Hin.
  destruct (c =? 0xA0)%N; [destruct Hin|].
  destruct (c =? 0x20)%N; [destruct Hin|].
  destruct (c =? 0x2C)%N; [destruct Hin as [Hin|[]]; discriminate|].
  destruct (amount_char c); [|destruct Hin].
  destruct Hin as [->|[]]. contradiction.
Qed.

(** C4, as the code has it. For every raw amount text the normaliser
    returns a float that is a number, never null and never an error: the
    text is cleaned character by character (non-breaking and ordinary
    spaces removed, commas turned into points, everything outside
    [0-9.-] removed), a cleaned text that does not parse gives exactly
    [0.0], and the amount is [>= 0] whenever the raw text holds no minus
    sign; the two normalisers of the sources agree. *)
Theorem C4_amount_normalised {P : Lib} raw :
  unsigned_is_nonneg P ->
  let x := _parse_amount raw in
  clean_amount raw = flat_map spec_clean_char raw
  /\ Forall (fun c => amount_char c = true) (clean_amount raw)
  /\ is_nan x = false
  /\ (to_numeric (clean_amount raw) = None -> x = zero)
  /\ (0x2D%N ∉ raw -> fge x zero = true)
  /\ _to_amount_safe [raw] = [x].
Proof.
  intros Hsign. cbv zeta. unfold _parse_amount, fillna_zero.
  split; [apply clean_amount_spec|]. split; [apply clean_amount_chars|].
  split; [|split; [|split]].
  - destruct (to_numeric _) as [x|]; [|reflexivity].
    destruct (is_nan x) eqn:E; [reflexivity|exact E].
  - intros ->. reflexivity.
  - intros Hm. apply nn_fge.
    destruct (to_numeric (clean_amount raw)) as [x|] eqn:E; [|exact I].
    destruct (is_nan x) eqn:En; [exact I|].
    apply (Hsign _ _ E); [apply clean_amount_no_minus, Hm|exact En].
  - reflexivity.
Qed.

(** C4, as stated, fails: the minus sign is kept by the cleaning, and
    [-5] is normalised to [-5.0], which is not [>= 0]. *)
Lemma C4_counterexample :
  _parse_amount (P := model) (u "-5") = SFopp (dec 5 0)
  /\ fge (_parse_amount (P := model) (u "-5")) zero = false
  /\ _to_amount_safe (P := model) [u "-5"] = [SFopp (dec 5 0)].
Proof. vm_compute. repeat split; reflexivity. Qed.

Lemma C4_amount_normalised_witness :
  (unsigned_is_nonneg model /\ 0x2D%N ∉ u "1 500,50 ₸")
  /\ fge (_parse_amount (P := model) (u "1 500,50 ₸")) zero = true.
Proof.
  assert (H : 0x2D%N ∉ u "1 500,50 ₸").
  { apply (bool_decide_eq_true_1 _). vm_compute. reflexivity. }
  split; [split; [exact model_unsigned_is_nonneg|exact H]|].
  apply (C4_amount_normalised (P := model) (u "1 500,50 ₸")
           model_unsigned_is_nonneg), H.
Defined.

Example amount_with_spaces_and_comma :
  _parse_amount (P := model) (u "1 500,50 ₸") = dec 15005 1.
Proof. vm_compute. reflexivity. Qed.

Example amount_unparseable_is_zero :
  map (_parse_amount (P := model)) [u "n/a"; u ""; u "1.2.3"; u "--5"; u "12-"]
  = [zero; zero; zero; zero; zero].
Proof. vm_compute. reflexivity. Qed.

Example amount_same_with_or_without_spaces :
  _parse_amount (P := model) (u "1 234 567,8")
  = _parse_amount (P := model) (u "1234567.8").
Proof. vm_compute. reflexivity. Qed.

(** *** Dates *)

(** C5, as the code has it. The parser of the batch ingestion,
    [_to_datetime_safe], always parses the column unconstrained first and
    parses it again day first exactly when the share of failed values is
    above 0.5 and the share of texts with a [D[D].M[M].YY[YY]] date is
    above 0.3 (both shares as float means), the second result replacing
    the first.  The parser of [read_data], [_parse_dates_series], makes
    one call only: day first when the share of such texts is at least
    0.5, unconstrained otherwise.  In both, a value that does not parse
    is the null time stamp of the library and nothing is raised. *)
Theorem C5_date_parsers {P : Lib} {T : Tables} (s : list str) :
  let failed := fgt (mean_bool (map isna (to_datetime false s))) lit_0_5 in
  let dotted := mean_bool (map contains_date s) in
  (exists rest, fst (_to_datetime_safe s) = Unconstrained :: rest)
  /\ (DayFirst ∈ fst (_to_datetime_safe s)
      <-> failed = true /\ fgt dotted lit_0_3 = true)
  /\ snd (_to_datetime_safe s)
     = to_datetime (failed && fgt dotted lit_0_3) s
  /\ fst (_parse_dates_series s)
     = (if fge dotted lit_0_5 then [DayFirst] else [Unconstrained])
  /\ snd (_parse_dates_series s) = to_datetime (fge dotted lit_0_5) s.
Proof.
  cbv zeta. unfold _to_datetime_safe, _parse_dates_series.
  destruct (fgt (mean_bool (map isna (to_datetime false s))) lit_0_5);
    destruct (fgt (mean_bool (map contains_date s)) lit_0_3);
    destruct (fge (mean_bool (map contains_date s)) lit_0_5);
    cbn [andb fst snd];
    (split; [eexists; reflexivity|]);
    (split; [|repeat split; reflexivity]);
    (split;
     [ intros H;
       first [ split; reflexivity
             | apply list_elem_of_singleton in H; discriminate ]
     | intros [? ?]; first [discriminate | right; left] ]).
Qed.

(** C5, as stated, fails for [_parse_dates_series]: on the column
    [01.02.2023] the unconstrained parse would succeed (2 January, no
    value fails), yet the parser does not attempt it and reads the
    column day first (1 February); [_to_datetime_safe] keeps the
    unconstrained result. *)
Lemma C5_counterexample :
  let s := [u "01.02.2023"] in
  @to_datetime model false s = [Some jan_2_2023]
  /\ _parse_dates_series (P := model) (T := basic) s
     = ([DayFirst], [Some feb_1_2023])
  /\ _to_datetime_safe (P := model) (T := basic) s
     = ([Unconstrained], [Some jan_2_2023]).
Proof. vm_compute. repeat split; reflexivity. Qed.

(** Six of ten values carry a day above 12, after four values that can
    be read month first: the unconstrained parse loses the six and the
    retry recovers them. *)
Example day_first_retry :
  let s := repeat (u "01.02.2023") 4 ++ repeat (u "25.12.2023") 6 in
  _to_datetime_safe (P := model) (T := basic) s
  = ([Unconstrained; DayFirst],
     repeat (Some feb_1_2023) 4 ++ repeat (Some 1703462400000000000) 6).
Proof. vm_compute. reflexivity. Qed.

(** The thresholds are strict: exactly half of the values failing does
    not trigger the retry. *)
Example half_failed_no_retry :
  let s := repeat (u "01.02.2023") 5 ++ repeat (u "25.12.2023") 5 in
  fst (_to_datetime_safe (P := model) (T := basic) s) = [Unconstrained].
Proof. vm_compute. reflexivity. Qed.

(** *** Client identifiers *)

Lemma insert_asc_perm {A K : Type} (key : A -> K) lt x l :
  insert_asc key lt x l ≡ₚ x :: l.
Proof.
  induction l as [|y l IH]; simpl; [reflexivity|].
  destruct (lt (key y) (key x)); [|reflexivity].
  rewrite IH. apply Permutation_swap.
Qed.

Lemma sorted_asc_perm {A K : Type} (key : A -> K) lt l :
  sorted_asc key lt l ≡ₚ l.
Proof.
  induction l as [|x l IH]; simpl; [reflexivity|].
  rewrite insert_asc_perm, IH. reflexivity.
Qed.

Lemma drop_duplicates_subset {R K : Type} `{EqDecision K} (cells : R -> K)
    (rows : list R) r :
  r ∈ drop_duplicates cells rows -> r ∈ rows.
Proof.
  induction rows as [|x rows IH]; simpl; [auto|].
  intros [->|H]%elem_of_cons; [left|right].
  apply list_elem_of_filter in H as [_ H]. apply IH, H.
Qed.

Lemma sequence_Some {X : Type} (l : list (option X)) r :
  sequence l = Some r -> l = map Some r.
Proof.
  revert r. induction l as [|[x|] l IH]; intros r; simpl; try discriminate.
  - intros [= <-]. reflexivity.
  - destruct (sequence l) as [r'|]; [|discriminate].
    intros [= <-]. simpl. f_equal. apply IH. reflexivity.
Qed.

Section Clients.
Context {P : Lib} {T : Tables}.

Lemma tx_part_clients df part :
  tx_part df = Some part -> Forall (fun r => is_Some (client_code r)) part.
Proof.
  unfold tx_part. destruct (_cast_client_code _); [|discriminate].
  intros [= <-]. apply Forall_forall. intros r Hr.
  apply list_elem_of_filter in Hr as [Hr _].
  destruct (client_code r); [eexists; reflexivity|discriminate].
Qed.

Lemma tr_part_clients df part :
  tr_part df = Some part -> Forall (fun r => is_Some (t_client_code r)) part.
Proof.
  unfold tr_part. destruct (_cast_client_code _); [|discriminate].
  intros [= <-]. apply Forall_forall. intros r Hr.
  apply list_elem_of_filter in Hr as [Hr _].
  destruct (t_client_code r); [eexists; reflexivity|discriminate].
Qed.

Lemma parts_clients {Raw Row : Type} (part : list Raw -> option (list Row))
    (code : Row -> option Z) files parts :
  (forall df p, part df = Some p -> Forall (fun r => is_Some (code r)) p) ->
  sequence (map part files) = Some parts ->
  Forall (fun r => is_Some (code r)) (concat parts).
Proof.
  intros Hpart. revert parts.
  induction files as [|df files IH]; intros parts; simpl.
  - intros [= <-]. constructor.
  - destruct (part df) as [p|] eqn:E; [|discriminate].
    destruct (sequence (map part files)) as [ps|]; [|discriminate].
    intros [= <-]. simpl. apply Forall_app. split; [eapply Hpart, E|].
    apply IH. reflexivity.
Qed.

(** The tables that [build_data.main] writes hold only rows with a
    client code. *)
Lemma main_transactions_clients files rows :
  main_transactions files = Some rows ->
  Forall (fun r => is_Some (client_code r)) rows.
Proof.
  unfold main_transactions.
  destruct (sequence (map tx_part files)) as [parts|] eqn:E; [|discriminate].
  intros [= <-]. rewrite sorted_asc_perm.
  pose proof (parts_clients tx_part client_code files parts tx_part_clients E) as H.
  rewrite Forall_forall in *. intros r Hr.
  apply H, (drop_duplicates_subset tx_cells), Hr.
Qed.

Lemma main_transfers_clients files rows :
  main_transfers files = Some rows ->
  Forall (fun r => is_Some (t_client_code r)) rows.
Proof.
  unfold main_transfers.
  destruct (sequence (map tr_part files)) as [parts|] eqn:E; [|discriminate].
  intros [= <-]. rewrite sorted_asc_perm.
  pose proof (parts_clients tr_part t_client_code files parts tr_part_clients E) as H.
  rewrite Forall_forall in *. intros r Hr.
  apply H, (drop_duplicates_subset tr_cells), Hr.
Qed.

End Clients.

(** C9 fails on [read_data]: of two purchases, the second with the
    client identifier [abc], [read_data] keeps both rows, the second with
    a null client code, while the batch ingestion of [build_data.main]
    drops the second row. *)
Theorem C9_read_data_keeps_null_client :
  option_map (map client_code)
    (read_data_tx (P := model) (T := basic) two_purchases)
  = Some [Some 7; None]
  /\ option_map (map client_code)
       (main_transactions (P := model) (T := basic) [two_purchases])
     = Some [Some 7].
Proof. vm_compute. split; reflexivity. Qed.

(** An identifier that is a number but not an integer makes the cast to
    [Int64] raise, in both paths. *)
Example fractional_client_code_raises :
  read_data_tx (P := model) (T := basic) [purchase_of (u "1.5")] = None
  /\ main_transactions (P := model) (T := basic) [[purchase_of (u "1.5")]] = None.
Proof. vm_compute. split; reflexivity. Qed.

End IngestFacts.
(** ** Subtraction of clock readings *)

Module F64Exact.

Lemma digits2_size m : digits2_pos m = Pos.size m.
Proof. induction m; simpl; congruence. Qed.

Lemma digits2_le m k : 0 <= k -> Zpos m < 2 ^ k -> Zpos (digits2_pos m) <= k.
Proof.
  intros Hk H. rewrite digits2_size.
  pose proof (Pos.size_le m) as Hs.
  assert (H2 : 2 ^ Zpos (Pos.size m) <= 2 * Zpos m).
  { change (2 * Z.pos m) with (Zpos (m~0)).
    rewrite <- Pos2Z.inj_pow. apply Pos2Z.pos_le_pos. exact Hs. }
  destruct (Z_le_gt_dec (Zpos (Pos.size m)) k) as [|Hgt]; [assumption|].
  exfalso.
  assert (2 ^ (k + 1) <= 2 ^ Zpos (Pos.size m))
    by (apply Z.pow_le_mono_r; lia).
  rewrite Z.pow_add_r in H0 by lia. lia.
Qed.

Lemma digits2_gt m : Zpos m < 2 ^ Zpos (digits2_pos m).
Proof.
  rewrite digits2_size. pose proof (Pos.size_gt m) as H.
  rewrite <- Pos2Z.inj_pow. apply Pos2Z.pos_lt_pos. exact H.
Qed.

Lemma iter_xO_value m d : Zpos (Pos.iter xO m d) = Zpos m * 2 ^ Zpos d.
Proof.
  induction d using Pos.peano_ind.
  - change (Pos.iter xO m 1) with (m~0)%positive. change (2 ^ 1) with 2. lia.
  - rewrite Pos.iter_succ, Pos2Z.inj_succ, Z.pow_succ_r by lia.
    rewrite Pos2Z.inj_xO, IHd. lia.
Qed.

Lemma iter_xO_digits m d :
  Zpos (digits2_pos (Pos.iter xO m d)) = Zpos (digits2_pos m) + Zpos d.
Proof.
  induction d using Pos.peano_ind.
  - simpl. lia.
  - rewrite Pos.iter_succ. simpl digits2_pos.
    rewrite Pos2Z.inj_succ, IHd. lia.
Qed.

(** What [shl_align] returns when the target exponent is not above. *)
Lemma shl_align_value m e e' :
  e' <= e ->
  let '(m', e'') := shl_align m e e' in
  e'' = e' /\ Zpos m' = Zpos m * 2 ^ (e - e')
  /\ Zpos (digits2_pos m') = Zpos (digits2_pos m) + (e - e').
Proof.
  intros H. unfold shl_align.
  destruct (e' - e) as [|p|p] eqn:E; try lia.
  - assert (e' = e) by lia. subst. rewrite Z.sub_diag. simpl. lia.
  - assert (Hd : e - e' = Zpos p) by lia. rewrite Hd.
    split; [reflexivity|]. split; [apply iter_xO_value|apply iter_xO_digits].
Qed.

(** Rounding a value that fits the format returns it. *)
Lemma binary_round_exact m e :
  Zpos m < 2 ^ 53 -> -1074 <= e <= 971 ->
  exists m' e', binary_round prec emax false m e = S754_finite false m' e'
    /\ e' <= e /\ Zpos m' = Zpos m * 2 ^ (e - e').
Proof.
  intros Hm He. unfold binary_round.
  pose proof (digits2_le m 53 ltac:(lia) Hm) as Hd.
  set (e1 := fexp prec emax (Zpos (digits2_pos m) + e)).
  assert (He1 : e1 <= e /\ -1074 <= e1).
  { unfold e1, fexp, emin, prec, emax. lia. }
  pose proof (shl_align_value m e e1 (proj1 He1)) as Hs.
  destruct (shl_align m e e1) as [mz ez]. destruct Hs as (-> & Hv & Hdig).
  assert (Hf : fexp prec emax (Zpos (digits2_pos mz) + e1) = e1).
  { rewrite Hdig. replace (Zpos (digits2_pos m) + (e - e1) + e1)
      with (Zpos (digits2_pos m) + e) by lia. reflexivity. }
  unfold binary_round_aux, shr_fexp. cbn [Zdigits2 shr_record_of_loc].
  rewrite Hf, Z.sub_diag. cbn [shr shr_m loc_of_shr_record round_nearest_even].
  cbn [Zdigits2 shr_record_of_loc]. rewrite Hf, Z.sub_diag. cbn [shr shr_m].
  replace (e1 <=? emax - prec) with true
    by (symmetry; apply Z.leb_le; unfold emax, prec; lia).
  exists mz, e1. split; [reflexivity|]. split; [lia|exact Hv].
Qed.

Lemma pow2_pos e : (0 < 2 ^ e)%Q.
Proof. apply Qpower_0_lt. reflexivity. Qed.

Lemma pow2_split a b : 0 <= a -> (inject_Z (2 ^ a) * 2 ^ b == 2 ^ (a + b))%Q.
Proof.
  intros Ha. rewrite Zpower_Qpower by exact Ha.
  rewrite Qpower_plus by discriminate. reflexivity.
Qed.

Lemma scaled_value M a b :
  0 <= a -> (inject_Z (M * 2 ^ a) * 2 ^ b == inject_Z M * 2 ^ (a + b))%Q.
Proof.
  intros Ha. rewrite inject_Z_mult, <- Qmult_assoc, pow2_split by exact Ha.
  reflexivity.
Qed.

Lemma bounded_range m e :
  bounded prec emax m e = true -> Zpos m < 2 ^ 53 /\ -1074 <= e <= 971.
Proof.
  unfold bounded, canonical_mantissa, fexp, emin, prec, emax.
  intros [H1 H2]%andb_true_iff. apply Z.eqb_eq in H1. apply Z.leb_le in H2.
  assert (Hd : Zpos (digits2_pos m) <= 53) by lia.
  split; [|lia].
  eapply Z.lt_le_trans; [apply digits2_gt|].
  apply Z.pow_le_mono_r; lia.
Qed.

Lemma reading_inv x :
  reading x = true ->
  exists m e, x = S754_finite false m e /\ Zpos m < 2 ^ 53 /\ -1074 <= e <= 971.
Proof.
  destruct x as [| | |[] m e]; try discriminate. intros H.
  exists m, e. split; [reflexivity|]. apply bounded_range, H.
Qed.

(** The subtraction of two clock readings that are less than a factor
    two apart is exact. *)
Lemma fsub_exact x y :
  reading x = true -> reading y = true ->
  (to_Q y <= to_Q x)%Q -> (to_Q x <= 2 * to_Q y)%Q ->
  (exists s, fsub x y = S754_zero s \/ exists m e, fsub x y = S754_finite s m e)
  /\ (to_Q (fsub x y) == to_Q x - to_Q y)%Q.
Proof.
  intros (mx & ex & -> & Hmx & Hex)%reading_inv
         (my & ey & -> & Hmy & Hey)%reading_inv Hle Hle2.
  unfold fsub, SFsub, to_Q in *. cbn [cond_Zopp] in *.
  set (ez := Z.min ex ey).
  pose proof (shl_align_value mx ex ez ltac:(lia)) as Hx.
  pose proof (shl_align_value my ey ez ltac:(lia)) as Hy.
  destruct (shl_align mx ex ez) as [mx' ex'], (shl_align my ey ez) as [my' ey'].
  destruct Hx as (_ & Hx & _), Hy as (_ & Hy & _). cbn [fst].
  assert (Qx : (inject_Z (Zpos mx) * 2 ^ ex == inject_Z (Zpos mx') * 2 ^ ez)%Q).
  { rewrite Hx, scaled_value by lia. replace (ex - ez + ez) with ex by lia.
    reflexivity. }
  assert (Qy : (inject_Z (Zpos my) * 2 ^ ey == inject_Z (Zpos my') * 2 ^ ez)%Q).
  { rewrite Hy, scaled_value by lia. replace (ey - ez + ez) with ey by lia.
    reflexivity. }
  rewrite Qx, Qy in Hle, Hle2 |- *.
  apply Qmult_le_r in Hle; [|apply pow2_pos]. rewrite <- Zle_Qle in Hle.
  rewrite Qmult_assoc in Hle2.
  apply Qmult_le_r in Hle2; [|apply pow2_pos].
  change 2%Q with (inject_Z 2) in Hle2.
  rewrite <- inject_Z_mult, <- Zle_Qle in Hle2.
  assert (Hpow : forall k, 0 <= k -> 1 <= 2 ^ k).
  { intros k Hk. change 1 with (2 ^ 0). apply Z.pow_le_mono_r; lia. }
  assert (HM : 0 <= Zpos mx' - Zpos my' < 2 ^ 53).
  { split; [lia|].
    destruct (Z_le_gt_dec ey ex) as [Hc|Hc].
    - assert (ey - ez = 0) by lia. rewrite H, Z.mul_1_r in Hy. lia.
    - assert (ex - ez = 0) by lia. rewrite H, Z.mul_1_r in Hx. lia. }
  assert (Hez : -1074 <= ez <= 971) by lia.
  assert (Qd : (inject_Z (Zpos mx') * 2 ^ ez - inject_Z (Zpos my') * 2 ^ ez
                == inject_Z (Zpos mx' - Zpos my') * 2 ^ ez)%Q).
  { unfold Z.sub at 1. rewrite inject_Z_plus, inject_Z_opp. ring. }
  rewrite Qd. clear Qd Qx Qy Hle Hle2 Hx Hy.
  revert HM. generalize (Zpos mx' - Zpos my'). intros M HM.
  unfold binary_normalize. destruct M as [|m|m]; [| |lia].
  - split; [exists false; left; reflexivity|]. ring.
  - destruct (binary_round_exact m ez (proj2 HM) Hez) as (m' & e' & -> & He' & Hv).
    split; [exists false; right; eauto|].
    cbn [cond_Zopp]. rewrite Hv, scaled_value by lia.
    replace (ez - e' + e') with ez by lia. reflexivity.
Qed.

(** So the test [now - ts < n] of two such readings is the test on the
    exact difference. *)
Lemma float_lt_int_fsub x y n :
  reading x = true -> reading y = true ->
  (to_Q y <= to_Q x)%Q -> (to_Q x <= 2 * to_Q y)%Q ->
  (to_Q x - to_Q y < inject_Z n)%Q ->
  float_lt_int (fsub x y) n = true.
Proof.
  intros Hx Hy H1 H2 Hlt.
  destruct (fsub_exact x y Hx Hy H1 H2) as ((s & Hs) & Hv).
  rewrite <- Hv in Hlt. unfold float_lt_int.
  destruct Hs as [E|(m & e & E)]; rewrite E in Hlt |- *;
    (destruct (Qlt_le_dec _ _) as [_|Hge]; [reflexivity|];
     exfalso; apply (Qlt_not_le _ _ Hlt Hge)).
Qed.

End F64Exact.

(** ** The anti-spam gate *)

Module AntiSpamFacts.

Import Re AntiSpam SpamSamples F64Exact.

Section Gate.
Context {T : Tables}.

Lemma can_send_false now m c cta product mh m' :
  can_send now m c cta product mh = (false, m') -> m' = m.
Proof.
  unfold can_send. destruct (m !! c) as [last|]; [|discriminate].
  destruct (float_lt_int _ _); [intros [= <-]; reflexivity|].
  destruct (bool_decide _); [intros [= <-]; reflexivity|discriminate].
Qed.

Lemma can_send_true now m c cta product mh m' :
  can_send now m c cta product mh = (true, m') ->
  m' = <[c := {| ts := now; last_cta := cta; last_product := product |}]> m.
Proof.
  unfold can_send. destruct (m !! c) as [last|]; [|intros [= <-]; reflexivity].
  destruct (float_lt_int _ _); [discriminate|].
  destruct (bool_decide _); [discriminate|intros [= <-]; reflexivity].
Qed.

(** When the difference that the code computes is below the cooldown the
    answer is [False]. *)
Lemma can_send_cooldown now m c cta product mh e :
  m !! c = Some e -> float_lt_int (fsub now (ts e)) (mh * 3600) = true ->
  fst (can_send now m c cta product mh) = false.
Proof.
  intros E H. unfold can_send. rewrite E, H. reflexivity.
Qed.

(** The CTA of the recorded send is refused at any time. *)
Lemma can_send_same_cta now m c cta product mh e :
  m !! c = Some e -> norm_cta cta = norm_cta (last_cta e) ->
  fst (can_send now m c cta product mh) = false.
Proof.
  intros E H. unfold can_send. rewrite E.
  destruct (float_lt_int _ _); [reflexivity|].
  rewrite (bool_decide_eq_true_2 _ H). reflexivity.
Qed.

Lemma run_app m a b : run m (a ++ b) = run m a ++ run (exec m a) b.
Proof.
  revert m. induction a as [|c a IH]; intros m; simpl; [reflexivity|].
  destruct (can_send _ _ _ _ _ _) as [ok m']. simpl. rewrite IH. reflexivity.
Qed.

Lemma exec_app m a b : exec m (a ++ b) = exec (exec m a) b.
Proof.
  revert m. induction a as [|c a IH]; intros m; simpl; [reflexivity|apply IH].
Qed.

Lemma run_length m l : length (run m l) = length l.
Proof.
  revert m. induction l as [|c l IH]; intros m; simpl; [reflexivity|].
  destruct (can_send _ _ _ _ _ _) as [ok m']. simpl. rewrite IH. reflexivity.
Qed.

Lemma run_head m c rest :
  run m (c :: rest) !! 0%nat
  = Some (fst (can_send (at_time c) m (who c) (req_cta c) (req_product c)
                 (req_min_hours c))).
Proof. simpl. destruct (can_send _ _ _ _ _ _). reflexivity. Qed.

(** The time recorded for a client is the clock value of one of the
    calls: what holds of the time recorded and of the clock values of
    the calls holds of the time recorded afterwards. *)
Lemma exec_keeps (P : spec_float -> Prop) m mid c :
  Forall (fun ck => P (at_time ck)) mid ->
  (exists e, m !! c = Some e /\ P (ts e)) ->
  exists e, exec m mid !! c = Some e /\ P (ts e).
Proof.
  intros Hmid. revert m. induction Hmid as [|ck mid Hck _ IH]; intros m He;
    [exact He|].
  simpl. apply IH.
  destruct (can_send (at_time ck) m (who ck) (req_cta ck) (req_product ck)
              (req_min_hours ck)) as [[|] m'] eqn:E; simpl.
  - apply can_send_true in E as ->.
    destruct (decide (who ck = c)) as [<-|Hne].
    + rewrite lookup_insert_eq. eexists. split; [reflexivity|exact Hck].
    + rewrite lookup_insert_ne by exact Hne. exact He.
  - apply can_send_false in E as ->. exact He.
Qed.

(** While every call for the client is refused, its record stays. *)
Lemma exec_frozen m mid c e :
  m !! c = Some e ->
  (forall (k : nat) ck, mid !! k = Some ck -> who ck = c ->
     run m mid !! k = Some false) ->
  exec m mid !! c = Some e.
Proof.
  revert m. induction mid as [|ck mid IH]; intros m He Hmid; [exact He|].
  simpl.
  pose proof (run_head m ck mid) as Hhead.
  assert (Hrest : run m (ck :: mid) = fst (can_send (at_time ck) m
            (who ck) (req_cta ck) (req_product ck) (req_min_hours ck))
            :: run (snd (can_send (at_time ck) m (who ck) (req_cta ck)
                           (req_product ck) (req_min_hours ck))) mid).
  { simpl. destruct (can_send _ _ _ _ _ _). reflexivity. }
  destruct (can_send (at_time ck) m (who ck) (req_cta ck) (req_product ck)
              (req_min_hours ck)) as [[|] m'] eqn:E; simpl in *.
  - apply can_send_true in E as ->.
    destruct (decide (who ck = c)) as [Hc|Hne].
    + specialize (Hmid 0%nat ck eq_refl Hc). rewrite Hhead in Hmid. discriminate.
    + apply IH; [rewrite lookup_insert_ne by exact Hne; exact He|].
      intros k ck' Hk Hw. specialize (Hmid (S k) ck' Hk Hw).
      rewrite Hrest in Hmid. exact Hmid.
  - apply can_send_false in E as ->. apply IH; [exact He|].
    intros k ck' Hk Hw. specialize (Hmid (S k) ck' Hk Hw).
    rewrite Hrest in Hmid. exact Hmid.
Qed.

Lemma StronglySorted_suffix {X : Type} (R : X -> X -> Prop) a b :
  StronglySorted R (a ++ b) -> StronglySorted R b.
Proof.
  induction a as [|x a IH]; simpl; [auto|].
  intros H. apply StronglySorted_inv in H as [H _]. apply IH, H.
Qed.

Lemma StronglySorted_before {X : Type} (R : X -> X -> Prop) a x b :
  StronglySorted R (a ++ x :: b) -> Forall (fun y => R y x) a.
Proof.
  induction a as [|y a IH]; simpl; intros H; [constructor|].
  apply StronglySorted_inv in H as [H Hy]. constructor; [|apply IH, H].
  rewrite Forall_forall in Hy. apply Hy. set_solver.
Qed.

(** C10. Along any sequence of calls whose clock values are positive
    numbers and do not run backwards: if a call for a client is answered
    [True] at a clock value of at least the cooldown ([min_hours * 3600]
    seconds, so that the difference of two clock values less than a
    cooldown apart is computed exactly), then every later call for that
    client made less than its [min_hours] after that call is answered
    [False]; and as long as no call for the client has been answered
    [True] in between, a later call whose CTA equals the CTA of that
    send after trimming and lowering is answered [False], whatever time
    has passed and whatever the clock shows. *)
Theorem C10_can_send_rate_limit m pre ci mid cj post :
  let calls := pre ++ ci :: mid ++ cj :: post in
  let i := length pre in
  let j := (length pre + 1 + length mid)%nat in
  let cooldown := inject_Z (req_min_hours cj * 3600) in
  who cj = who ci ->
  run m calls !! i = Some true ->
  (clock_readings calls -> clock_monotone calls ->
   (cooldown <= to_Q (at_time ci))%Q ->
   (to_Q (at_time cj) - to_Q (at_time ci) < cooldown)%Q ->
     run m calls !! j = Some false)
  /\ ((forall (k : nat) ck, mid !! k = Some ck -> who ck = who ci ->
         run m calls !! (i + 1 + k)%nat = Some false) ->
      norm_cta (req_cta cj) = norm_cta (req_cta ci) ->
      run m calls !! j = Some false).
Proof.
  cbv zeta. intros Hwho Hi.
  set (m1 := exec m pre).
  assert (Hrun : run m (pre ++ ci :: mid ++ cj :: post)
                 = run m pre ++ run m1 (ci :: mid ++ cj :: post))
    by apply run_app.
  rewrite Hrun in *.
  rewrite lookup_app_r in Hi by (rewrite run_length; lia).
  rewrite run_length, Nat.sub_diag, run_head in Hi.
  destruct (can_send (at_time ci) m1 (who ci) (req_cta ci) (req_product ci)
              (req_min_hours ci)) as [ok m2] eqn:Ei.
  simpl in Hi. injection Hi as ->.
  pose proof (can_send_true _ _ _ _ _ _ _ Ei) as Hm2.
  assert (Hrun2 : run m1 (ci :: mid ++ cj :: post)
                  = true :: run m2 mid ++ run (exec m2 mid) (cj :: post)).
  { simpl. rewrite Ei. rewrite run_app. reflexivity. }
  assert (Hj : forall b,
            fst (can_send (at_time cj) (exec m2 mid) (who cj) (req_cta cj)
                   (req_product cj) (req_min_hours cj)) = b ->
            (run m pre ++ run m1 (ci :: mid ++ cj :: post))
              !! (length pre + 1 + length mid)%nat = Some b).
  { intros b Hb. rewrite lookup_app_r by (rewrite run_length; lia).
    rewrite run_length, Hrun2.
    replace (length pre + 1 + length mid - length pre)%nat
      with (S (length mid)) by lia.
    rewrite lookup_cons. cbv beta iota.
    rewrite lookup_app_r by (rewrite run_length; lia).
    rewrite run_length, Nat.sub_diag, run_head, Hb. reflexivity. }
  assert (Hentry : m2 !! who ci
            = Some {| ts := at_time ci; last_cta := req_cta ci;
                      last_product := req_product ci |}).
  { rewrite Hm2. apply lookup_insert_eq. }
  split.
  - intros Hread Hclock Hrange Hclose. apply Hj.
    unfold clock_readings in Hread. unfold clock_monotone in Hclock.
    apply Forall_app in Hread as [_ Hread].
    apply Forall_cons in Hread as [Hri Hread].
    apply Forall_app in Hread as [Hrmid Hread].
    apply Forall_cons in Hread as [Hrj _].
    apply StronglySorted_suffix in Hclock.
    apply StronglySorted_inv in Hclock as [Hsorted Hall].
    apply Forall_app in Hall as [Hafter Hall].
    apply Forall_cons in Hall as [Hij _].
    apply StronglySorted_before in Hsorted.
    set (P := fun t => reading t = true
                       /\ (to_Q (at_time ci) <= to_Q t)%Q
                       /\ (to_Q t <= to_Q (at_time cj))%Q).
    assert (Hmid : Forall (fun ck => P (at_time ck)) mid).
    { apply Forall_forall. intros ck Hck. rewrite Forall_forall in *.
      split; [apply Hrmid, Hck|]. split; [apply Hafter, Hck|apply Hsorted, Hck]. }
    destruct (exec_keeps P m2 mid (who ci) Hmid) as (e & He & Hre & Hlo & Hhi).
    { eexists. split; [exact Hentry|]. cbn [ts].
      split; [exact Hri|]. split; [apply Qle_refl|exact Hij]. }
    rewrite Hwho. eapply can_send_cooldown; [exact He|].
    apply float_lt_int_fsub; [exact Hrj|exact Hre|exact Hhi| |].
    + revert Hrange Hclose Hlo Hhi.
      generalize (inject_Z (req_min_hours cj * 3600)),
        (to_Q (at_time ci)), (to_Q (at_time cj)), (to_Q (ts e)).
      intros B ti tj t. lra.
    + revert Hrange Hclose Hlo Hhi.
      generalize (inject_Z (req_min_hours cj * 3600)),
        (to_Q (at_time ci)), (to_Q (at_time cj)), (to_Q (ts e)).
      intros B ti tj t. lra.
  - intros Hquiet Hsame. apply Hj. rewrite Hwho.
    apply (can_send_same_cta _ _ _ _ _ _
             {| ts := at_time ci; last_cta := req_cta ci;
                last_product := req_product ci |}); [|exact Hsame].
    apply exec_frozen; [exact Hentry|].
    intros k ck Hk Hw. specialize (Hquiet k ck Hk Hw).
    rewrite lookup_app_r in Hquiet by (rewrite run_length; lia).
    rewrite run_length, Hrun2 in Hquiet.
    replace (length pre + 1 + k - length pre)%nat with (S k) in Hquiet by lia.
    rewrite lookup_cons in Hquiet. cbv beta iota in Hquiet.
    rewrite lookup_app_l in Hquiet; [exact Hquiet|].
    rewrite run_length. eapply lookup_lt_Some, Hk.
Qed.

End Gate.

Example three_calls :
  run (T := basic) ∅ [first_call; hour_later; three_days_later]
  = [true; false; false].
Proof. vm_compute. reflexivity. Qed.

Lemma C10_can_send_rate_limit_witness :
  (who hour_later = who first_call
   /\ run (T := basic) ∅ [first_call; hour_later; three_days_later] !! 0%nat
      = Some true
   /\ clock_readings [first_call; hour_later; three_days_later]
   /\ clock_monotone [first_call; hour_later; three_days_later]
   /\ (inject_Z (req_min_hours hour_later * 3600)
       <= to_Q (at_time first_call))%Q
   /\ (to_Q (at_time hour_later) - to_Q (at_time first_call)
       < inject_Z (req_min_hours hour_later * 3600))%Q)
  /\ run (T := basic) ∅ [first_call; hour_later; three_days_later] !! 1%nat
     = Some false.
Proof.
  assert (H1 : clock_monotone [first_call; hour_later; three_days_later]).
  { unfold clock_monotone. repeat constructor; vm_compute; discriminate. }
  assert (H0 : clock_readings [first_call; hour_later; three_days_later]).
  { unfold clock_readings. repeat constructor. }
  assert (H2 : who hour_later = who first_call) by (vm_compute; reflexivity).
  assert (H3 : run (T := basic) ∅ [first_call; hour_later; three_days_later]
               !! 0%nat = Some true) by (vm_compute; reflexivity).
  assert (H4 : (to_Q (at_time hour_later) - to_Q (at_time first_call)
                < inject_Z (req_min_hours hour_later * 3600))%Q)
    by (vm_compute; reflexivity).
  assert (H5 : (inject_Z (req_min_hours hour_later * 3600)
                <= to_Q (at_time first_call))%Q)
    by (vm_compute; discriminate).
  split; [exact (conj H2 (conj H3 (conj H0 (conj H1 (conj H5 H4)))))|].
  exact (proj1 (C10_can_send_rate_limit (T := basic) ∅ [] first_call []
                  hour_later [three_days_later] H2 H3) H0 H1 H5 H4).
Defined.

(** C10, as stated, fails for a clock that starts at the epoch: the
    second call is made less than 48 hours after the first one, which
    was answered [True]; the float difference [172800.0 - 1e-12] is
    rounded to [172800.0], which is not below the cooldown, and the
    second call is answered [True] as well. *)
Lemma C10_counterexample :
  clock_readings [at_the_epoch; two_days_on]
  /\ clock_monotone [at_the_epoch; two_days_on]
  /\ who two_days_on = who at_the_epoch
  /\ (to_Q (at_time two_days_on) - to_Q (at_time at_the_epoch)
      < inject_Z (req_min_hours two_days_on * 3600))%Q
  /\ fsub (at_time two_days_on) (at_time at_the_epoch) = dec 172800 0
  /\ run (T := basic) ∅ [at_the_epoch; two_days_on] = [true; true].
Proof.
  split; [unfold clock_readings; repeat constructor|].
  split; [unfold clock_monotone; repeat constructor; vm_compute; discriminate|].
  split; [vm_compute; reflexivity|].
  split; [vm_compute; reflexivity|].
  split; vm_compute; reflexivity.
Qed.

End AntiSpamFacts.

(* ===================================================================== *)
(** * Part III. Further properties of the code                            *)
(* ===================================================================== *)

(** ** More on strings *)

Module StrFacts2.

Import StrFacts.

Lemma lstrip_by_app_stop p x z y :
  p z = false -> lstrip_by p (x ++ z :: y) = lstrip_by p x ++ z :: y.
Proof.
  intros H. induction x as [|c x IH]; simpl; [rewrite H; reflexivity|].
  destruct (p c); [exact IH|reflexivity].
Qed.

(** Stripping on the right leaves a prefix. *)
Lemma rstrip_by_prefix p s : exists suf, s = rstrip_by p s ++ suf.
Proof.
  unfold rstrip_by. destruct (lstrip_by_suffix p (rev s)) as [pre E].
  exists (rev pre). rewrite <- rev_app_distr, <- E, rev_involutive. reflexivity.
Qed.

Lemma rstrip_by_app_keep p a z b :
  last a = Some z -> p z = false ->
  rstrip_by p (a ++ b) = a ++ rstrip_by p b.
Proof.
  intros Hl Hz. apply last_Some in Hl as [a' ->].
  unfold rstrip_by. rewrite !rev_app_distr. simpl.
  rewrite lstrip_by_app_stop by exact Hz.
  rewrite rev_app_distr. simpl. rewrite rev_involutive. reflexivity.
Qed.

(** Stripping on the left of [x ++ c :: y] with [c] kept leaves a
    suffix of [x] before [c]. *)
Lemma lstrip_by_app_keep_suffix p x c y :
  p c = false ->
  exists x0 pre, x = x0 ++ pre /\ lstrip_by p (x ++ c :: y) = pre ++ c :: y.
Proof.
  intros H. rewrite lstrip_by_app_stop by exact H.
  destruct (lstrip_by_suffix p x) as [x0 E].
  exists x0, (lstrip_by p x). split; [exact E|reflexivity].
Qed.

Lemma last_app_cons {X : Type} (a : list X) z b : last (a ++ z :: b) = last (z :: b).
Proof.
  induction a as [|x a IH]; [reflexivity|].
  simpl. destruct (a ++ z :: b) eqn:E; [destruct a; discriminate|exact IH].
Qed.

Lemma endswith_app_one s z : endswith (s ++ [z]) [z] = true.
Proof.
  unfold endswith. rewrite rev_app_distr. simpl. rewrite N.eqb_refl.
  destruct (rev s); reflexivity.
Qed.

Lemma endswith_app_r pre s z :
  s <> [] -> endswith (pre ++ s) [z] = endswith s [z].
Proof.
  intros Hs. unfold endswith. rewrite rev_app_distr.
  destruct (rev s) as [|c r] eqn:E.
  - apply (f_equal (@rev N)) in E. rewrite rev_involutive in E. contradiction.
  - simpl.
    assert (Hn : forall x, startswith x [] = true) by (intros []; reflexivity).
    rewrite !Hn. reflexivity.
Qed.

Lemma last_suffix {X : Type} (x x0 pre : list X) :
  x = x0 ++ pre -> pre <> [] -> last pre = last x.
Proof.
  intros -> H. rewrite last_app. destruct (last pre) eqn:E; [reflexivity|].
  apply last_None in E. contradiction.
Qed.

Lemma head_rstrip_by p s :
  head (rstrip_by p s) = None \/ head (rstrip_by p s) = head s.
Proof.
  destruct (rstrip_by_prefix p s) as [suf E].
  destruct (rstrip_by p s) as [|c r]; [left; reflexivity|].
  right. rewrite E. reflexivity.
Qed.

End StrFacts2.

(** ** More on the patterns *)

Module ReFacts2.

Import Re ReFacts.

Section WithTables.
Context {T : Tables}.

Lemma last_or_nonempty p p' (m : str) : m <> [] -> last_or p m = last_or p' m.
Proof.
  intros H. unfold last_or. destruct (last m) eqn:E; [reflexivity|].
  apply last_None in E. contradiction.
Qed.

Lemma alt_then_boundary_inv_b ws prev s n :
  alt_then_boundary ws prev s = Some n ->
  exists w lastc rest,
    w ∈ ws /\ ilit w s prev = Some (lastc, rest)
    /\ boundary lastc (head rest) = true.
Proof.
  induction ws as [|w ws IH]; simpl; [discriminate|].
  destruct (ilit w s prev) as [[l r]|] eqn:E.
  - destruct (boundary l (head r)) eqn:B.
    + intros _. exists w, l, r. split; [left|split; [exact E|exact B]].
    + intros H. destruct (IH H) as (w' & l' & r' & Hw & E' & B').
      exists w', l', r'. split; [right; exact Hw|split; assumption].
  - intros H. destruct (IH H) as (w' & l' & r' & Hw & E' & B').
    exists w', l', r'. split; [right; exact Hw|split; assumption].
Qed.

(** What a literal consumed can be matched again before any other
    continuation. *)
Lemma ilit_split w : forall s prev lastc rest,
  ilit w s prev = Some (lastc, rest) ->
  exists m, s = m ++ rest /\ length m = length w /\ lastc = last_or prev m
    /\ forall rest' prev',
         ilit w (m ++ rest') prev' = Some (last_or prev' m, rest').
Proof.
  induction w as [|p w IH]; intros s prev lastc rest; simpl.
  - intros [= <- <-]. exists []. repeat split; reflexivity.
  - destruct s as [|c s']; [discriminate|].
    destruct (ieq p c) eqn:E; [|discriminate].
    intros H. destruct (IH _ _ _ _ H) as (m & -> & Hlen & -> & Hre).
    exists (c :: m). split; [reflexivity|]. split; [simpl; lia|].
    split; [symmetry; apply last_or_cons|].
    intros rest' prev'. simpl. rewrite E, Hre, last_or_cons. reflexivity.
Qed.

Lemma ilit_last w : forall s prev lastc rest d,
  last w = Some d -> ilit w s prev = Some (lastc, rest) ->
  exists c, lastc = Some c /\ ieq d c = true.
Proof.
  induction w as [|p w IH]; intros s prev lastc rest d Hl; [discriminate|].
  simpl. destruct s as [|c s']; [discriminate|].
  destruct (ieq p c) eqn:E; [|discriminate].
  destruct w as [|q w'].
  - simpl. injection Hl as <-. intros [= <- <-]. exists c. split; [reflexivity|exact E].
  - intros H. apply (IH s' (Some c) lastc rest d); [exact Hl|exact H].
Qed.

End WithTables.

End ReFacts2.

(** ** More on the renderer *)

Module PushgenFacts2.

Import Re Pushgen ReFacts ReFacts2 StrFacts StrFacts2 PushProps PushProps2.
Import PushgenFacts.

Lemma every_cta_no_bang : forallb no_bang every_cta = true.
Proof. vm_compute. reflexivity. Qed.

Lemma every_cta_short :
  forallb (fun cta => (0 <? len cta) && (len cta <=? 20)) every_cta = true.
Proof. vm_compute. reflexivity. Qed.

Lemma collapse_no_bang s : no_bang s = true -> collapse_bangs s = s.
Proof.
  induction s as [|c s IH]; [reflexivity|].
  intros H. simpl in H. apply andb_true_iff in H as [Hc Hs].
  specialize (IH Hs). destruct s as [|d s']; [reflexivity|].
  change (collapse_bangs (c :: d :: s'))
    with (if (c =? 0x21)%N && (d =? 0x21)%N then collapse_bangs (d :: s')
          else c :: collapse_bangs (d :: s')).
  apply negb_true_iff in Hc. rewrite Hc, IH. reflexivity.
Qed.

Lemma collapse_app_no_bang a b :
  no_bang b = true -> collapse_bangs (a ++ b) = collapse_bangs a ++ b.
Proof.
  intros Hb. induction a as [|x a IH]; [apply collapse_no_bang, Hb|].
  destruct a as [|y a'].
  - destruct b as [|d b']; [reflexivity|].
    change (collapse_bangs ([x] ++ d :: b'))
      with (if (x =? 0x21)%N && (d =? 0x21)%N then collapse_bangs (d :: b')
            else x :: collapse_bangs (d :: b')).
    simpl in Hb. apply andb_true_iff in Hb as [Hd Hb'].
    apply negb_true_iff in Hd. rewrite Hd, andb_false_r.
    rewrite collapse_no_bang; [reflexivity|].
    simpl. rewrite Hd. exact Hb'.
  - change (collapse_bangs ((x :: y :: a') ++ b))
      with (if (x =? 0x21)%N && (y =? 0x21)%N then collapse_bangs ((y :: a') ++ b)
            else x :: collapse_bangs ((y :: a') ++ b)).
    change (collapse_bangs (x :: y :: a'))
      with (if (x =? 0x21)%N && (y =? 0x21)%N then collapse_bangs (y :: a')
            else x :: collapse_bangs (y :: a')).
    rewrite IH. destruct ((x =? 0x21)%N && (y =? 0x21)%N); reflexivity.
Qed.

Lemma head_collapse s : head (collapse_bangs s) = head s.
Proof.
  induction s as [|c s IH]; [reflexivity|].
  destruct s as [|d s']; [reflexivity|].
  change (collapse_bangs (c :: d :: s'))
    with (if (c =? 0x21)%N && (d =? 0x21)%N then collapse_bangs (d :: s')
          else c :: collapse_bangs (d :: s')).
  destruct ((c =? 0x21)%N && (d =? 0x21)%N) eqn:E; [|reflexivity].
  rewrite IH. apply andb_true_iff in E as [Ec Ed].
  apply N.eqb_eq in Ec. apply N.eqb_eq in Ed. subst. reflexivity.
Qed.

Lemma last_collapse s : last (collapse_bangs s) = last s.
Proof.
  induction s as [|c s IH]; [reflexivity|].
  destruct s as [|d s']; [reflexivity|].
  change (collapse_bangs (c :: d :: s'))
    with (if (c =? 0x21)%N && (d =? 0x21)%N then collapse_bangs (d :: s')
          else c :: collapse_bangs (d :: s')).
  change (last (c :: d :: s')) with (last (d :: s')).
  destruct ((c =? 0x21)%N && (d =? 0x21)%N); [exact IH|].
  pose proof (head_collapse (d :: s')) as Hh.
  destruct (collapse_bangs (d :: s')) as [|x r]; [discriminate|].
  exact IH.
Qed.

(** *** Adjacent exclamation marks *)

Lemma double_bang_app_inv a b :
  double_bang (a ++ b) = false -> double_bang a = false /\ double_bang b = false.
Proof.
  induction a as [|x a IH]; [intros H; split; [reflexivity|exact H]|].
  destruct a as [|y a'].
  - intros H. split; [reflexivity|].
    destruct b as [|d b']; [reflexivity|].
    change (double_bang ([x] ++ d :: b'))
      with (((x =? 0x21)%N && (d =? 0x21)%N) || double_bang (d :: b')) in H.
    apply orb_false_iff in H as [_ H]. exact H.
  - change (double_bang ((x :: y :: a') ++ b))
      with (((x =? 0x21)%N && (y =? 0x21)%N) || double_bang ((y :: a') ++ b)).
    change (double_bang (x :: y :: a'))
      with (((x =? 0x21)%N && (y =? 0x21)%N) || double_bang (y :: a')).
    intros [H1 H2]%orb_false_iff. destruct (IH H2) as [Ha Hb].
    rewrite H1, Ha. split; [reflexivity|exact Hb].
Qed.

Lemma double_bang_app a b :
  double_bang a = false -> double_bang b = false ->
  last a <> Some 0x21%N \/ head b <> Some 0x21%N ->
  double_bang (a ++ b) = false.
Proof.
  intros Ha Hb Hj. induction a as [|x a IH]; [exact Hb|].
  destruct a as [|y a'].
  - destruct b as [|d b']; [reflexivity|].
    change (double_bang ([x] ++ d :: b'))
      with (((x =? 0x21)%N && (d =? 0x21)%N) || double_bang (d :: b')).
    rewrite Hb, orb_false_r. apply andb_false_iff.
    destruct Hj as [Hj|Hj]; [left|right]; apply N.eqb_neq; intros ->;
      apply Hj; reflexivity.
  - change (double_bang ((x :: y :: a') ++ b))
      with (((x =? 0x21)%N && (y =? 0x21)%N) || double_bang ((y :: a') ++ b)).
    change (double_bang (x :: y :: a'))
      with (((x =? 0x21)%N && (y =? 0x21)%N) || double_bang (y :: a')) in Ha.
    apply orb_false_iff in Ha as [H1 H2]. rewrite H1. apply IH; assumption.
Qed.

Lemma double_bang_collapse s : double_bang (collapse_bangs s) = false.
Proof.
  induction s as [|c s IH]; [reflexivity|].
  destruct s as [|d s']; [reflexivity|].
  change (collapse_bangs (c :: d :: s'))
    with (if (c =? 0x21)%N && (d =? 0x21)%N then collapse_bangs (d :: s')
          else c :: collapse_bangs (d :: s')).
  destruct ((c =? 0x21)%N && (d =? 0x21)%N) eqn:E; [exact IH|].
  pose proof (head_collapse (d :: s')) as Hh.
  destruct (collapse_bangs (d :: s')) as [|x r]; [reflexivity|].
  injection Hh as ->.
  change (double_bang (c :: d :: r))
    with (((c =? 0x21)%N && (d =? 0x21)%N) || double_bang (d :: r)).
  rewrite E, IH. reflexivity.
Qed.

Lemma double_bang_take n s : double_bang s = false -> double_bang (take n s) = false.
Proof.
  intros H. rewrite <- (take_drop n s) in H.
  apply double_bang_app_inv in H as [H _]. exact H.
Qed.

Lemma double_bang_drop n s : double_bang s = false -> double_bang (drop n s) = false.
Proof.
  intros H. rewrite <- (take_drop n s) in H.
  apply double_bang_app_inv in H as [_ H]. exact H.
Qed.

Lemma double_bang_lstrip p s :
  double_bang s = false -> double_bang (lstrip_by p s) = false.
Proof.
  intros H. destruct (lstrip_by_suffix p s) as [pre E]. rewrite E in H.
  apply double_bang_app_inv in H as [_ H]. exact H.
Qed.

Lemma double_bang_rstrip p s :
  double_bang s = false -> double_bang (rstrip_by p s) = false.
Proof.
  intros H. destruct (rstrip_by_prefix p s) as [suf E]. rewrite E in H.
  apply double_bang_app_inv in H as [H _]. exact H.
Qed.

Lemma double_bang_strip p s :
  double_bang s = false -> double_bang (strip_by p s) = false.
Proof. intros H. apply double_bang_rstrip, double_bang_lstrip, H. Qed.

Section WithTables.
Context {T : Tables}.

Lemma double_bang_cut_head h budget :
  double_bang h = false -> double_bang (cut_head h budget) = false.
Proof.
  intros H. unfold cut_head.
  destruct (first_stop STOPS h (budget - 40)) as [i|].
  - apply double_bang_rstrip, double_bang_take, H.
  - apply double_bang_app.
    + apply double_bang_rstrip.
      destruct (budget - 25 <=? rfind h (u " ")); [apply double_bang_take, H|exact H].
    + reflexivity.
    + right. vm_compute. discriminate.
Qed.

Lemma double_bang_cta_tail t start :
  double_bang t = false -> double_bang (cta_tail t start) = false.
Proof.
  intros H. unfold cta_tail.
  assert (H1 : double_bang (rstrip (slice_from t (Z.of_nat start))) = false)
    by (apply double_bang_rstrip, double_bang_drop, H).
  destruct (ends_terminal _); [exact H1|].
  apply double_bang_app; [exact H1|reflexivity|].
  right. vm_compute. discriminate.
Qed.

Lemma double_bang_smart_clamp text max_len :
  double_bang (_smart_clamp text max_len) = false.
Proof.
  unfold _smart_clamp.
  pose proof (double_bang_collapse (strip text)) as Ht.
  set (t := collapse_bangs (strip text)) in *.
  destruct (len t <=? max_len); [exact Ht|].
  destruct (last (cta_finditer t)) as [[start e]|].
  - apply double_bang_strip.
    apply double_bang_app.
    + apply double_bang_cut_head, double_bang_take, Ht.
    + change (u " ") with [0x20%N].
      apply double_bang_app; [reflexivity|apply double_bang_cta_tail, Ht|].
      left. discriminate.
    + right. change (u " ") with [0x20%N]. discriminate.
  - apply double_bang_cut_head, double_bang_take, Ht.
Qed.

End WithTables.

End PushgenFacts2.

(** ** The CTA through the renderer *)

Module PushgenCta.

Import Re Pushgen ReFacts ReFacts2 StrFacts StrFacts2 PushProps PushProps2.
Import PushgenFacts PushgenFacts2.

Section WithTables.
Context {T : Tables} {L : TableLaws T}.

Lemma search_finditer t : cta_search t <> None <-> cta_finditer t <> [].
Proof.
  unfold cta_search. destruct (cta_finditer t); simpl; split; congruence.
Qed.

(** A match of the pattern consumes a word [m] that starts and ends
    with a word character and is followed by none; the same word
    matches again wherever it stands between two characters that are
    not word characters. *)
Lemma cta_match_relocate prev s :
  is_Some (cta_match_at prev s) ->
  exists m rest c0 m' z,
    s = m ++ rest /\ m = c0 :: m' /\ is_word c0 = true
    /\ last m = Some z /\ is_word z = true
    /\ word_at (head rest) = false
    /\ forall prev' rest',
         word_at prev' = false -> word_at (head rest') = false ->
         is_Some (cta_match_at prev' (m ++ rest')).
Proof.
  intros [n H]. unfold cta_match_at in H.
  destruct (boundary prev (head s)) eqn:B0; [|discriminate].
  apply alt_then_boundary_inv_b in H as (w & lastc & rest & Hw & Hl & Hb).
  pose proof cta_words_shape as Hshape.
  rewrite forallb_forall in Hshape.
  specialize (Hshape w (proj1 (list_elem_of_In _ _) Hw)).
  destruct w as [|c0 w']; [discriminate|].
  destruct (last (c0 :: w')) as [d|] eqn:Elast; [|discriminate].
  apply andb_true_iff in Hshape as [Hc0 Hd].
  apply cyr_range in Hc0. apply cyr_range in Hd.
  destruct (ilit_last _ _ _ _ _ d Elast Hl) as (z & -> & Hz).
  destruct (ilit_first _ _ _ _ _ Hl) as (c & s' & -> & Hc).
  destruct (ilit_split _ _ _ _ _ Hl) as (m & Es & Hlen & Hlast & Hre).
  destruct m as [|c1 m']; [discriminate|].
  injection Es as E1 E2. subst c1 s'.
  assert (Hwc : is_word c = true) by exact (ieq_cyrillic_word c0 c Hc0 Hc).
  assert (Hwz : is_word z = true) by exact (ieq_cyrillic_word d z Hd Hz).
  assert (Hlm : last (c :: m') = Some z).
  { unfold last_or in Hlast. destruct (last (c :: m')) eqn:E; [congruence|].
    apply last_None in E. discriminate. }
  exists (c :: m'), rest, c, m', z.
  split; [reflexivity|]. split; [reflexivity|]. split; [exact Hwc|].
  split; [exact Hlm|]. split; [exact Hwz|]. split.
  - unfold boundary in Hb. simpl word_at in Hb. rewrite Hwz in Hb.
    destruct (word_at (head rest)); [discriminate|reflexivity].
  - intros prev' rest' Hp Hr. unfold cta_match_at, boundary.
    simpl head. rewrite Hp. simpl word_at. rewrite Hwc. cbn [xorb].
    apply (alt_then_boundary_some CTA_WORDS (c0 :: w') _ _
             (last_or prev' (c :: m')) rest').
    + exact Hw.
    + apply Hre.
    + unfold last_or. rewrite Hlm. unfold boundary. simpl word_at.
      rewrite Hwz, Hr. reflexivity.
Qed.

(** A phrase that begins with a word of the pattern is found wherever it
    stands between two characters that are not word characters. *)
Lemma cta_found_in P cta S :
  begins_with_cta_word cta = true ->
  word_at (last_or None P) = false -> word_at (head S) = false ->
  cta_finditer (P ++ cta ++ S) <> [].
Proof.
  intros H HP HS. unfold begins_with_cta_word in H.
  apply existsb_exists in H as (w & Hw & H).
  apply andb_true_iff in H as [Hs Hnext].
  pose proof cta_words_shape as Hshape.
  rewrite forallb_forall in Hshape. specialize (Hshape w Hw).
  destruct w as [|c0 w']; [discriminate|].
  destruct (last (c0 :: w')) as [d|] eqn:Elast; [|discriminate].
  apply andb_true_iff in Hshape as [Hc0 Hd].
  apply cyr_range in Hc0. apply cyr_range in Hd.
  apply startswith_split in Hs.
  set (rest := drop (length (c0 :: w')) cta) in *. clearbody rest. subst cta.
  unfold cta_finditer. rewrite <- app_assoc.
  assert (Hm : is_Some (cta_match_at (last_or None P) ((c0 :: w') ++ rest ++ S))).
  { unfold cta_match_at, boundary. rewrite HP. simpl head. simpl word_at.
    rewrite (word_cyrillic c0 Hc0). cbn [xorb].
    apply (alt_then_boundary_some CTA_WORDS (c0 :: w') _ _
             (last_or (last_or None P) (c0 :: w')) (rest ++ S)).
    - apply list_elem_of_In, Hw.
    - apply ilit_self.
    - unfold last_or at 1. rewrite Elast. unfold boundary. simpl word_at.
      rewrite (word_cyrillic d Hd).
      destruct rest as [|r0 rest']; simpl.
      + rewrite HS. reflexivity.
      + apply N.eqb_eq in Hnext. subst r0. rewrite space_not_word. reflexivity. }
  destruct Hm as [n Hm].
  apply (finditer_from_nonempty _ _ _ _ _ n); [discriminate|exact Hm].
Qed.

(** Stripping a text that ends with a space and a tail without blank
    ends keeps the tail, and what is left before it is empty or ends with
    that space. *)
Lemma strip_after_space X tail c tl z tl' :
  tail = c :: tl -> is_space c = false ->
  tail = tl' ++ [z] -> is_space z = false ->
  exists pre, strip (X ++ u " " ++ tail) = pre ++ tail
              /\ word_at (last_or None pre) = false.
Proof.
  intros E1 Hc E2 Hz. unfold strip, strip_by.
  change (u " ") with [0x20%N].
  replace (X ++ [0x20%N] ++ tail) with ((X ++ [0x20%N]) ++ c :: tl)
    by (rewrite <- app_assoc, E1; reflexivity).
  destruct (lstrip_by_app_keep_suffix is_space (X ++ [0x20%N]) c tl Hc)
    as (x0 & pre & Ex & Hpre).
  exists pre. split.
  - rewrite Hpre, <- E1. rewrite E2 at 1. rewrite app_assoc.
    rewrite rstrip_by_snoc by exact Hz. rewrite <- app_assoc, <- E2. reflexivity.
  - unfold last_or. destruct pre as [|p0 pre']; [reflexivity|].
    rewrite (last_suffix _ _ _ Ex) by discriminate.
    rewrite last_snoc. simpl. apply space_not_word.
Qed.

(** The tail kept for a reported match: it starts with the matched word,
    it ends a sentence, and the word is found again at its head. *)
Lemma cta_tail_match t start e :
  (start, e) ∈ cta_finditer t ->
  cta_tail t start <> []
  /\ ends_terminal (cta_tail t start) = true
  /\ forall prev', word_at prev' = false ->
       is_Some (cta_match_at prev' (cta_tail t start)).
Proof.
  intros H. apply finditer_from_inv in H as (a & b & prev0 & -> & -> & Hm).
  apply cta_match_relocate in Hm
    as (m & rest & c0 & m' & z & -> & Em & Hc0 & Hlm & Hz & Hrest & Hre).
  unfold cta_tail, slice_from, slice_index.
  replace (0 <=? Z.of_nat (0 + length a)) with true
    by (symmetry; apply Z.leb_le; lia).
  rewrite Nat2Z.id. simpl plus. rewrite drop_app_length.
  unfold rstrip.
  rewrite (rstrip_by_app_keep is_space m z rest Hlm (word_not_space z Hz)).
  set (R := rstrip_by is_space rest).
  assert (HR : word_at (head R) = false).
  { destruct (head_rstrip_by is_space rest) as [E|E]; unfold R; rewrite E;
      [reflexivity|exact Hrest]. }
  destruct (ends_terminal (m ++ R)) eqn:Et.
  - split; [subst m; discriminate|]. split; [exact Et|].
    intros prev' Hp. apply Hre; assumption.
  - split; [subst m; discriminate|]. split.
    + unfold ends_terminal. change (u ".") with [0x2E%N].
      rewrite endswith_app_one. reflexivity.
    + intros prev' Hp. rewrite <- app_assoc. apply Hre; [exact Hp|].
      destruct R as [|r0 R']; [|exact HR].
      simpl. apply word_full_stop.
Qed.

Lemma ends_terminal_app pre tail :
  tail <> [] -> ends_terminal (pre ++ tail) = ends_terminal tail.
Proof.
  intros H. unfold ends_terminal.
  change (u ".") with [0x2E%N]. change (u "!") with [0x21%N].
  change (u "?") with [0x3F%N].
  rewrite !endswith_app_r by exact H. reflexivity.
Qed.

(** The result for a text that is too long and carries a CTA. *)
Lemma clamp_cta_shape text max_len :
  cta_finditer (cleaned text) <> [] -> max_len < len (cleaned text) ->
  exists pre tail,
    _smart_clamp text max_len = pre ++ tail
    /\ tail <> []
    /\ ends_terminal tail = true
    /\ is_Some (cta_match_at (last_or None pre) tail).
Proof.
  unfold _smart_clamp, cleaned. set (t := collapse_bangs (strip text)).
  intros Hne Hlong.
  replace (len t <=? max_len) with false by (symmetry; apply Z.leb_gt, Hlong).
  destruct (last (cta_finditer t)) as [[start e]|] eqn:Elast;
    [|apply last_None in Elast; contradiction].
  assert (Hin : (start, e) ∈ cta_finditer t).
  { apply last_Some in Elast as [l' ->]. set_solver. }
  destruct (cta_tail_shape t start e Hin)
    as (c & tl & z & tl' & E1 & Hc & E2 & Hz).
  destruct (cta_tail_match t start e Hin) as (Hn & Hterm & Hfound).
  set (tail := cta_tail t start) in *.
  destruct (strip_after_space
              (cut_head (slice_to t (Z.max (max_len - len tail - 1) 0))
                 (Z.max (max_len - len tail - 1) 0))
              tail c tl z tl' E1 Hc E2 Hz) as (pre & Hpre & Hlast).
  exists pre, tail. split; [exact Hpre|]. split; [exact Hn|].
  split; [exact Hterm|]. apply Hfound, Hlast.
Qed.

Lemma clamp_cta_found text max_len :
  cta_finditer (cleaned text) <> [] ->
  cta_finditer (_smart_clamp text max_len) <> [].
Proof.
  intros Hne. destruct (Z_lt_le_dec max_len (len (cleaned text))) as [Hlong|Hfit].
  - destruct (clamp_cta_shape text max_len Hne Hlong)
      as (pre & tail & -> & Hn & _ & [n Hm]).
    apply (finditer_from_nonempty _ _ _ _ _ n); assumption.
  - unfold _smart_clamp. unfold cleaned in *.
    replace (len (collapse_bangs (strip text)) <=? max_len) with true
      by (symmetry; apply Z.leb_le, Hfit).
    exact Hne.
Qed.

(** X1. [_smart_clamp] never loses the CTA: when the cleaned text
    carries a match of [_CTA_RE], so does the result, for every cap; and
    when the text had to be shortened the result ends with a full stop,
    an exclamation mark or a question mark. *)
Theorem smart_clamp_keeps_cta text max_len :
  cta_search (cleaned text) <> None ->
  cta_search (_smart_clamp text max_len) <> None
  /\ (max_len < len (cleaned text) ->
      ends_terminal (_smart_clamp text max_len) = true).
Proof.
  intros H. apply search_finditer in H. split.
  - apply search_finditer, clamp_cta_found, H.
  - intros Hlong.
    destruct (clamp_cta_shape text max_len H Hlong)
      as (pre & tail & -> & Hn & Hterm & _).
    rewrite ends_terminal_app by exact Hn. exact Hterm.
Qed.

End WithTables.

End PushgenCta.

(** ** The rendered push *)

Module PushgenRender.

Import Re Pushgen ReFacts ReFacts2 StrFacts StrFacts2 PushProps PushProps2.
Import PushgenFacts PushgenFacts2 PushgenCta.

Local Open Scope N_scope.

Lemma scalar_encodes c : scalar c = true -> is_Some (utf8_encode_char c).
Proof.
  unfold scalar, utf8_encode_char. intros H.
  assert (Hr : c < 0xD800 \/ (0xE000 <= c /\ c < 0x110000)).
  { apply orb_true_iff in H as [H|H].
    - left. apply N.ltb_lt, H.
    - right. apply andb_true_iff in H as [A B].
      apply N.leb_le in A. apply N.ltb_lt in B. lia. }
  clear H.
  destruct (c <? 0x80) eqn:E1; [eexists; reflexivity|].
  destruct (c <? 0x800) eqn:E2; [eexists; reflexivity|].
  destruct ((0xD800 <=? c) && (c <? 0xE000)) eqn:E3.
  - exfalso. apply andb_true_iff in E3 as [A B].
    apply N.leb_le in A. apply N.ltb_lt in B. lia.
  - destruct (c <? 0x10000) eqn:E4; [eexists; reflexivity|].
    destruct (c <? 0x110000) eqn:E5; [eexists; reflexivity|].
    exfalso. apply N.ltb_ge in E5. apply N.ltb_ge in E4. lia.
Qed.

Lemma encodable_encodes s : encodable s -> is_Some (utf8_encode s).
Proof.
  induction 1 as [|c s Hc _ IH]; [eexists; reflexivity|].
  simpl. destruct (scalar_encodes c Hc) as [bs ->].
  destruct IH as [rest ->]. eexists; reflexivity.
Qed.

Lemma encodable_check s : forallb scalar s = true -> encodable s.
Proof.
  intros H. apply Forall_forall. intros c Hc.
  rewrite forallb_forall in H. apply H, list_elem_of_In, Hc.
Qed.

Lemma encodable_app a b : encodable a -> encodable b -> encodable (a ++ b).
Proof. intros Ha Hb. apply Forall_app. split; assumption. Qed.

Lemma encodable_lstrip p s : encodable s -> encodable (lstrip_by p s).
Proof.
  intros H. destruct (lstrip_by_suffix p s) as [pre E]. rewrite E in H.
  apply Forall_app in H as [_ H]. exact H.
Qed.

Lemma encodable_rstrip p s : encodable s -> encodable (rstrip_by p s).
Proof.
  intros H. destruct (rstrip_by_prefix p s) as [suf E]. rewrite E in H.
  apply Forall_app in H as [H _]. exact H.
Qed.

Lemma encodable_strip s : encodable s -> encodable (strip s).
Proof. intros H. apply encodable_rstrip, encodable_lstrip, H. Qed.

Lemma seeded_choice_some seed opts :
  encodable seed -> is_Some (_seeded_choice seed opts).
Proof.
  intros H. unfold _seeded_choice.
  destruct opts as [|o opts]; [eexists; reflexivity|].
  destruct (encodable_encodes seed H) as [bs ->].
  generalize (Md5.hexdigest_int bs). intros h. eexists; reflexivity.
Qed.

Section WithTables.
Context {T : Tables}.

Lemma month_hint_encodable month :
  encodable_opt month -> encodable (_month_hint month).
Proof.
  unfold _month_hint. destruct month as [m|]; simpl; intros H.
  - destruct (bool_decide (strip m = [])).
    + apply encodable_check. vm_compute. reflexivity.
    + apply encodable_strip, H.
  - apply encodable_check. vm_compute. reflexivity.
Qed.

Lemma benefit_phrase_some product mon c key :
  encodable key -> is_Some (_benefit_phrase product mon c key).
Proof.
  intros Hk.
  assert (Hs : forall suffix opts, forallb scalar suffix = true ->
            is_Some (_seeded_choice (key ++ suffix) opts)).
  { intros suffix opts Hsuf. apply seeded_choice_some, encodable_app;
      [exact Hk|apply encodable_check, Hsuf]. }
  unfold _benefit_phrase.
  destruct (fle _ zero).
  - match goal with
    | |- context [_seeded_choice (key ++ ?s) ?o] =>
        destruct (Hs s o ltac:(vm_compute; reflexivity)) as [x ->]
    end.
    eexists; reflexivity.
  - match goal with
    | |- context [_seeded_choice (key ++ ?s) ?o] =>
        destruct (Hs s o ltac:(vm_compute; reflexivity)) as [x ->]
    end.
    match goal with
    | |- context [_seeded_choice (key ++ ?s) ?o] =>
        destruct (Hs s o ltac:(vm_compute; reflexivity)) as [y ->]
    end.
    eexists; reflexivity.
Qed.

Context {L : TableLaws T}.

(** A message that ends with a space, a CTA of the renderer and a full
    stop carries the CTA once it is cleaned. *)
Lemma message_cta_found A cta :
  In cta every_cta ->
  cta_finditer (cleaned (A ++ u " " ++ cta ++ u ".")) <> [].
Proof.
  intros Hin.
  pose proof every_cta_begins as Hb. rewrite forallb_forall in Hb.
  specialize (Hb cta Hin).
  pose proof every_cta_no_bang as Hnb. rewrite forallb_forall in Hnb.
  specialize (Hnb cta Hin).
  assert (Hhead : exists c0 ctl, cta = c0 :: ctl /\ is_space c0 = false).
  { pose proof Hb as H. unfold begins_with_cta_word in H.
    apply existsb_exists in H as (w & Hw & H).
    apply andb_true_iff in H as [Hs _].
    pose proof cta_words_shape as Hshape.
    rewrite forallb_forall in Hshape. specialize (Hshape w Hw).
    destruct w as [|c0 w']; [discriminate|].
    destruct (last (c0 :: w')); [|discriminate].
    apply andb_true_iff in Hshape as [Hc0 _]. apply cyr_range in Hc0.
    apply startswith_split in Hs. rewrite Hs.
    eexists c0, _. split; [reflexivity|].
    apply word_not_space, word_cyrillic, Hc0. }
  destruct Hhead as (c0 & ctl & Ec & Hc0).
  change (u ".") with [0x2E].
  destruct (strip_after_space A (cta ++ [0x2E]) c0 (ctl ++ [0x2E]) 0x2E cta)
    as (pre & Hpre & Hlast);
    [rewrite Ec; reflexivity|exact Hc0|reflexivity|reflexivity|].
  unfold cleaned. rewrite Hpre.
  rewrite collapse_app_no_bang.
  - apply cta_found_in; [exact Hb| |apply word_full_stop].
    unfold last_or in *. rewrite last_collapse. exact Hlast.
  - unfold no_bang in *. rewrite forallb_app, Hnb. reflexivity.
Qed.

(** X2. For a product, a name, a month and demographic fields that can
    be encoded as UTF-8, [generate_personalized_push] returns a push,
    whatever the context and the cap; the push carries a CTA that
    [_CTA_RE] finds, so [ensure_cta] returns it unchanged for every
    key. *)
Theorem generated_push_has_cta product name month c d max_len :
  encodable product -> encodable name -> encodable_opt month ->
  demo_encodable d ->
  exists push,
    generate_personalized_push product name month c d max_len = Some push
    /\ cta_search push <> None
    /\ forall key, ensure_cta product push key = push.
Proof.
  intros Hp Hn Hm Hd. unfold generate_personalized_push.
  set (d' := match d with Some d0 => d0 | None => no_demo end).
  assert (Hd' : encodable_opt (status d') /\ encodable_opt (city d')).
  { destruct d as [d0|]; [exact Hd|split; exact I]. }
  destruct Hd' as [Hst Hci].
  set (key := name ++ _).
  assert (Hkey : encodable key).
  { unfold key.
    assert (Hbar : encodable (u "|")) by (apply encodable_check; reflexivity).
    repeat (apply encodable_app; [assumption|]);
      try (apply encodable_app; [apply month_hint_encodable, Hm|]);
      repeat (apply encodable_app; [assumption|]).
    apply encodable_app; [|apply encodable_app; [assumption|]].
    - destruct (status d') as [[|x s]|]; cbn [truthy_str fmt_str];
        [constructor|exact Hst|constructor].
    - destruct (city d') as [[|x s]|]; cbn [truthy_str fmt_str];
        [constructor|exact Hci|constructor]. }
  assert (Hcta : is_Some (_cta_for_product_var product key)).
  { unfold _cta_for_product_var. apply seeded_choice_some.
    apply encodable_app; [exact Hkey|].
    apply encodable_app; [apply encodable_check; reflexivity|exact Hp]. }
  destruct Hcta as [cta Ecta]. rewrite Ecta.
  destruct (benefit_phrase_some product (_month_hint month) c key Hkey)
    as [benefit_ ->].
  eexists. split; [reflexivity|].
  match goal with |- cta_search ?r <> None /\ _ =>
    assert (Hfound : cta_search r <> None) end.
  { apply search_finditer, clamp_cta_found.
    rewrite !app_assoc. rewrite <- (app_assoc _ cta), <- (app_assoc _ (u " ")).
    apply message_cta_found. eapply cta_for_product_in, Ecta. }
  split; [exact Hfound|].
  intros k. unfold ensure_cta.
  destruct (bool_decide (strip _ = [])); [reflexivity|].
  rewrite (bool_decide_eq_true_2 _ Hfound). reflexivity.
Qed.

(** X3. No result of [_smart_clamp] holds two exclamation marks side
    by side, and so no push that [generate_personalized_push] returns
    does. *)
Theorem no_adjacent_exclamation_marks :
  (forall text max_len, double_bang (_smart_clamp text max_len) = false)
  /\ (forall product name month c d max_len push,
        generate_personalized_push product name month c d max_len = Some push ->
        double_bang push = false).
Proof.
  split; [intros; apply double_bang_smart_clamp|].
  intros product name month c d max_len push.
  unfold generate_personalized_push.
  destruct (_cta_for_product_var _ _); [|discriminate].
  destruct (_benefit_phrase _ _ _ _); [|discriminate].
  intros [= <-]. apply double_bang_smart_clamp.
Qed.

End WithTables.

End PushgenRender.

(** ** The CTA that is chosen and the one that is appended *)

Module PushgenChoice.

Import Re Pushgen ReFacts ReFacts2 StrFacts StrFacts2 PushProps PushProps2.
Import PushgenFacts PushgenFacts2 PushgenCta.

Section WithTables.
Context {T : Tables}.

(** X4. [ensure_cta] returns the text as it is, or a prefix of the text
    followed by a full stop, a space, a CTA of the renderer and a full
    stop; the result is never more than 23 characters longer than the
    text. *)
Theorem ensure_cta_appends_at_most_23 product text key :
  (ensure_cta product text key = text
   \/ exists kept dropped cta,
        text = kept ++ dropped /\ In cta every_cta
        /\ ensure_cta product text key = kept ++ u ". " ++ cta ++ u ".")
  /\ len (ensure_cta product text key) <= len text + 23.
Proof.
  unfold ensure_cta.
  destruct (bool_decide (strip text = [])); [split; [left; reflexivity|lia]|].
  destruct (bool_decide (cta_search text <> None));
    [split; [left; reflexivity|lia]|].
  set (cta := match _cta_for_product_var product _ with
              | Some c => c | None => u "Оформить сейчас" end).
  assert (Hin : In cta every_cta).
  { unfold cta. destruct (_cta_for_product_var product _) eqn:E.
    - eapply cta_for_product_in, E.
    - unfold every_cta. apply in_or_app. right. apply in_or_app. right.
      left. reflexivity. }
  set (kept := rstrip (rstrip_chars (u ".!?") (rstrip text))).
  assert (Hkept : exists dropped, text = kept ++ dropped).
  { unfold kept, rstrip, rstrip_chars.
    destruct (rstrip_by_prefix is_space text) as [s1 E1].
    destruct (rstrip_by_prefix (fun c => mem c (u ".!?"))
                (rstrip_by is_space text)) as [s2 E2].
    destruct (rstrip_by_prefix is_space
                (rstrip_by (fun c => mem c (u ".!?")) (rstrip_by is_space text)))
      as [s3 E3].
    exists (s3 ++ s2 ++ s1). rewrite !app_assoc, <- E3, <- E2, <- E1.
    reflexivity. }
  destruct Hkept as [dropped Hd]. split.
  - right. exists kept, dropped, cta. auto.
  - pose proof every_cta_short as Hs. rewrite forallb_forall in Hs.
    specialize (Hs cta Hin). apply andb_true_iff in Hs as [_ Hs].
    apply Z.leb_le in Hs.
    clearbody kept cta. rewrite Hd. unfold len in *. rewrite !length_app.
    change (length (u ". ")) with 2%nat. change (length (u ".")) with 1%nat.
    lia.
Qed.

Context {L : TableLaws T}.

(** X5. The CTA that [_cta_for_product_var] chooses is one of the
    product's own phrases (the default ones for a product without a
    pool), and the pattern [_CTA_RE] finds a CTA in it. *)
Theorem chosen_cta_is_recognised product key cta :
  _cta_for_product_var product key = Some cta ->
  In cta (dict_get cta_pools product cta_default)
  /\ cta_search cta <> None.
Proof.
  intros H. split.
  - unfold _cta_for_product_var in H.
    apply seeded_choice_in in H; [exact H|].
    destruct (dict_get_cases cta_pools product cta_default) as [E|E].
    + rewrite E. discriminate.
    + revert E. generalize (dict_get cta_pools product cta_default).
      intros l Hl Hnil. subst l. vm_compute in Hl. intuition discriminate.
  - apply search_finditer.
    pose proof every_cta_begins as Hb. rewrite forallb_forall in Hb.
    specialize (Hb cta (cta_for_product_in _ _ _ H)).
    pose proof (cta_found_in [] cta [] Hb eq_refl eq_refl) as Hf.
    rewrite app_nil_r in Hf. exact Hf.
Qed.

End WithTables.

End PushgenChoice.

(** ** Evaluations of the renderer on samples *)

Module PushgenExamples2.

Import Re ReLaws Pushgen PushProps PushProps2 PushSamples.
Import PushgenCta PushgenRender PushgenChoice.

Lemma smart_clamp_keeps_cta_witness :
  (TableLaws basic /\ cta_search (T := basic) (cleaned long_message) <> None)
  /\ cta_search (T := basic) (_smart_clamp (T := basic) long_message 100) <> None
  /\ ends_terminal (_smart_clamp (T := basic) long_message 100) = true.
Proof.
  assert (H : cta_search (T := basic) (cleaned long_message) <> None)
    by (vm_compute; discriminate).
  split; [split; [exact basic_laws|exact H]|].
  destruct (smart_clamp_keeps_cta (T := basic) long_message 100 H) as [H1 H2].
  split; [exact H1|]. apply H2. vm_compute. reflexivity.
Defined.

Lemma generated_push_has_cta_witness :
  (TableLaws basic /\ encodable (u "Премиальная карта")
   /\ encodable (u "Анна") /\ encodable_opt (Some (u "августе"))
   /\ demo_encodable (Some (student_in (u "Алматы"))))
  /\ exists push,
       generate_personalized_push (T := basic) (u "Премиальная карта")
         (u "Анна") (Some (u "августе")) empty_ctx
         (Some (student_in (u "Алматы"))) (Some 120) = Some push
       /\ cta_search (T := basic) push <> None
       /\ forall key, ensure_cta (T := basic) (u "Премиальная карта") push key = push.
Proof.
  assert (H1 : encodable (u "Премиальная карта"))
    by (apply encodable_check; vm_compute; reflexivity).
  assert (H2 : encodable (u "Анна"))
    by (apply encodable_check; vm_compute; reflexivity).
  assert (H3 : encodable_opt (Some (u "августе")))
    by (apply encodable_check; vm_compute; reflexivity).
  assert (H4 : demo_encodable (Some (student_in (u "Алматы"))))
    by (split; apply encodable_check; vm_compute; reflexivity).
  split; [exact (conj basic_laws (conj H1 (conj H2 (conj H3 H4))))|].
  exact (generated_push_has_cta (T := basic) (u "Премиальная карта") (u "Анна")
           (Some (u "августе")) empty_ctx (Some (student_in (u "Алматы")))
           (Some 120) H1 H2 H3 H4).
Defined.

Example generated_push_clamped :
  generate_personalized_push (T := basic) (u "Премиальная карта")
    (u "Анна") (Some (u "августе")) empty_ctx
    (Some (student_in (u "Алматы"))) (Some 120)
  = Some (u "Анна, если часто в Алматы пользуетесь сервисами и такси — есть выгоднее. Оформить сейчас.").
Proof. vm_compute. reflexivity. Qed.

Lemma no_adjacent_exclamation_marks_witness :
  exists push,
    generate_personalized_push (T := basic) (u "Премиальная карта")
      (u "Анна!!") (Some (u "этом месяце")) empty_ctx
      (Some (student_in (u "Алматы"))) (Some 220) = Some push
    /\ double_bang push = false.
Proof.
  destruct (generate_personalized_push (T := basic) (u "Премиальная карта")
              (u "Анна!!") (Some (u "этом месяце")) empty_ctx
              (Some (student_in (u "Алматы"))) (Some 220)) as [push|] eqn:E;
    [|vm_compute in E; discriminate].
  exists push. split; [reflexivity|].
  exact (proj2 (no_adjacent_exclamation_marks (T := basic)) _ _ _ _ _ _ _ E).
Defined.

Lemma chosen_cta_is_recognised_witness :
  (TableLaws basic
   /\ _cta_for_product_var (u "Кредит наличными") (u "42") = Some (u "Узнать лимит"))
  /\ In (u "Узнать лимит")
       (dict_get cta_pools (u "Кредит наличными") cta_default)
  /\ cta_search (T := basic) (u "Узнать лимит") <> None.
Proof.
  assert (E : _cta_for_product_var (u "Кредит наличными") (u "42")
              = Some (u "Узнать лимит")) by (vm_compute; reflexivity).
  split; [split; [exact basic_laws|exact E]|].
  exact (chosen_cta_is_recognised (T := basic) _ _ _ E).
Defined.

End PushgenExamples2.

(** ** Reading CSV files *)

Module CsvFacts.

Import Re Csv Props SortingFacts.

(** [max_by] returns an element with the greatest key, and every element
    met before it has a strictly smaller key. *)
Lemma max_by_spec {X : Type} (f : X -> Z) best rest :
  exists pre post,
    best :: rest = pre ++ max_by f best rest :: post
    /\ Forall (fun x => f x < f (max_by f best rest)) pre
    /\ Forall (fun x => f x <= f (max_by f best rest)) post.
Proof.
  revert best. induction rest as [|x r IH]; intros best; simpl.
  - exists [], []. repeat split; constructor.
  - destruct (f best <? f x) eqn:E.
    + apply Z.ltb_lt in E.
      destruct (IH x) as (pre & post & Heq & Hpre & Hpost).
      exists (best :: pre), post. rewrite Heq. split; [reflexivity|].
      split; [|exact Hpost]. constructor; [|exact Hpre].
      assert (f x <= f (max_by f x r)).
      { destruct pre as [|p pre'].
        - injection Heq as <- _. lia.
        - injection Heq as <- _. apply Forall_cons in Hpre as [Hp _]. lia. }
      lia.
    + apply Z.ltb_ge in E.
      destruct (IH best) as (pre & post & Heq & Hpre & Hpost).
      set (m := max_by f best r) in *. clearbody m.
      destruct pre as [|p pre'].
      * injection Heq as Hb Hr. subst m post. exists [], (x :: r).
        split; [reflexivity|].
        split; [constructor|]. constructor; [exact E|exact Hpost].
      * injection Heq as Hb Hr. subst p r.
        exists (best :: x :: pre'), post. split; [reflexivity|].
        split; [|exact Hpost].
        apply Forall_cons in Hpre as [Hp Hpre].
        constructor; [exact Hp|]. constructor; [lia|exact Hpre].
Qed.

Lemma count_nonneg d s : 0 <= count d s.
Proof. unfold count. lia. Qed.

Section Sniffed.
Variable sniff : str -> option N.

(** X6. When the sniffer raises, [_detect_delimiter] answers with one
    of the four candidates [, ; tab |]: none of the four occurs more
    often in the sample, and each candidate listed before the answer
    occurs strictly less often; so ties go to the earlier candidate and
    a sample without any candidate gives the comma.  When the sniffer
    succeeds its delimiter is returned. *)
Theorem delimiter_fallback_is_most_frequent sample :
  match sniff sample with
  | Some d => _detect_delimiter sniff sample = d
  | None =>
      exists pre post,
        DELIMS = pre ++ _detect_delimiter sniff sample :: post
        /\ Forall (fun d => count d sample
                            < count (_detect_delimiter sniff sample) sample
                            \/ count (_detect_delimiter sniff sample) sample = 0)
             pre
        /\ (count (_detect_delimiter sniff sample) sample = 0 -> pre = [])
        /\ Forall (fun d => count d sample
                            <= count (_detect_delimiter sniff sample) sample)
             (pre ++ post)
  end.
Proof.
  unfold _detect_delimiter. destruct (sniff sample); [reflexivity|].
  unfold DELIMS.
  destruct (max_by_spec (fun d => count d sample) 0x2C%N [0x3B; 0x09; 0x7C]%N)
    as (pre & post & Heq & Hpre & Hpost).
  set (m := max_by (fun d => count d sample) 0x2C%N [0x3B; 0x09; 0x7C]%N) in *.
  destruct (0 <? count m sample) eqn:E.
  - apply Z.ltb_lt in E. exists pre, post. split; [exact Heq|].
    split; [eapply Forall_impl; [exact Hpre|]; intros d Hd; left; exact Hd|].
    split; [lia|].
    apply Forall_app. split; [|exact Hpost].
    eapply Forall_impl; [exact Hpre|]. intros d Hd. simpl in Hd. lia.
  - apply Z.ltb_ge in E. pose proof (count_nonneg m sample) as Hm.
    assert (Hz : forall d, d ∈ [0x2C; 0x3B; 0x09; 0x7C]%N -> count d sample = 0).
    { intros d Hd. rewrite Heq in Hd.
      pose proof (count_nonneg d sample) as H0.
      apply elem_of_app in Hd as [Hd|Hd].
      - rewrite Forall_forall in Hpre. specialize (Hpre d Hd). simpl in Hpre. lia.
      - apply elem_of_cons in Hd as [->|Hd]; [lia|].
        rewrite Forall_forall in Hpost. specialize (Hpost d Hd).
        simpl in Hpost. lia. }
    exists [], [0x3B; 0x09; 0x7C]%N. split; [reflexivity|].
    split; [constructor|]. split; [reflexivity|].
    rewrite (Hz 0x2C%N) by set_solver. simpl.
    repeat constructor; rewrite Hz by set_solver; lia.
Qed.

End Sniffed.

Lemma columns_named_length (df : frame) name :
  length (columns_named df name)
  = length (filter (fun n => n = name) (columns df)).
Proof.
  unfold columns_named, columns, frame in *. rewrite length_map.
  induction df as [|[n cells] df IH]; [reflexivity|].
  cbn [map fst]. rewrite !filter_cons. cbn [fst].
  destruct (decide (n = name)); cbn [length]; [f_equal|]; exact IH.
Qed.

Lemma has_col_named (df : frame) name :
  has_col df name = true -> columns_named df name <> [].
Proof.
  unfold has_col, columns, columns_named, frame in *.
  induction df as [|[n cells] df IH]; [discriminate|].
  cbn [map existsb fst]. rewrite filter_cons. cbn [fst].
  unfold str_eqb at 1.
  destruct (decide (n = name)) as [E|E].
  - intros _. discriminate.
  - rewrite (bool_decide_eq_false_2 _ E). exact IH.
Qed.

Lemma no_col_named (df : frame) name :
  has_col df name = false -> columns_named df name = [].
Proof.
  unfold has_col, columns, columns_named, frame in *.
  induction df as [|[n cells] df IH]; [reflexivity|].
  cbn [map existsb fst]. rewrite filter_cons. cbn [fst].
  unfold str_eqb at 1.
  destruct (decide (n = name)) as [E|E].
  - rewrite (bool_decide_eq_true_2 _ E). discriminate.
  - rewrite (bool_decide_eq_false_2 _ E). exact IH.
Qed.

(** X7. [detect_table_kind] looks at the column names only.  It raises
    [ValueError] exactly when the table has [direction], no [type] and
    more than one column named [category] (two headers that normalise
    to the same name); otherwise a table with [type] and [direction] is
    a table of transfers and any other table with [category] is a table
    of transactions: the comparison of the numbers of filled cells
    never decides. *)
Theorem table_kind_by_columns_only df :
  detect_table_kind df
  = (if has_col df (u "direction") && negb (has_col df (u "type"))
        && repeated df (u "category")
     then None
     else Some (has_col df (u "category")
                && negb (has_col df (u "type") && has_col df (u "direction")),
                has_col df (u "type") && has_col df (u "direction")))
  /\ forall df', columns df' = columns df ->
       detect_table_kind df' = detect_table_kind df.
Proof.
  assert (H : forall d : frame, detect_table_kind d
    = (if has_col d (u "direction") && negb (has_col d (u "type"))
          && repeated d (u "category")
       then None
       else Some (has_col d (u "category")
                  && negb (has_col d (u "type") && has_col d (u "direction")),
                  has_col d (u "type") && has_col d (u "direction")))).
  { intros d. unfold detect_table_kind, repeated, notna_sums.
    pose proof (has_col_named d (u "category")) as Hcat.
    pose proof (no_col_named d (u "category")) as Hno.
    pose proof (fun cells => Nat2Z.is_nonneg
                  (length (filter (fun c : option str => is_Some c) cells))) as Hn.
    revert Hcat Hno. generalize (u "category"), (u "type"), (u "direction").
    intros cat type dir Hcat Hno.
    destruct (has_col d cat), (has_col d type), (has_col d dir);
      cbn [andb orb negb]; try reflexivity.
    - specialize (Hcat eq_refl).
      destruct (columns_named d cat) as [|cells [|cells' more]];
        [congruence| |reflexivity].
      cbn [length Nat.ltb Nat.leb].
      replace (0 <=? notna_sum cells) with true
        by (symmetry; apply Z.leb_le, Hn).
      reflexivity.
    - rewrite (Hno eq_refl). reflexivity. }
  split; [apply H|].
  intros df' Hc. rewrite !H. unfold has_col, repeated.
  rewrite !columns_named_length, Hc. reflexivity.
Qed.

(** *** Column names *)

Lemma replace_char_absent a b s :
  a ∉ b -> a ∉ replace_char a b s.
Proof.
  intros Hb. unfold replace_char. induction s as [|c s IH]; simpl; [set_solver|].
  intros [H|H]%elem_of_app; [|exact (IH H)].
  destruct (N.eqb_spec c a) as [->|Hne]; [exact (Hb H)|].
  apply list_elem_of_singleton in H. congruence.
Qed.

Lemma replace_char_keeps_absent a b x s :
  x ∉ b -> x ∉ s -> x ∉ replace_char a b s.
Proof.
  intros Hb. unfold replace_char. induction s as [|c s IH]; simpl; [set_solver|].
  intros Hs [H|H]%elem_of_app.
  - destruct (c =? a)%N; [exact (Hb H)|].
    apply list_elem_of_singleton in H. subst. apply Hs. left.
  - apply IH; [|exact H]. intros Hx. apply Hs. right. exact Hx.
Qed.

Lemma lstrip_by_all p s : Forall (fun c => p c = true) s -> lstrip_by p s = [].
Proof.
  induction 1 as [|c s Hc _ IH]; [reflexivity|]. simpl. rewrite Hc. exact IH.
Qed.

Lemma lstrip_by_app_all p a s :
  Forall (fun c => p c = true) a -> lstrip_by p (a ++ s) = lstrip_by p s.
Proof.
  induction 1 as [|c a Hc _ IH]; [reflexivity|]. simpl. rewrite Hc. exact IH.
Qed.

Lemma lstrip_by_app_r p s b :
  lstrip_by p (s ++ b)
  = if forallb p s then lstrip_by p b else lstrip_by p s ++ b.
Proof.
  induction s as [|c s IH]; [reflexivity|]. simpl.
  destruct (p c); [exact IH|reflexivity].
Qed.

Lemma strip_by_padded p a s b :
  Forall (fun c => p c = true) a -> Forall (fun c => p c = true) b ->
  strip_by p (a ++ s ++ b) = strip_by p s.
Proof.
  intros Ha Hb. unfold strip_by. rewrite (lstrip_by_app_all p a _ Ha).
  rewrite lstrip_by_app_r.
  destruct (forallb p s) eqn:E.
  - rewrite (lstrip_by_all p b Hb).
    rewrite (lstrip_by_all p s); [reflexivity|].
    apply Forall_forall. intros c Hc. rewrite forallb_forall in E.
    apply E, list_elem_of_In, Hc.
  - unfold rstrip_by. rewrite rev_app_distr.
    rewrite (lstrip_by_app_all p (rev b)); [reflexivity|].
    apply Forall_rev, Hb.
Qed.

Lemma not_underscore x : x <> 0x5F%N -> x ∉ u "_".
Proof.
  intros Hx H. change (u "_") with [0x5F%N] in H.
  apply list_elem_of_singleton in H. contradiction.
Qed.

Section Headers.
Context {T : Tables}.

(** X8. A normalised column name holds neither a space nor a hyphen,
    whatever the case mapping does, and white space around the raw name
    does not matter; [_normalize_columns] renames the columns in place
    and leaves the cells alone. *)
Theorem normalized_names_have_no_space_or_hyphen :
  (forall name,
     (0x20%N ∉ normalize_name name) /\ (0x2D%N ∉ normalize_name name))
  /\ (forall name l r,
        Forall (fun c => is_space c = true) l ->
        Forall (fun c => is_space c = true) r ->
        normalize_name (l ++ name ++ r) = normalize_name name)
  /\ (forall df,
        columns (_normalize_columns df) = map normalize_name (columns df)
        /\ map snd (_normalize_columns df) = map snd df).
Proof.
  split; [|split].
  - intros name. unfold normalize_name. split.
    + apply replace_char_keeps_absent; [apply not_underscore; discriminate|].
      apply replace_char_absent. apply not_underscore. discriminate.
    + apply replace_char_absent. apply not_underscore. discriminate.
  - intros name l r Hl Hr. unfold normalize_name, strip.
    rewrite strip_by_padded by assumption. reflexivity.
  - intros df. unfold _normalize_columns, columns.
    rewrite !map_map. split; reflexivity.
Qed.

End Headers.

(** *** Resolving a column *)

Lemma find_first {X : Type} (p : X -> bool) l x :
  List.find p l = Some x ->
  p x = true /\ exists pre post,
    l = pre ++ x :: post /\ Forall (fun y => p y = false) pre.
Proof.
  induction l as [|y l IH]; simpl; [discriminate|].
  destruct (p y) eqn:E.
  - intros [= <-]. split; [exact E|]. exists [], l. split; [reflexivity|constructor].
  - intros H. destruct (IH H) as (Hx & pre & post & -> & Hpre).
    split; [exact Hx|]. exists (y :: pre), post. split; [reflexivity|].
    constructor; assumption.
Qed.

Lemma find_none {X : Type} (p : X -> bool) l :
  List.find p l = None -> Forall (fun y => p y = false) l.
Proof.
  induction l as [|y l IH]; simpl; [constructor|].
  destruct (p y) eqn:E; [discriminate|]. intros H. constructor; auto.
Qed.

Lemma has_col_app df extra name :
  has_col (df ++ extra) name = has_col df name || has_col extra name.
Proof. unfold has_col, columns. rewrite map_app, existsb_app. reflexivity. Qed.

(** X9. [_coalesce_col] returns the first candidate that is a column,
    leaving the frame as it is.  With no candidate among the columns, a
    required column raises [KeyError]; an optional one is created under
    the name of the first candidate, after the existing columns, with
    the default in every row.  The name returned is a column of the
    frame afterwards. *)
Theorem coalesce_col_resolves df candidates required default_val :
  match _coalesce_col df candidates required default_val with
  | inr (name, df') =>
      has_col df' name = true
      /\ ((exists pre post,
             candidates = pre ++ name :: post
             /\ Forall (fun c => has_col df c = false) pre
             /\ has_col df name = true /\ df' = df)
          \/ (required = false
              /\ Forall (fun c => has_col df c = false) candidates
              /\ head candidates = Some name
              /\ df' = df ++ [(name, repeat default_val (nrows df))]))
  | inl KeyError =>
      required = true /\ Forall (fun c => has_col df c = false) candidates
  | inl IndexError => required = false /\ candidates = []
  end.
Proof.
  unfold _coalesce_col.
  destruct (List.find (has_col df) candidates) as [c|] eqn:E.
  - apply find_first in E as (Hc & pre & post & Heq & Hpre).
    split; [exact Hc|]. left. exists pre, post. auto.
  - apply find_none in E.
    destruct required; [split; [reflexivity|exact E]|].
    destruct candidates as [|name rest]; [split; reflexivity|].
    split.
    + rewrite has_col_app. apply orb_true_iff. right.
      unfold has_col, columns. simpl. unfold str_eqb.
      rewrite bool_decide_eq_true_2 by reflexivity. reflexivity.
    + right. auto.
Qed.

End CsvFacts.

(** ** The tables written by [build_data.main] *)

Module BatchFacts.

Import Re Pandas PySort Ingest IngestFacts BatchProps.

Ltac order_cases :=
  repeat match goal with
  | H : context [bool_decide ?P] |- _ => destruct (bool_decide_reflect P)
  | |- context [bool_decide ?P] => destruct (bool_decide_reflect P)
  | H : context [?x <? ?y] |- _ => destruct (Z.ltb_spec x y)
  | |- context [?x <? ?y] => destruct (Z.ltb_spec x y)
  end;
  simpl in *; simplify_eq; try reflexivity; try discriminate; try lia;
  try congruence;
  try (exfalso;
       repeat match goal with
       | H : Some ?x <> Some ?y |- _ =>
           assert (x <> y) by congruence; clear H
       end; lia).

Lemma key_ltb_asym a b : key_ltb a b = true -> key_ltb b a = false.
Proof.
  destruct a as [[a1|] [a2|]], b as [[b1|] [b2|]];
    unfold key_ltb, opt_ltb; simpl; intros H; order_cases.
Qed.

Lemma key_ltb_negtrans a b c :
  key_ltb a b = false -> key_ltb b c = false -> key_ltb a c = false.
Proof.
  destruct a as [[a1|] [a2|]], b as [[b1|] [b2|]], c as [[c1|] [c2|]];
    unfold key_ltb, opt_ltb; simpl; intros H1 H2; order_cases.
Qed.

Section Asc.
Context {A : Type} (key : A -> option Z * option Z).

Lemma insert_asc_sorted x l :
  StronglySorted (key_le key) l ->
  StronglySorted (key_le key) (insert_asc key key_ltb x l).
Proof.
  intros Hs. induction Hs as [|y l Hs IH Hy]; simpl.
  - repeat constructor.
  - destruct (key_ltb (key y) (key x)) eqn:E.
    + constructor; [exact IH|].
      rewrite insert_asc_perm. constructor; [|exact Hy].
      apply key_ltb_asym, E.
    + constructor; [constructor; assumption|].
      constructor; [exact E|].
      rewrite Forall_forall in *. intros z Hz. unfold key_le in *.
      apply (key_ltb_negtrans _ (key y)); [apply Hy, Hz|exact E].
Qed.

Lemma sorted_asc_sorted l :
  StronglySorted (key_le key) (sorted_asc key key_ltb l).
Proof.
  induction l as [|x l IH]; simpl; [constructor|].
  apply insert_asc_sorted, IH.
Qed.

End Asc.

Lemma NoDup_map_filter {R K : Type} (cells : R -> K) (p : R -> Prop)
    `{forall r, Decision (p r)} (rows : list R) :
  NoDup (map cells rows) -> NoDup (map cells (filter p rows)).
Proof.
  induction rows as [|r rows IH]; [auto|].
  cbn [map]. intros Hnd. apply NoDup_cons in Hnd as [Hr Hnd].
  rewrite filter_cons. destruct (decide (p r)); [|apply IH, Hnd].
  cbn [map]. apply NoDup_cons. split; [|apply IH, Hnd].
  intros Hin. apply Hr.
  apply list_elem_of_fmap in Hin as (r' & E & Hr').
  apply list_elem_of_filter in Hr' as [_ Hr'].
  apply list_elem_of_fmap. exists r'. split; assumption.
Qed.

(** No two of the rows kept have the same cells. *)
Lemma drop_duplicates_NoDup {R K : Type} `{EqDecision K} (cells : R -> K)
    (rows : list R) :
  NoDup (map cells (drop_duplicates cells rows)).
Proof.
  induction rows as [|r rows IH]; cbn [drop_duplicates map]; [constructor|].
  apply NoDup_cons. split.
  - intros Hin. apply list_elem_of_fmap in Hin as (r' & E & Hr').
    apply list_elem_of_filter in Hr' as [Hne _]. congruence.
  - apply NoDup_map_filter, IH.
Qed.

(** Every row has its cells among the rows kept. *)
Lemma drop_duplicates_keeps {R K : Type} `{EqDecision K} (cells : R -> K)
    (rows : list R) r :
  r ∈ rows ->
  exists r', r' ∈ drop_duplicates cells rows /\ cells r' = cells r.
Proof.
  induction rows as [|x rows IH]; cbn [drop_duplicates]; intros H.
  - inversion H.
  - destruct (decide (cells r = cells x)) as [E|Hne].
    + exists x. split; [left|congruence].
    + apply elem_of_cons in H as [->|H]; [congruence|].
      destruct (IH H) as (r' & Hr' & E).
      exists r'. split; [|exact E].
      right. apply list_elem_of_filter. split; [congruence|exact Hr'].
Qed.

Section Tables.
Context {P : Lib} {T : Tables}.

(** X10. The table of transactions that [build_data.main] writes is
    sorted by client code and then by date, a missing date last within
    its client; every row has a client code; and the same holds for the
    table of transfers. *)
Theorem batch_tables_sorted_by_client_and_date :
  (forall files rows,
     main_transactions files = Some rows ->
     StronglySorted (key_le tx_key) rows
     /\ Forall (fun r => is_Some (client_code r)) rows)
  /\ (forall files rows,
        main_transfers files = Some rows ->
        StronglySorted (key_le tr_key) rows
        /\ Forall (fun r => is_Some (t_client_code r)) rows).
Proof.
  split; intros files rows H.
  - split; [|eapply main_transactions_clients, H].
    unfold main_transactions in H.
    destruct (sequence (map tx_part files)); [|discriminate].
    injection H as <-. apply (sorted_asc_sorted tx_key).
  - split; [|eapply main_transfers_clients, H].
    unfold main_transfers in H.
    destruct (sequence (map tr_part files)); [|discriminate].
    injection H as <-. apply (sorted_asc_sorted tr_key).
Qed.

(** X11. The table of transactions that [build_data.main] writes holds
    no two rows with the same cells, the amounts being compared as
    numbers ([-0.0] is [0.0]); every row of it is a row of the parts
    read from the files, and every row of the parts has its cells in
    the table: none is invented and none is lost but the repetitions.
    The same holds for the table of transfers. *)
Theorem batch_tables_have_each_row_once :
  (forall files parts,
     sequence (map tx_part files) = Some parts ->
     exists rows, main_transactions files = Some rows
       /\ NoDup (map tx_cells rows)
       /\ (forall r, r ∈ rows -> r ∈ concat parts)
       /\ (forall r, r ∈ concat parts ->
             exists r', r' ∈ rows /\ tx_cells r' = tx_cells r))
  /\ (forall files parts,
        sequence (map tr_part files) = Some parts ->
        exists rows, main_transfers files = Some rows
          /\ NoDup (map tr_cells rows)
          /\ (forall r, r ∈ rows -> r ∈ concat parts)
          /\ (forall r, r ∈ concat parts ->
                exists r', r' ∈ rows /\ tr_cells r' = tr_cells r)).
Proof.
  split; intros files parts H.
  - unfold main_transactions. rewrite H. eexists. split; [reflexivity|].
    split; [|split].
    + rewrite (Permutation_map _ (sorted_asc_perm _ _ _)).
      apply drop_duplicates_NoDup.
    + intros r. rewrite sorted_asc_perm. apply drop_duplicates_subset.
    + intros r Hr.
      destruct (drop_duplicates_keeps tx_cells _ r Hr) as (r' & Hr' & E).
      exists r'. split; [rewrite sorted_asc_perm; exact Hr'|exact E].
  - unfold main_transfers. rewrite H. eexists. split; [reflexivity|].
    split; [|split].
    + rewrite (Permutation_map _ (sorted_asc_perm _ _ _)).
      apply drop_duplicates_NoDup.
    + intros r. rewrite sorted_asc_perm. apply drop_duplicates_subset.
    + intros r Hr.
      destruct (drop_duplicates_keeps tr_cells _ r Hr) as (r' & Hr' & E).
      exists r'. split; [rewrite sorted_asc_perm; exact Hr'|exact E].
Qed.

End Tables.

End BatchFacts.

Module CsvExamples.

Import Re Pandas Csv Ingest IngestProps BatchProps CsvFacts BatchFacts.

(** Semicolons and commas in equal number: the comma, listed first,
    wins; an empty file is read with the comma. *)
Example delimiter_tie_goes_to_comma :
  _detect_delimiter (fun _ => None) (u "a;b,c;d,e") = 0x2C%N
  /\ _detect_delimiter (fun _ => None) (u "a;b|c;d") = 0x3B%N
  /\ build_data_delimiter (fun _ => None) [] = 0x2C%N.
Proof. vm_compute. repeat split; reflexivity. Qed.

Example header_normalised :
  normalize_name (T := basic) (u "  Client-Code ") = u "client_code"
  /\ normalize_name (T := basic) (u "Amount KZT") = u "amount_kzt".
Proof. vm_compute. split; reflexivity. Qed.

(** A table with [category], [type] and [direction] is read as
    transfers even when its [type] column is empty and every [category]
    is filled. *)
Example filled_categories_do_not_decide :
  kind_of [ (u "category", [Some (u "Такси"); Some (u "Отели")]);
            (u "type", [None; None]);
            (u "direction", [None; None]) ] = Some Transfers.
Proof. vm_compute. reflexivity. Qed.

(** The headers [Category] and [category] normalise to the same name;
    with [direction] and without [type], [detect_table_kind] raises. *)
Example repeated_category_raises :
  detect_table_kind
    (_normalize_headers (T := basic)
       [ (u "Category", [Some (u "Такси")]);
         (u "category", [Some (u "Отели")]);
         (u "direction", [Some (u "out")]) ])
  = None.
Proof. vm_compute. reflexivity. Qed.

Example optional_currency_is_created :
  _coalesce_col [ (u "date", [Some (u "2025-01-02")]) ]
    [u "currency"; u "валюта"; u "curr"] false (Some (u "KZT"))
  = inr (u "currency",
         [ (u "date", [Some (u "2025-01-02")]);
           (u "currency", [Some (u "KZT")]) ]).
Proof. vm_compute. reflexivity. Qed.

Lemma batch_tables_sorted_by_client_and_date_witness :
  exists rows,
    main_transactions (P := model) (T := basic)
      [[purchase_of (u "9"); purchase_of (u "7")]; two_purchases] = Some rows
    /\ StronglySorted (key_le tx_key) rows
    /\ map client_code rows = [Some 7; Some 9].
Proof.
  destruct (main_transactions (P := model) (T := basic)
              [[purchase_of (u "9"); purchase_of (u "7")]; two_purchases])
    as [rows|] eqn:E; [|vm_compute in E; discriminate].
  exists rows. split; [reflexivity|]. split.
  - exact (proj1 (proj1 (batch_tables_sorted_by_client_and_date
                           (P := model) (T := basic)) _ _ E)).
  - vm_compute in E. injection E as <-. reflexivity.
Defined.

Lemma batch_tables_have_each_row_once_witness :
  exists rows,
    main_transactions (P := model) (T := basic)
      [[purchase_of (u "9"); purchase_of (u "7")]; two_purchases] = Some rows
    /\ NoDup (map tx_cells rows).
Proof.
  destruct (sequence (map (tx_part (P := model) (T := basic))
              [[purchase_of (u "9"); purchase_of (u "7")]; two_purchases]))
    as [parts|] eqn:E; [|vm_compute in E; discriminate].
  destruct (proj1 (batch_tables_have_each_row_once (P := model) (T := basic))
              _ _ E) as (rows & Hrows & Hnd & _).
  exists rows. split; [exact Hrows|exact Hnd].
Defined.

(** Two rows that differ only in the sign of a zero amount are the same
    row for [drop_duplicates]: the first one is kept. *)
Example signed_zero_is_a_repetition :
  drop_duplicates tx_cells
    [ {| date := Some jan_2_2023; category := Some (u "Такси");
         amount := S754_zero false; currency := Some (u "KZT");
         client_code := Some 7 |};
      {| date := Some jan_2_2023; category := Some (u "Такси");
         amount := S754_zero true; currency := Some (u "KZT");
         client_code := Some 7 |} ]
  = [ {| date := Some jan_2_2023; category := Some (u "Такси");
         amount := S754_zero false; currency := Some (u "KZT");
         client_code := Some 7 |} ].
Proof. vm_compute. reflexivity. Qed.

End CsvExamples.

(** ** Caps of the benefit formulas *)

Module RulesCaps.

Import Rules RulesFacts F64Facts F64Order.

Lemma fmul_const_not_nan x c :
  is_nan x = false -> pos_finite c -> is_nan (fmul x c) = false.
Proof.
  destruct c as [?|?| |[] m' e']; simpl; try tauto. intros Hx _.
  destruct x as [s|s| |s m e]; try discriminate; try reflexivity.
  unfold fmul, SFmul.
  pose proof (binary_round_aux_sign (xorb s false)
                (Z.pos (m * m')) (e + e') loc_Exact ltac:(lia)) as H.
  destruct (binary_round_aux _ _ _ _ _ _); tauto || reflexivity.
Qed.

(** [_cap] never returns more than the cap. *)
Lemma cap_never_above value cap_value :
  flt cap_value cap_value = false -> flt cap_value zero = false ->
  fgt (_cap value cap_value) cap_value = false.
Proof.
  intros Hirr Hz. unfold _cap, py_min.
  destruct (fle value zero); [exact Hz|].
  destruct (flt cap_value value) eqn:E; [exact Hirr|exact E].
Qed.

Lemma cap_within value cap_value :
  is_nan value = false -> nn cap_value ->
  flt cap_value cap_value = false -> flt cap_value zero = false ->
  fge (_cap value cap_value) zero = true
  /\ fle (_cap value cap_value) cap_value = true.
Proof.
  intros Hv Hc Hirr Hz.
  pose proof (cap_nn value cap_value Hv Hc) as Hnn.
  split; [apply nn_fge, Hnn|].
  apply (not_flt_fge cap_value (_cap value cap_value) Hc Hnn).
  apply (cap_never_above value cap_value Hirr Hz).
Qed.

(** X12. The cashback of the travel card is never above its monthly
    cap of 15 000 and the cashback of the credit card never above 30 000,
    whatever the inputs, NaN and infinities included; for inputs that
    are numbers the two scores lie between zero and the cap. *)
Theorem cashback_caps_hold :
  (forall travel_spend,
     fgt (benefit_travel travel_spend) CFG.travel_cb_monthly_cap = false
     /\ (is_nan travel_spend = false ->
         fge (benefit_travel travel_spend) zero = true
         /\ fle (benefit_travel travel_spend) CFG.travel_cb_monthly_cap = true))
  /\ (forall fav_spend_sum online_spend,
        fgt (benefit_credit_card fav_spend_sum online_spend)
            CFG.cc_cb_monthly_cap = false
        /\ (is_nan fav_spend_sum = false -> is_nan online_spend = false ->
            fge (benefit_credit_card fav_spend_sum online_spend) zero = true
            /\ fle (benefit_credit_card fav_spend_sum online_spend)
                   CFG.cc_cb_monthly_cap = true)).
Proof.
  split.
  - intros x. unfold benefit_travel. split.
    + apply cap_never_above; reflexivity.
    + intros Hx. apply cap_within; try reflexivity.
      apply fmul_const_not_nan; [exact Hx|exact I].
  - intros fav online. split.
    + unfold benefit_credit_card. apply cap_never_above; reflexivity.
    + intros Hf Ho.
      pose proof (benefit_credit_card_nn fav online Hf Ho) as Hnn.
      split; [apply nn_fge, Hnn|].
      apply (not_flt_fge CFG.cc_cb_monthly_cap _ eq_refl Hnn).
      unfold benefit_credit_card. apply cap_never_above; reflexivity.
Qed.

(** The premium card has no such bound: the fees saved are added after
    the cap. *)
Example premium_score_above_its_cap :
  benefit_premium (dec 3000000 0) (dec 2000000 0) zero 10 10
  = dec 29000 0
  /\ fgt (benefit_premium (dec 3000000 0) (dec 2000000 0) zero 10 10)
         CFG.premium_cb_monthly_cap = true.
Proof. vm_compute. split; reflexivity. Qed.

End RulesCaps.

(** ** Invariants of the features *)

Module FeatureFacts2.

Import Pandas PySort Scorer Rules Props FeatureProps.
Import F64Facts RulesFacts SortingFacts ScorerFacts IngestFacts.

Lemma py_max_zero_l_always x : nn (py_max zero x).
Proof.
  unfold py_max, fgt, SFltb, zero.
  destruct x as [s|s| |s m e]; simpl; try exact I; destruct s; simpl; auto.
Qed.

Lemma count_true_bounds {X : Type} (p : X -> bool) l :
  0 <= count_true p l <= Z.of_nat (length l).
Proof.
  unfold count_true. pose proof (length_filter (fun x => p x = true) l). lia.
Qed.

Lemma count_true_disjoint {X : Type} (p q : X -> bool) l :
  (forall x, p x = true -> q x = true -> False) ->
  count_true p l + count_true q l <= Z.of_nat (length l).
Proof.
  intros Hd. unfold count_true. induction l as [|x l IH]; simpl; [lia|].
  rewrite !filter_cons.
  destruct (decide (p x = true)) as [Hp|Hp], (decide (q x = true)) as [Hq|Hq];
    simpl; try lia.
  exfalso. exact (Hd x Hp Hq).
Qed.

Lemma distinct_subset l x : x ∈ distinct l -> x ∈ l.
Proof.
  induction l as [|y l IH]; simpl; [auto|].
  intros [->|H]%elem_of_cons; [left|right].
  apply list_elem_of_filter in H as [_ H]. apply IH, H.
Qed.

Lemma distinct_NoDup l : NoDup (distinct l).
Proof.
  induction l as [|x l IH]; simpl; [constructor|].
  constructor; [|apply NoDup_filter, IH].
  intros H. apply list_elem_of_filter in H as [H _].
  unfold label_eqb in H. rewrite bool_decide_eq_true_2 in H by reflexivity.
  discriminate.
Qed.

Section WithLib.
Context {P : Lib} {B : PySort.Builtin}.

Lemma category_sums_labels txm :
  map fst (category_sums txm) ≡ₚ distinct (map tx_category txm).
Proof.
  unfold category_sums. rewrite sorted_desc_perm, map_map. simpl.
  rewrite map_id. apply sorted_asc_perm.
Qed.

(** The fields of the feature record, spelled out. *)
Lemma features_fields tx tr avg_balance start end_ :
  let txm := filter (fun r => in_period start end_ (tx_date r) = true) tx in
  let trm := filter (fun r => in_period start end_ (tr_date r) = true) tr in
  let f := compute_features_for_client tx tr avg_balance (start, end_) in
  TOTAL_SPEND f = fsum (map tx_amount txm)
  /\ TRAVEL_SPEND f
     = fsum (map tx_amount
               (filter (fun r => isin TRAVEL_CATS (tx_category r) = true) txm))
  /\ PREMIUM_SPEND f
     = fsum (map tx_amount
               (filter (fun r => isin PREMIUM_BOOST_CATS (tx_category r) = true)
                       txm))
  /\ ONLINE_SPEND f
     = fsum (map tx_amount
               (filter (fun r => isin ONLINE_CATS (tx_category r) = true) txm))
  /\ FAV_SPEND_SUM f
     = match map fst (take 3 (category_sums txm)) with
       | [] => zero
       | _ => fsum (map snd (take 3 (category_sums txm)))
       end
  /\ ATM_CNT f
     = count_true (fun r => cell_eq (u "atm_withdrawal") (tr_type r)
                            && cell_eq (u "out") (tr_direction r)) trm
  /\ TRANSFER_CNT f
     = count_true
         (fun r => isin [u "p2p_out"; u "card_out"; u "utilities_out"] (tr_type r)
                   && cell_eq (u "out") (tr_direction r)) trm
  /\ SHORTFALL f
     = py_max zero
         (fsub (fsum (map tr_amount
                        (filter (fun r => cell_eq (u "out") (tr_direction r) = true)
                                trm)))
               (fsum (map tr_amount
                        (filter (fun r => cell_eq (u "in") (tr_direction r) = true)
                                trm))))
  /\ FX_TURNOVER f
     = fsum (map (fun r => fabs (tr_amount r))
               (filter (fun r => isin [u "fx_buy"; u "fx_sell"] (tr_type r) = true)
                       trm))
  /\ FREE_BAL_3M f = fdiv (fmul avg_balance lit_3_0) lit_12_0
  /\ FAV_CATS f = map fst (take 3 (category_sums txm)).
Proof. cbv zeta. repeat split; reflexivity. Qed.


(** X13. What [compute_features_for_client] returns for every pair of
    tables, balance and window, whatever the library sums: the two
    counts are not negative and together never exceed the number of
    transfer rows (a row is an ATM withdrawal or an outgoing transfer,
    never both); the shortfall is a number that is not below zero; and
    the favourite categories are at most three, pairwise different, each
    the category of a purchase inside the window. *)
Theorem feature_invariants tx tr avg_balance start end_ :
  let f := compute_features_for_client tx tr avg_balance (start, end_) in
  0 <= ATM_CNT f /\ 0 <= TRANSFER_CNT f
  /\ ATM_CNT f + TRANSFER_CNT f <= Z.of_nat (length tr)
  /\ nn (SHORTFALL f)
  /\ (length (FAV_CATS f) <= 3)%nat
  /\ NoDup (FAV_CATS f)
  /\ (forall c, c ∈ FAV_CATS f ->
        exists r, r ∈ tx /\ in_period start end_ (tx_date r) = true
                  /\ tx_category r = c).
Proof.
  destruct (features_fields tx tr avg_balance start end_)
    as (_ & _ & _ & _ & _ & Ha & Ht & Hs & _ & _ & Hf).
  cbv zeta. rewrite Ha, Ht, Hs, Hf. clear Ha Ht Hs Hf.
  set (txm := filter (fun r => in_period start end_ (tx_date r) = true) tx).
  set (trm := filter (fun r => in_period start end_ (tr_date r) = true) tr).
  assert (Hlen : (length trm <= length tr)%nat) by apply length_filter.
  split; [apply count_true_bounds|]. split; [apply count_true_bounds|].
  split; [|split; [apply py_max_zero_l_always|split; [|split]]].
  - etransitivity; [apply count_true_disjoint|lia].
    intros r [H1 _]%andb_true_iff [H2 _]%andb_true_iff.
    destruct (tr_type r) as [s|]; [|discriminate]. simpl in H1, H2.
    unfold str_eqb in H1. apply bool_decide_eq_true_1 in H1. subst s.
    vm_compute in H2. discriminate.
  - rewrite length_map, length_take. lia.
  - rewrite <- firstn_map.
    assert (Hnd : NoDup (map fst (category_sums txm)))
      by (rewrite category_sums_labels; apply distinct_NoDup).
    rewrite <- (take_drop 3 (map fst (category_sums txm))) in Hnd.
    apply NoDup_app in Hnd as [Hnd _]. exact Hnd.
  - intros c Hc. rewrite <- firstn_map in Hc.
    assert (Hin : c ∈ map fst (category_sums txm)).
    { rewrite <- (take_drop 3 (map fst (category_sums txm))).
      apply elem_of_app. left. exact Hc. }
    rewrite category_sums_labels in Hin. apply distinct_subset in Hin.
    apply list_elem_of_fmap in Hin as (r & -> & Hr).
    apply list_elem_of_filter in Hr as [Hp Hr].
    exists r. auto.
Qed.

(** *** From the tables to the scores *)

Lemma fdiv_nn x c : nn x -> pos_finite c -> nn (fdiv x c).
Proof.
  destruct c as [?|?| |[] m' e']; simpl; try tauto. intros Hx _.
  destruct x as [s|s| |s m e]; simpl in *; try tauto; try exact I.
  - subst. reflexivity.
  - subst s. unfold fdiv, SFdiv.
    pose proof (div_core_nonneg (Z.pos m) e (Z.pos m') e'
                  ltac:(lia) ltac:(lia)) as H.
    destruct (SFdiv_core_binary prec emax (Z.pos m) e (Z.pos m') e')
      as [[mz ez] lz].
    simpl in H. apply binary_round_aux_nn, H.
Qed.

Lemma fabs_nn x : nn x -> nn (fabs x).
Proof. destruct x; simpl; auto. Qed.

Lemma Forall_nn_filter_map {X : Type} (amount : X -> spec_float)
    (p : X -> Prop) `{forall x, Decision (p x)} (l : list X) :
  Forall (fun r => nn (amount r)) l ->
  Forall nn (map amount (filter p l)).
Proof.
  intros Hl. apply Forall_fmap. apply Forall_forall. intros r Hr.
  apply list_elem_of_filter in Hr as [_ Hr].
  rewrite Forall_forall in Hl. apply Hl, Hr.
Qed.

(** X14. From the tables to the scores: when no amount of the two
    tables is negative or NaN, the average balance is not negative, and
    the library's sum of such numbers is not negative, the features
    that [compute_features_for_client] returns satisfy the conditions
    under which the scores are not negative; so every score that
    [score_products] computes from them is [>= 0]. *)
Theorem extracted_features_score_nonneg tx tr avg_balance start end_ :
  sum_nonneg P ->
  Forall (fun r => nn (tx_amount r)) tx ->
  Forall (fun r => nn (tr_amount r)) tr ->
  nn avg_balance ->
  Z.of_nat (length tr) < 2 ^ 63 ->
  let f := compute_features_for_client tx tr avg_balance (start, end_) in
  nonneg_inputs f avg_balance
  /\ Forall (fun ps => fge (snd ps) zero = true)
        (snd (score_products f avg_balance)).
Proof.
  intros Hsum Htx Htr Hbal Hlen.
  assert (Hin : nonneg_inputs
            (compute_features_for_client tx tr avg_balance (start, end_))
            avg_balance).
  { destruct (features_fields tx tr avg_balance start end_)
      as (H1 & H2 & H3 & H4 & H5 & H6 & H7 & H8 & H9 & H10 & _).
    cbv zeta in *. unfold nonneg_inputs.
    rewrite H1, H2, H3, H4, H5, H6, H7, H8, H9, H10.
    clear H1 H2 H3 H4 H5 H6 H7 H8 H9 H10.
    set (txm := filter (fun r => in_period start end_ (tx_date r) = true) tx).
    set (trm := filter (fun r => in_period start end_ (tr_date r) = true) tr).
    assert (Htxm : Forall (fun r => nn (tx_amount r)) txm).
    { apply Forall_forall. intros r Hr.
      apply list_elem_of_filter in Hr as [_ Hr].
      rewrite Forall_forall in Htx. apply Htx, Hr. }
    assert (Htrm : Forall (fun r => nn (tr_amount r)) trm).
    { apply Forall_forall. intros r Hr.
      apply list_elem_of_filter in Hr as [_ Hr].
      rewrite Forall_forall in Htr. apply Htr, Hr. }
    assert (Hl : (length trm <= length tr)%nat) by apply length_filter.
    rewrite <- !nn_fge.
    split; [apply Hsum, Forall_nn_filter_map, Htxm|].
    split; [apply Hsum, Forall_nn_filter_map, Htxm|].
    split; [apply Hsum, Forall_nn_filter_map, Htxm|].
    split; [apply Hsum, Forall_fmap; exact Htxm|].
    split.
    { destruct (map fst (take 3 (category_sums txm))); [exact I|].
      apply Hsum, Forall_fmap, Forall_forall. intros [lab sm] Hls.
      assert (Hg : (lab, sm) ∈ category_sums txm).
      { rewrite <- (take_drop 3 (category_sums txm)).
        apply elem_of_app. left. exact Hls. }
      unfold category_sums in Hg. rewrite sorted_desc_perm in Hg.
      apply list_elem_of_fmap in Hg as (lab' & [= -> ->] & _).
      simpl. apply Hsum, Forall_nn_filter_map, Htxm. }
    split.
    { pose proof (count_true_bounds
        (fun r => cell_eq (u "atm_withdrawal") (tr_type r)
                  && cell_eq (u "out") (tr_direction r)) trm). lia. }
    split.
    { pose proof (count_true_bounds
        (fun r => isin [u "p2p_out"; u "card_out"; u "utilities_out"] (tr_type r)
                  && cell_eq (u "out") (tr_direction r)) trm). lia. }
    split; [apply py_max_zero_l_always|].
    split.
    { apply Hsum, Forall_fmap, Forall_forall. intros r Hr.
      apply list_elem_of_filter in Hr as [_ Hr].
      rewrite Forall_forall in Htrm. apply fabs_nn, Htrm, Hr. }
    split; [|exact Hbal].
    apply fdiv_nn; [|exact I]. apply fmul_nn_r; [exact Hbal|exact I]. }
  split; [exact Hin|].
  simpl. eapply Forall_impl; [apply scores_of_nn, (nonneg_numeric _ _ Hin)|].
  intros ps Hps. apply nn_fge, Hps.
Qed.

End WithLib.

Lemma model_sum_nonneg : sum_nonneg model.
Proof.
  intros l. simpl.
  assert (H : forall acc, nn acc -> Forall nn l -> nn (fold_left fadd l acc)).
  { induction l as [|x l IH]; intros acc Ha Hl; [exact Ha|].
    apply Forall_cons in Hl as [Hx Hl]. simpl.
    apply IH; [apply fadd_nn; assumption|exact Hl]. }
  apply H. exact I.
Qed.

End FeatureFacts2.

Module FeatureExamples2.

Import Pandas Scorer Props FeatureProps FeatureSamples FeatureFacts2.

Example march_features :
  let f := compute_features_for_client (P := model) march_purchases
             march_transfers (dec 2500000 0) march in
  FAV_CATS f = [Some (u "Отели"); Some (u "Такси"); Some (u "Едим дома")]
  /\ TRAVEL_SPEND f = dec 45800 0
  /\ ATM_CNT f = 1 /\ TRANSFER_CNT f = 1
  /\ SHORTFALL f = zero.
Proof. vm_compute. repeat split; reflexivity. Qed.

Lemma extracted_features_score_nonneg_witness :
  (sum_nonneg model
   /\ Forall (fun r => nn (tx_amount r)) march_purchases
   /\ Forall (fun r => nn (tr_amount r)) march_transfers
   /\ nn (dec 2500000 0)
   /\ Z.of_nat (length march_transfers) < 2 ^ 63)
  /\ Forall (fun ps => fge (snd ps) zero = true)
        (snd (score_products (B := PySort.reference)
                (compute_features_for_client (P := model) march_purchases
                   march_transfers (dec 2500000 0) march)
                (dec 2500000 0))).
Proof.
  assert (H1 : Forall (fun r => nn (tx_amount r)) march_purchases)
    by (repeat constructor).
  assert (H2 : Forall (fun r => nn (tr_amount r)) march_transfers)
    by (repeat constructor).
  assert (H3 : nn (dec 2500000 0)) by reflexivity.
  assert (H4 : Z.of_nat (length march_transfers) < 2 ^ 63) by reflexivity.
  split; [exact (conj model_sum_nonneg (conj H1 (conj H2 (conj H3 H4))))|].
  exact (proj2 (extracted_features_score_nonneg (P := model)
                  (B := PySort.reference) march_purchases
                  march_transfers (dec 2500000 0) (fst march) (snd march)
                  model_sum_nonneg H1 H2 H3 H4)).
Defined.

End FeatureExamples2.

(** ** The anti-spam gate, client by client *)

Module AntiSpamFacts2.

Import Re AntiSpam SpamProps AntiSpamFacts.

Section Gate.
Context {T : Tables}.

(** The answer to a call and the record it leaves for its client are
    read off the client's own record. *)
Lemma can_send_local now m m' c cta product mh :
  m !! c = m' !! c ->
  fst (can_send now m c cta product mh) = fst (can_send now m' c cta product mh)
  /\ snd (can_send now m c cta product mh) !! c
     = snd (can_send now m' c cta product mh) !! c.
Proof.
  intros H. unfold can_send. rewrite <- H.
  destruct (m !! c) as [last|] eqn:E.
  - destruct (float_lt_int _ _); [split; [reflexivity|simpl; congruence]|].
    destruct (bool_decide _); [split; [reflexivity|simpl; congruence]|].
    simpl. rewrite !lookup_insert_eq. split; reflexivity.
  - simpl. rewrite !lookup_insert_eq. split; reflexivity.
Qed.

(** A call for one client leaves the records of the others alone. *)
Lemma can_send_other now m c c' cta product mh :
  c' <> c -> snd (can_send now m c' cta product mh) !! c = m !! c.
Proof.
  intros Hne. unfold can_send.
  destruct (m !! c') as [last|].
  - destruct (float_lt_int _ _); [reflexivity|].
    destruct (bool_decide _); [reflexivity|].
    simpl. apply lookup_insert_ne, Hne.
  - simpl. apply lookup_insert_ne, Hne.
Qed.

(** X15. Clients do not interfere: along any sequence of calls, the
    answers given to one client are the answers that the gate gives to
    that client's calls alone, and they depend on the cache only through
    the client's own record; the record left for the client is the
    same as well. *)
Theorem clients_do_not_interfere m m' c calls :
  m !! c = m' !! c ->
  answers_for c calls (run m calls) = run m' (calls_of c calls)
  /\ exec m calls !! c = exec m' (calls_of c calls) !! c.
Proof.
  revert m m'. induction calls as [|k calls IH]; intros m m' H.
  - split; [reflexivity|exact H].
  - unfold answers_for, calls_of. simpl run. simpl exec.
    destruct (can_send (at_time k) m (who k) (req_cta k) (req_product k)
                (req_min_hours k)) as [ok m1] eqn:E.
    simpl zip. rewrite !filter_cons. simpl fst.
    destruct (decide (who k = c)) as [Hc|Hne].
    + simpl run. simpl exec.
      destruct (can_send (at_time k) m' (who k) (req_cta k) (req_product k)
                  (req_min_hours k)) as [ok' m1'] eqn:E'.
      rewrite Hc in E, E'.
      destruct (can_send_local (at_time k) m m' c (req_cta k) (req_product k)
                  (req_min_hours k) H) as [Hok Hm].
      rewrite E, E' in Hok, Hm. simpl in Hok, Hm. subst ok'.
      destruct (IH m1 m1' Hm) as [IH1 IH2].
      split; [simpl; f_equal; exact IH1|exact IH2].
    + assert (Hm : m1 !! c = m' !! c).
      { rewrite <- H.
        pose proof (can_send_other (at_time k) m c (who k) (req_cta k)
                      (req_product k) (req_min_hours k) Hne) as Ho.
        rewrite E in Ho. exact Ho. }
      exact (IH m1 m' Hm).
Qed.

End Gate.

Example interleaved_calls :
  run (T := basic) ∅
    [SpamSamples.first_call; other_client; SpamSamples.hour_later;
     SpamSamples.three_days_later]
  = [true; true; false; false].
Proof. vm_compute. reflexivity. Qed.

Lemma clients_do_not_interfere_witness :
  (∅ : gmap Z sent) !! 8 = (∅ : gmap Z sent) !! 8
  /\ answers_for 8
       [SpamSamples.first_call; other_client; SpamSamples.hour_later;
        SpamSamples.three_days_later]
       (run (T := basic) ∅
          [SpamSamples.first_call; other_client; SpamSamples.hour_later;
           SpamSamples.three_days_later])
     = run (T := basic) ∅
         (calls_of 8
            [SpamSamples.first_call; other_client; SpamSamples.hour_later;
             SpamSamples.three_days_later]).
Proof.
  split; [reflexivity|].
  exact (proj1 (clients_do_not_interfere (T := basic) ∅ ∅ 8
                  [SpamSamples.first_call; other_client; SpamSamples.hour_later;
                   SpamSamples.three_days_later] eq_refl)).
Defined.

End AntiSpamFacts2.

(** ** The checks of the pushes *)

Module ValidateFacts.

Import Re Pushgen Validate ReFacts ReFacts2 StrFacts PushProps.
Import PushgenFacts PushgenCta PushgenRender.

Lemma cta_words_split : CTA_WORDS = PUSH_OK_WORDS ++ [u "Узнать"].
Proof. vm_compute. reflexivity. Qed.

Lemma metrics_words : map fst METRICS_ALTS = CTA_WORDS.
Proof. vm_compute. reflexivity. Qed.

Section WithTables.
Context {T : Tables}.

(** Where [finditer] reports a match, the pattern matches after the
    character that stands before. *)
Lemma finditer_from_inv_prev m s : forall prev pos skip st e,
  (st, e) ∈ finditer_from m prev s pos skip ->
  exists a b, s = a ++ b /\ st = (pos + length a)%nat
              /\ is_Some (m (last_or prev a) b).
Proof.
  induction s as [|c s IH]; intros prev pos skip st e H; simpl in H.
  - set_solver.
  - assert (Hrec : forall k, (st, e) ∈ finditer_from m (Some c) s (S pos) k ->
      exists a b, c :: s = a ++ b /\ st = (pos + length a)%nat
                  /\ is_Some (m (last_or prev a) b)).
    { intros k Hk. destruct (IH _ _ _ _ _ Hk) as (a & b & -> & -> & Hm).
      exists (c :: a), b. simpl. split; [reflexivity|]. split; [lia|].
      rewrite last_or_cons. exact Hm. }
    destruct skip as [|k]; [|apply (Hrec k), H].
    destruct (m prev (c :: s)) as [n|] eqn:E; [|apply (Hrec O), H].
    apply elem_of_cons in H as [[= -> ->]|H]; [|apply (Hrec (Nat.pred n)), H].
    exists [], (c :: s). simpl. split; [reflexivity|].
    split; [lia|]. unfold last_or. simpl. rewrite E. eexists; reflexivity.
Qed.

Lemma search_from_app m a b prev :
  m (last_or prev a) b = true -> search_from m prev (a ++ b) = true.
Proof.
  revert prev. induction a as [|x a IH]; intros prev H.
  - simpl. unfold last_or in H. simpl in H.
    destruct b; simpl; rewrite H; reflexivity.
  - simpl. rewrite last_or_cons in H. rewrite (IH _ H). apply orb_true_r.
Qed.

Lemma ilit_any_prev w s prev prev' :
  is_Some (ilit w s prev) -> is_Some (ilit w s prev').
Proof.
  intros [[lastc rest] H].
  destruct (ilit_split _ _ _ _ _ H) as (m & -> & _ & _ & Hre).
  rewrite Hre. eexists; reflexivity.
Qed.

(** X16. The CTA check of [_push_ok] and the pattern of the renderer
    differ by one word: when [_push_ok] reports that a text has no CTA,
    every match of [_CTA_RE] in that text is an occurrence of the word
    [Узнать], which the pattern of [_push_ok] does not list. *)
Theorem push_ok_misses_only_one_word text :
  Validate.NoCta ∈ snd (_push_ok (Some text)) ->
  forall st e, (st, e) ∈ cta_finditer text ->
    begins_ci (u "Узнать") (drop st text) = true.
Proof.
  intros Hno st e Hm.
  assert (Hs : search_from push_ok_cta_at None text = false).
  { unfold _push_ok in Hno.
    destruct (bool_decide (strip text = []));
      [simpl in Hno; apply list_elem_of_singleton in Hno; discriminate|].
    simpl in Hno.
    destruct (search_from push_ok_cta_at None text); [|reflexivity].
    exfalso. rewrite app_nil_r in Hno.
    apply elem_of_app in Hno as [Hno|Hno].
    - destruct (MAX_PUSH_LEN <? len text);
        [apply list_elem_of_singleton in Hno; discriminate|inversion Hno].
    - destruct (1 <? count_char 33 text);
        [apply list_elem_of_singleton in Hno; discriminate|inversion Hno]. }
  apply finditer_from_inv_prev in Hm as (a & b & -> & -> & [n Hn]).
  simpl. rewrite drop_app_length.
  unfold cta_match_at in Hn.
  destruct (boundary (last_or None a) (head b)); [|discriminate].
  apply alt_then_boundary_inv_b in Hn as (w & lastc & rest & Hw & Hl & Hb).
  rewrite cta_words_split in Hw. apply elem_of_app in Hw as [Hw|Hw].
  - exfalso.
    assert (Hp : push_ok_cta_at (last_or None a) b = true).
    { unfold push_ok_cta_at. apply bool_decide_eq_true_2.
      eapply alt_then_boundary_some; eassumption. }
    rewrite (search_from_app _ _ _ _ Hp) in Hs. discriminate.
  - apply list_elem_of_singleton in Hw. subst w.
    unfold begins_ci. apply bool_decide_eq_true_2.
    apply (ilit_any_prev _ _ (last_or None a)). rewrite Hl. eexists; reflexivity.
Qed.

(** *** [CTA_RE] of [metrics.py] against [_CTA_RE] *)

Lemma spaces_then_head exts prev s n r :
  spaces_then exts prev s n = Some r ->
  exists c s', s = c :: s' /\ is_space c = true.
Proof.
  destruct s as [|c s']; simpl; [discriminate|].
  destruct (is_space c) eqn:E; [|discriminate].
  intros _. exists c, s'. split; [reflexivity|exact E].
Qed.

Lemma first_alt_inv alts prev s r :
  first_alt alts prev s = Some r ->
  exists alt, alt ∈ alts /\ metrics_alt alt prev s = Some r.
Proof.
  induction alts as [|alt alts IH]; simpl; [discriminate|].
  destruct (metrics_alt alt prev s) as [r'|] eqn:E.
  - intros [= <-]. exists alt. split; [left|exact E].
  - intros H. destruct (IH H) as (alt' & Hin & Ha).
    exists alt'. split; [right; exact Hin|exact Ha].
Qed.

Lemma first_alt_some alts alt prev s :
  alt ∈ alts -> is_Some (metrics_alt alt prev s) ->
  is_Some (first_alt alts prev s).
Proof.
  intros Hin Hs. induction alts as [|alt' alts IH]; [set_solver|].
  simpl. destruct (metrics_alt alt' prev s) eqn:E; [eexists; reflexivity|].
  apply elem_of_cons in Hin as [->|Hin]; [|apply IH, Hin].
  rewrite E in Hs. destruct Hs. discriminate.
Qed.

Context {L : TableLaws T}.

Lemma space_is_not_word c : is_space c = true -> is_word c = false.
Proof.
  intros H. destruct (is_word c) eqn:E; [|reflexivity].
  apply word_not_space in E. congruence.
Qed.

(** At every position the two patterns match together. *)
Lemma metrics_match_iff prev s :
  is_Some (metrics_match_at prev s) <-> is_Some (cta_match_at prev s).
Proof.
  unfold metrics_match_at, cta_match_at.
  destruct (boundary prev (head s)); [|split; intros [x Hx]; discriminate].
  split.
  - intros [r Hr]. apply first_alt_inv in Hr as ([w exts] & Hin & Ha).
    assert (Hw : w ∈ CTA_WORDS).
    { rewrite <- metrics_words. apply list_elem_of_fmap.
      exists (w, exts). split; [reflexivity|exact Hin]. }
    unfold metrics_alt in Ha. simpl in Ha.
    destruct (ilit w s prev) as [[lastc rest]|] eqn:El; [|discriminate].
    apply (alt_then_boundary_some CTA_WORDS w prev s lastc rest Hw El).
    destruct (spaces_then exts lastc rest (length w)) as [r'|] eqn:Es.
    + apply spaces_then_head in Es as (c & s' & -> & Hc).
      pose proof cta_words_shape as Hshape.
      rewrite forallb_forall in Hshape.
      specialize (Hshape w (proj1 (list_elem_of_In _ _) Hw)).
      destruct w as [|c0 w']; [discriminate|].
      destruct (last (c0 :: w')) as [d|] eqn:Elast; [|discriminate].
      apply andb_true_iff in Hshape as [_ Hd]. apply cyr_range in Hd.
      destruct (ilit_last _ _ _ _ _ d Elast El) as (z & -> & Hz).
      unfold boundary. simpl.
      rewrite (ieq_cyrillic_word d z Hd Hz), (space_is_not_word c Hc).
      reflexivity.
    + destruct (boundary lastc (head rest)); [reflexivity|discriminate].
  - intros [n Hn].
    apply alt_then_boundary_inv_b in Hn as (w & lastc & rest & Hw & Hl & Hb).
    rewrite <- metrics_words in Hw.
    apply list_elem_of_fmap in Hw as ([w' exts] & -> & Hin).
    simpl in Hl.
    apply (first_alt_some _ _ _ _ Hin).
    unfold metrics_alt. simpl. rewrite Hl.
    destruct (spaces_then exts lastc rest (length w')); [eexists; reflexivity|].
    rewrite Hb. eexists; reflexivity.
Qed.

Lemma metrics_search_from_some prev s pos :
  is_Some (metrics_search_from prev s pos) <->
  exists a b, s = a ++ b /\ is_Some (metrics_match_at (last_or prev a) b).
Proof.
  revert prev pos. induction s as [|c s IH]; intros prev pos; simpl.
  - destruct (metrics_match_at prev []) as [n|] eqn:E.
    + split; [|intros _; eexists; reflexivity].
      intros _. exists [], []. split; [reflexivity|].
      unfold last_or. simpl. rewrite E. eexists; reflexivity.
    + split; [intros [x Hx]; discriminate|].
      intros (a & b & Hab & Hm). symmetry in Hab.
      apply app_eq_nil in Hab as [-> ->].
      unfold last_or in Hm. simpl in Hm. rewrite E in Hm.
      destruct Hm. discriminate.
  - destruct (metrics_match_at prev (c :: s)) as [n|] eqn:E.
    + split; [|intros _; eexists; reflexivity].
      intros _. exists [], (c :: s). split; [reflexivity|].
      unfold last_or. simpl. rewrite E. eexists; reflexivity.
    + rewrite IH. split.
      * intros (a & b & -> & Hm). exists (c :: a), b.
        split; [reflexivity|]. rewrite last_or_cons. exact Hm.
      * intros (a & b & Hab & Hm). destruct a as [|x a].
        -- simpl in Hab. subst b. unfold last_or in Hm. simpl in Hm.
           rewrite E in Hm. destruct Hm. discriminate.
        -- injection Hab as <- ->. exists a, b. split; [reflexivity|].
           rewrite <- (last_or_cons prev). exact Hm.
Qed.

Lemma metrics_search_iff text :
  is_Some (metrics_search text) <-> cta_finditer text <> [].
Proof.
  unfold metrics_search. rewrite metrics_search_from_some. split.
  - intros (a & b & -> & Hm). apply metrics_match_iff in Hm as [n Hn].
    apply (finditer_from_nonempty _ _ _ _ _ n); [|exact Hn].
    intros ->. unfold cta_match_at in Hn.
    destruct (boundary _ _); discriminate.
  - intros Hne. destruct (cta_finditer text) as [|[st e] l] eqn:E; [congruence|].
    assert (Hin : (st, e) ∈ cta_finditer text) by (rewrite E; left).
    apply finditer_from_inv_prev in Hin as (a & b & -> & _ & Hm).
    exists a, b. split; [reflexivity|]. apply metrics_match_iff, Hm.
Qed.

(** Whatever [generate_personalized_push] returns carries a CTA. *)
Lemma generated_push_found product name month c d max_len push :
  generate_personalized_push product name month c d max_len = Some push ->
  cta_finditer push <> [].
Proof.
  unfold generate_personalized_push.
  destruct (_cta_for_product_var product _) as [cta|] eqn:Ecta; [|discriminate].
  destruct (_benefit_phrase _ _ _ _) as [benefit_|]; [|discriminate].
  intros H. apply (inj Some) in H. subst push. apply clamp_cta_found.
  rewrite !app_assoc. rewrite <- (app_assoc _ cta), <- (app_assoc _ (u " ")).
  apply message_cta_found. eapply cta_for_product_in, Ecta.
Qed.

(** X17. The column [has_cta] of [push_length_stats] agrees with the
    renderer: [CTA_RE] of [metrics.py], with its optional second words,
    finds a CTA in a text exactly when [_CTA_RE] of the renderer does,
    and the CTA text extracted is empty exactly when there is none.  So
    every push that [generate_personalized_push] returns is counted as
    having a CTA. *)
Theorem metrics_has_cta_agrees_with_renderer :
  (forall text,
     (has_cta (push_length_stats_row text) = true <-> cta_search text <> None)
     /\ (has_cta (push_length_stats_row text) = false ->
         cta_text (push_length_stats_row text) = []))
  /\ (forall product name month c d max_len push,
        generate_personalized_push product name month c d max_len = Some push ->
        has_cta (push_length_stats_row push) = true).
Proof.
  assert (H : forall text,
    has_cta (push_length_stats_row text) = true <-> cta_search text <> None).
  { intros text. simpl. rewrite bool_decide_eq_true, metrics_search_iff.
    symmetry. apply search_finditer. }
  split.
  - intros text. split; [apply H|].
    simpl. intros Hf. apply bool_decide_eq_false_1 in Hf.
    destruct (metrics_search text) as [[st n]|]; [|reflexivity].
    exfalso. apply Hf. eexists; reflexivity.
  - intros product name month c d max_len push Hp.
    apply H, search_finditer. eapply generated_push_found, Hp.
Qed.

End WithTables.

End ValidateFacts.

Module ValidateExamples.

Import Re ReLaws Pushgen Validate PushSamples ValidateFacts.

(** A push that the renderer builds for the cash loan: [_CTA_RE] finds
    its CTA, [Узнать лимит], and [_push_ok] reports that it has none. *)
Example cash_loan_push_fails_push_ok :
  exists push,
    generate_personalized_push (T := basic) (u "Кредит наличными") (u "Анна")
      (Some (u "августе")) empty_ctx None (Some 220) = Some push
    /\ cta_search (T := basic) push <> None
    /\ _push_ok (T := basic) (Some push) = (false, [Validate.NoCta])
    /\ has_cta (push_length_stats_row (T := basic) push) = true.
Proof.
  eexists. split; [vm_compute; reflexivity|].
  split; [vm_compute; discriminate|]. split; vm_compute; reflexivity.
Qed.

(** The other way round: the pattern of [_push_ok] has no word boundary
    on the left and accepts a CTA word inside a longer word. *)
Example push_ok_accepts_inside_a_word :
  _push_ok (T := basic) (Some (u "Можно переоформить.")) = (true, [])
  /\ cta_search (T := basic) (u "Можно переоформить.") = None.
Proof. vm_compute. split; reflexivity. Qed.

Example stats_of_a_push :
  push_length_stats_row (T := basic) (u "Анна, курс выгодный. Открыть  счёт.")
  = {| length_ := 35; has_cta := true; in_range_180_220 := false;
       cta_text := u "Открыть  счёт" |}.
Proof. vm_compute. reflexivity. Qed.

Lemma push_ok_misses_only_one_word_witness :
  Validate.NoCta ∈ snd (_push_ok (T := basic) (Some (u "Деньги рядом. Узнать лимит.")))
  /\ begins_ci (T := basic) (u "Узнать")
       (drop 14 (u "Деньги рядом. Узнать лимит.")) = true.
Proof.
  assert (H : Validate.NoCta ∈ snd (_push_ok (T := basic)
                             (Some (u "Деньги рядом. Узнать лимит."))))
    by (vm_compute; left).
  split; [exact H|].
  apply (push_ok_misses_only_one_word (T := basic) _ H 14%nat 20%nat).
  vm_compute. left.
Defined.

Lemma metrics_has_cta_agrees_with_renderer_witness :
  (TableLaws basic
   /\ cta_search (T := basic) (u "Анна, курс выгодный. Открыть  счёт.") <> None)
  /\ has_cta (push_length_stats_row (T := basic)
                (u "Анна, курс выгодный. Открыть  счёт.")) = true.
Proof.
  assert (H : cta_search (T := basic) (u "Анна, курс выгодный. Открыть  счёт.")
              <> None) by (vm_compute; discriminate).
  split; [split; [exact basic_laws|exact H]|].
  exact (proj2 (proj1 (proj1 (metrics_has_cta_agrees_with_renderer (T := basic))
                         (u "Анна, курс выгодный. Открыть  счёт."))) H).
Defined.

End ValidateExamples.

(** ** Amounts as text *)

Module TextFacts.

Import Re Pandas Ingest IngestProps IngestFacts Text.

Local Open Scope N_scope.

Lemma digits_fuel_digits fuel : forall n acc,
  Forall (fun c => (0x30 <=? c) && (c <=? 0x39) = true) acc ->
  Forall (fun c => (0x30 <=? c) && (c <=? 0x39) = true) (digits_fuel fuel n acc).
Proof.
  induction fuel as [|f IH]; intros n acc Hacc; simpl; [exact Hacc|].
  assert (Hd : Forall (fun c => (0x30 <=? c) && (c <=? 0x39) = true)
                 ((0x30 + n mod 10) :: acc)).
  { constructor; [|exact Hacc].
    assert (H10 : 10 <> 0) by discriminate.
    pose proof (N.mod_upper_bound n 10 H10).
    apply andb_true_iff.
    split; apply N.leb_le; revert H; generalize (n mod 10); intros; lia. }
  destruct (n <? 10); [exact Hd|apply IH, Hd].
Qed.

Lemma str_of_N_digits n :
  Forall (fun c => (0x30 <=? c) && (c <=? 0x39) = true) (str_of_N n).
Proof. apply digits_fuel_digits. constructor. Qed.

Lemma filter_rev {X : Type} (p : X -> Prop) `{forall x, Decision (p x)} l :
  filter p (rev l) = rev (filter p l).
Proof.
  induction l as [|x l IH]; [reflexivity|].
  simpl. rewrite filter_app, IH, filter_cons.
  destruct (decide (p x)); simpl.
  - rewrite filter_cons. destruct (decide (p x)); [reflexivity|contradiction].
  - rewrite filter_cons. destruct (decide (p x)); [contradiction|].
    rewrite filter_nil, app_nil_r. reflexivity.
Qed.

(** Taking the commas out of the grouped digits gives the digits. *)
Lemma commas_rev_filter r : forall k,
  Forall (fun c => c <> 0x2C) r ->
  filter (fun c => c <> 0x2C) (commas_rev r k) = r.
Proof.
  unfold str.
  induction r as [|d r IH]; intros k Hr; [reflexivity|].
  apply Forall_cons in Hr as [Hd Hr]. simpl.
  destruct (Nat.eqb k 3).
  - rewrite filter_cons. destruct (decide (0x2C <> 0x2C)); [congruence|].
    rewrite filter_cons. destruct (decide (d <> 0x2C)); [|contradiction].
    rewrite IH by exact Hr. reflexivity.
  - rewrite filter_cons. destruct (decide (d <> 0x2C)); [|contradiction].
    rewrite IH by exact Hr. reflexivity.
Qed.

Lemma format_comma_filter val :
  filter (fun c => c <> 0x2C) (format_comma val) = str_of_Z val.
Proof.
  unfold format_comma, str.
  assert (Hd : Forall (fun c => c <> 0x2C)
                 (rev (str_of_N (Z.to_N (Z.abs val))))).
  { apply Forall_rev. eapply Forall_impl; [apply str_of_N_digits|].
    intros c Hc ->. discriminate. }
  rewrite filter_app, filter_rev, (commas_rev_filter _ _ Hd), rev_involutive.
  destruct val as [|p|p]; simpl; reflexivity.
Qed.

Lemma format_comma_chars val :
  Forall (fun c => digit_or_minus c = true \/ c = 0x2C) (format_comma val).
Proof.
  unfold format_comma. apply Forall_app. split.
  - destruct (val <? 0)%Z; repeat constructor.
  - apply Forall_rev.
    assert (H : forall r k,
      Forall (fun c => (0x30 <=? c) && (c <=? 0x39) = true) r ->
      Forall (fun c => digit_or_minus c = true \/ c = 0x2C) (commas_rev r k)).
    { induction r as [|d r IH]; intros k Hr; [constructor|].
      apply Forall_cons in Hr as [Hd Hr]. simpl.
      assert (Hdm : digit_or_minus d = true \/ d = 0x2C)
        by (left; unfold digit_or_minus; rewrite Hd; reflexivity).
      destruct (Nat.eqb k 3).
      - constructor; [right; reflexivity|].
        constructor; [exact Hdm|apply IH, Hr].
      - constructor; [exact Hdm|apply IH, Hr]. }
    apply H, Forall_rev, str_of_N_digits.
Qed.

(** What the cleaning of amounts makes of a text of digits, minus signs
    and commas in which the commas have been turned into spaces. *)
Lemma clean_spaced s :
  Forall (fun c => digit_or_minus c = true \/ c = 0x2C) s ->
  flat_map spec_clean_char
    (replace_char NBSP (u " ") (replace_char 0x2C (u " ") s))
  = filter (fun c => c <> 0x2C) s.
Proof.
  unfold replace_char, str.
  induction 1 as [|c s Hc _ IH]; [reflexivity|].
  cbn [flat_map]. rewrite !flat_map_app, IH, filter_cons.
  destruct Hc as [Hc| ->].
  - assert (Hne : c <> 0x2C) by (intros ->; discriminate).
    assert (Hn : c <> 0xA0) by (intros ->; discriminate).
    assert (Hs : c <> 0x20) by (intros ->; discriminate).
    destruct (decide (c <> 0x2C)); [|contradiction].
    apply N.eqb_neq in Hne. apply N.eqb_neq in Hn. apply N.eqb_neq in Hs.
    rewrite Hne. cbn [flat_map]. unfold NBSP at 1. rewrite Hn.
    cbn [flat_map app]. unfold spec_clean_char at 1.
    rewrite Hn, Hs, Hne.
    assert (Ha : amount_char c = true).
    { unfold amount_char. unfold digit_or_minus in Hc.
      apply orb_true_iff in Hc as [Hc|Hc]; rewrite Hc;
        [reflexivity|rewrite !orb_true_r; reflexivity]. }
    rewrite Ha. reflexivity.
  - destruct (decide (0x2C <> 0x2C)); [congruence|]. reflexivity.
Qed.

(** X18. [kzt] never raises: NaN and the infinities are shown as
    [0 ₸]; and the cleaning of amounts undoes the formatting: from the
    text that [kzt] returns it gives back the digits of the rounded
    value, with its sign and without the spaces and the currency sign. *)
Theorem kzt_is_undone_by_the_cleaning x :
  clean_amount (kzt x)
  = str_of_Z (match py_round x with Some v => v | None => 0%Z end)
  /\ (py_round x = None -> kzt x = u "0 ₸").
Proof.
  split.
  - rewrite clean_amount_spec. unfold kzt.
    rewrite flat_map_app, clean_spaced by apply format_comma_chars.
    rewrite format_comma_filter.
    change (flat_map spec_clean_char (u " ₸")) with (@nil N).
    apply app_nil_r.
  - intros H. unfold kzt. rewrite H. vm_compute. reflexivity.
Qed.

End TextFacts.

Module TextExamples.

Import Re Pandas Ingest Text TextFacts.

Example kzt_of_the_docstring :
  kzt (dec 12345678 1) = u "1 234 568 ₸"
  /\ kzt (dec 25 1) = u "2 ₸" /\ kzt (dec 35 1) = u "4 ₸"
  /\ kzt (SFopp (dec 12345 1)) = u "-1 234 ₸"
  /\ kzt S754_nan = u "0 ₸" /\ kzt inf = u "0 ₸"
  /\ kzt (dec 999 0) = u "999 ₸" /\ kzt (dec 1000 0) = u "1 000 ₸".
Proof. vm_compute. repeat split; reflexivity. Qed.

Example kzt_parsed_back :
  _parse_amount (P := model) (kzt (dec 12345678 1)) = dec 1234568 0.
Proof. vm_compute. reflexivity. Qed.

End TextExamples.

(** ** The window of the last month *)

Module CalendarFacts.

Import Pandas Calendar.

Lemma check_range_spec check lo n :
  check_range check lo n = true ->
  forall i, lo <= i < lo + Z.of_N n -> check i = true.
Proof.
  unfold check_range.
  set (step := fun p : Z * bool => (fst p + 1, snd p && check (fst p))).
  assert (Hfst : forall k, fst (N.iter k step (lo, true)) = lo + Z.of_N k).
  { intros k. induction k as [|k IH] using N.peano_ind; [simpl; lia|].
    rewrite N.iter_succ. unfold step at 1. simpl. rewrite IH. lia. }
  induction n as [|n IH] using N.peano_ind; [intros _ i Hi; lia|].
  rewrite N.iter_succ. unfold step at 1. simpl.
  intros [Hok Hc]%andb_true_iff i Hi.
  rewrite Hfst in Hc.
  destruct (Z.eq_dec i (lo + Z.of_N n)) as [->|Hne]; [exact Hc|].
  apply IH; [exact Hok|lia].
Qed.

Lemma years_ok : check_range year_ok 0 400 = true.
Proof. vm_compute. reflexivity. Qed.

Lemma yoe_mono_step doe : 0 <= doe < 146096 -> yoe_of doe <= yoe_of (doe + 1).
Proof.
  intros H. unfold yoe_of. apply Z.div_le_mono; [lia|].
  Z.div_mod_to_equations. lia.
Qed.

Lemma yoe_mono a b : 0 <= a -> a <= b -> b <= 146096 -> yoe_of a <= yoe_of b.
Proof.
  intros Ha Hab Hb.
  assert (H : forall n, 0 <= n -> a + n <= 146096 -> yoe_of a <= yoe_of (a + n)).
  { apply (natlike_ind (fun n => a + n <= 146096 -> yoe_of a <= yoe_of (a + n))).
    - intros _. rewrite Z.add_0_r. lia.
    - intros n Hn IH Hle. etransitivity; [apply IH; lia|].
      replace (a + Z.succ n) with (a + n + 1) by lia.
      apply yoe_mono_step. lia. }
  replace b with (a + (b - a)) by lia. apply H; lia.
Qed.

Lemma year_facts k :
  0 <= k <= 399 ->
  yoe_of (year_start k) = k /\ yoe_of (year_end k) = k
  /\ (k = 399 -> year_end k = 146096)
  /\ (k <> 399 -> year_start (k + 1) = year_end k + 1).
Proof.
  intros Hk.
  pose proof (check_range_spec year_ok 0 400 years_ok k ltac:(lia)) as H.
  unfold year_ok in H.
  apply andb_true_iff in H as [H H3]. apply andb_true_iff in H as [H1 H2].
  apply Z.eqb_eq in H1. apply Z.eqb_eq in H2.
  split; [exact H1|]. split; [exact H2|].
  destruct (Z.eqb_spec k 399) as [->|Hne].
  - apply Z.eqb_eq in H3. split; [intros _; exact H3|congruence].
  - apply Z.eqb_eq in H3. split; [congruence|intros _; exact H3].
Qed.

Lemma year_start_0 : year_start 0 = 0.
Proof. reflexivity. Qed.

Lemma leap_days_range y : 0 <= leap_days y <= 1.
Proof. unfold leap_days. destruct (_ || _); lia. Qed.

(** Every day of the era lies in one of its 400 years. *)
Lemma locate_year doe :
  0 <= doe <= 146096 ->
  exists k, 0 <= k <= 399 /\ year_start k <= doe <= year_end k.
Proof.
  intros Hd.
  assert (H : forall n, 0 <= n -> n <= 399 -> doe <= year_end n ->
            exists k, 0 <= k <= n /\ year_start k <= doe <= year_end k).
  { apply (natlike_ind (fun n => n <= 399 -> doe <= year_end n ->
            exists k, 0 <= k <= n /\ year_start k <= doe <= year_end k)).
    - intros _ Hle. exists 0. rewrite year_start_0. lia.
    - intros n Hn IH Hn' Hle.
      destruct (Z_le_gt_dec doe (year_end n)) as [Hin|Hout].
      + destruct (IH ltac:(lia) Hin) as (k & Hk & Hr). exists k. lia.
      + exists (Z.succ n). split; [lia|]. split; [|exact Hle].
        destruct (year_facts n ltac:(lia)) as (_ & _ & _ & Hnext).
        replace (Z.succ n) with (n + 1) by lia. rewrite Hnext by lia. lia. }
  destruct (year_facts 399 ltac:(lia)) as (_ & _ & Hend & _).
  destruct (H 399 ltac:(lia) ltac:(lia)) as (k & Hk & Hr);
    [rewrite Hend by reflexivity; lia|].
  exists k. split; [lia|exact Hr].
Qed.

Lemma yoe_of_year k doe :
  0 <= k <= 399 -> year_start k <= doe <= year_end k -> yoe_of doe = k.
Proof.
  intros Hk Hr.
  destruct (year_facts k Hk) as (H1 & H2 & H3 & H4).
  assert (Hs : 0 <= year_start k).
  { unfold year_start. Z.div_mod_to_equations. lia. }
  assert (He : year_end k <= 146096).
  { destruct (Z.eq_dec k 399) as [->|Hne]; [rewrite H3 by reflexivity; lia|].
    pose proof (leap_days_range (k + 1)).
    unfold year_end, year_start in *. Z.div_mod_to_equations. lia. }
  pose proof (yoe_mono (year_start k) doe Hs ltac:(lia) ltac:(lia)).
  pose proof (yoe_mono doe (year_end k) ltac:(lia) ltac:(lia) He).
  lia.
Qed.

Lemma doys_ok : check_range doy_ok 0 366 = true.
Proof. vm_compute. reflexivity. Qed.

Lemma mps_ok : check_range mp_ok 0 12 = true.
Proof. vm_compute. reflexivity. Qed.

Lemma mp_ends_ok : check_range mp_end_ok 0 11 = true.
Proof. vm_compute. reflexivity. Qed.

Lemma days_in_month_not_feb y m : m <> 2 -> days_in_month y m = days_in_month 1 m.
Proof.
  intros H. unfold days_in_month.
  destruct (Z.eqb_spec m 2); [contradiction|reflexivity].
Qed.

Lemma days_in_feb y : days_in_month y 2 = 28 + leap_days y.
Proof. unfold days_in_month, leap_days. simpl. destruct (_ || _); reflexivity. Qed.

Lemma civil_of era k doy :
  0 <= k <= 399 -> 0 <= doy -> year_start k + doy <= year_end k ->
  civil_from_days (era * 146097 + year_start k + doy - 719468)
  = (if month_of_mp ((5 * doy + 2) / 153) <=? 2 then k + era * 400 + 1
     else k + era * 400,
     month_of_mp ((5 * doy + 2) / 153),
     doy - month_start ((5 * doy + 2) / 153) + 1).
Proof.
  intros Hk Hd Hle.
  assert (Hs : 0 <= year_start k).
  { unfold year_start. Z.div_mod_to_equations. lia. }
  assert (He : year_end k <= 146096).
  { destruct (year_facts k Hk) as (_ & _ & H3 & H4).
    destruct (Z.eq_dec k 399) as [->|Hne]; [rewrite H3 by reflexivity; lia|].
    pose proof (leap_days_range (k + 1)).
    unfold year_end, year_start in *. Z.div_mod_to_equations. lia. }
  set (doe := year_start k + doy).
  assert (Hy : yoe_of doe = k) by (apply yoe_of_year; [exact Hk|unfold doe; lia]).
  unfold civil_from_days. cbv zeta.
  replace (era * 146097 + year_start k + doy - 719468 + 719468)
    with (era * 146097 + doe) by (unfold doe; lia).
  assert (Hq : (era * 146097 + doe) / 146097 = era).
  { unfold doe. Z.div_mod_to_equations. lia. }
  rewrite Hq.
  replace (era * 146097 + doe - era * 146097) with doe by lia.
  change ((doe - doe / 1460 + doe / 36524 - doe / 146096) / 365) with (yoe_of doe).
  rewrite Hy.
  change (365 * k + k / 4 - k / 100) with (year_start k).
  replace (doe - year_start k) with doy by (unfold doe; lia).
  reflexivity.
Qed.

Lemma mp_facts mp :
  0 <= mp <= 11 ->
  1 <= month_of_mp mp <= 12 /\ (month_of_mp mp + 9) mod 12 = mp
  /\ (mp = 11 -> month_start mp = 337 /\ month_of_mp mp = 2)
  /\ (mp <> 11 ->
      month_start (mp + 1) - month_start mp = days_in_month 1 (month_of_mp mp)
      /\ month_of_mp mp <> 2
      /\ (5 * (month_start (mp + 1) - 1) + 2) / 153 = mp).
Proof.
  intros Hm.
  pose proof (check_range_spec mp_ok 0 12 mps_ok mp ltac:(lia)) as H.
  unfold mp_ok in H. cbv zeta in H.
  repeat (apply andb_true_iff in H as [H ?]).
  apply Z.leb_le in H. 
  repeat match goal with
  | H : (_ <=? _) = true |- _ => apply Z.leb_le in H
  | H : (_ =? _) = true |- _ => apply Z.eqb_eq in H
  end.
  split; [lia|]. split; [assumption|].
  destruct (Z.eqb_spec mp 11) as [->|Hne].
  - split; [intros _; split; reflexivity|congruence].
  - split; [congruence|]. intros _.
    pose proof (check_range_spec mp_end_ok 0 11 mp_ends_ok mp ltac:(lia)) as He.
    unfold mp_end_ok in He. apply Z.eqb_eq in He.
    repeat match goal with
    | H : (_ =? _) = true |- _ => apply Z.eqb_eq in H
    | H : negb (_ =? _) = true |- _ => apply negb_true_iff, Z.eqb_neq in H
    end.
    auto.
Qed.

Lemma doy_facts doy :
  0 <= doy <= 365 ->
  let mp := (5 * doy + 2) / 153 in
  0 <= mp <= 11 /\ month_start mp <= doy
  /\ (mp <> 11 -> doy < month_start (mp + 1))
  /\ (5 * month_start mp + 2) / 153 = mp.
Proof.
  intros Hd.
  pose proof (check_range_spec doy_ok 0 366 doys_ok doy ltac:(lia)) as H.
  unfold doy_ok in H. cbv zeta in *.
  repeat (apply andb_true_iff in H as [H ?]).
  repeat match goal with
  | H : (_ <=? _) = true |- _ => apply Z.leb_le in H
  | H : (_ =? _) = true |- _ => apply Z.eqb_eq in H
  | H : (_ <? _) = true |- _ => apply Z.ltb_lt in H
  end.
  split; [lia|]. split; [lia|]. split; [|assumption].
  intros Hne.
  match goal with H : doy < (if ?c then _ else _) |- _ =>
    destruct (Z.eqb_spec ((5 * doy + 2) / 153) 11); [contradiction|exact H] end.
Qed.

Lemma dfc_of era k mp d :
  0 <= k <= 399 -> 0 <= mp <= 11 ->
  days_from_civil
    (if month_of_mp mp <=? 2 then k + era * 400 + 1 else k + era * 400)
    (month_of_mp mp) d
  = era * 146097 + year_start k + month_start mp + d - 1 - 719468.
Proof.
  intros Hk Hm. destruct (mp_facts mp Hm) as (_ & Hmod & _).
  unfold days_from_civil. cbv zeta. rewrite Hmod.
  replace (if month_of_mp mp <=? 2
           then (if month_of_mp mp <=? 2 then k + era * 400 + 1
                 else k + era * 400) - 1
           else (if month_of_mp mp <=? 2 then k + era * 400 + 1
                 else k + era * 400))
    with (k + era * 400) by (destruct (month_of_mp mp <=? 2); lia).
  assert (Hq : (k + era * 400) / 400 = era) by (Z.div_mod_to_equations; lia).
  rewrite Hq.
  replace (k + era * 400 - era * 400) with k by lia.
  unfold year_start, month_start. lia.
Qed.

Lemma decompose z :
  exists era k doy,
    z = era * 146097 + year_start k + doy - 719468
    /\ 0 <= k <= 399 /\ 0 <= doy /\ year_start k + doy <= year_end k.
Proof.
  set (era := (z + 719468) / 146097).
  set (doe := (z + 719468) mod 146097).
  assert (Hz : z + 719468 = era * 146097 + doe /\ 0 <= doe <= 146096).
  { unfold era, doe. Z.div_mod_to_equations. lia. }
  destruct Hz as [Hz Hd].
  destruct (locate_year doe Hd) as (k & Hk & Hr).
  exists era, k, (doe - year_start k). repeat split; lia.
Qed.

Lemma year_length k : 0 <= k <= 399 -> year_end k - year_start k <= 365.
Proof.
  intros _. unfold year_end. pose proof (leap_days_range (k + 1)). lia.
Qed.

Lemma leap_days_shift y e : leap_days (y + e * 400) = leap_days y.
Proof.
  unfold leap_days.
  replace ((y + e * 400) mod 4) with (y mod 4)
    by (Z.div_mod_to_equations; lia).
  replace ((y + e * 400) mod 100) with (y mod 100)
    by (Z.div_mod_to_equations; lia).
  replace ((y + e * 400) mod 400) with (y mod 400)
    by (Z.div_mod_to_equations; lia).
  reflexivity.
Qed.

(** What holds of every day number. *)
Lemma day_facts z :
  let '(y, m, d) := civil_from_days z in
  let first := z - (d - 1) in
  let len := days_in_month y m in
  1 <= m <= 12 /\ 1 <= d <= len
  /\ days_from_civil y m d = z
  /\ days_from_civil y m 1 = first
  /\ civil_from_days first = (y, m, 1)
  /\ civil_from_days (first + len - 1) = (y, m, len)
  /\ (if m =? 12 then days_from_civil (y + 1) 1 1
      else days_from_civil y (m + 1) 1) = first + len.
Proof.
  destruct (decompose z) as (era & k & doy & -> & Hk & Hd & Hle).
  pose proof (year_length k Hk) as Hyl.
  assert (Hdoy : 0 <= doy <= 365) by lia.
  rewrite (civil_of era k doy Hk Hd Hle).
  destruct (doy_facts doy Hdoy) as (Hmp & Hms & Hnext & Hback).
  cbv zeta in Hmp, Hms, Hnext, Hback.
  set (mp := (5 * doy + 2) / 153) in *.
  destruct (mp_facts mp Hmp) as (Hm & Hmod & H11 & Hn11).
  set (m := month_of_mp mp) in *.
  set (y := if m <=? 2 then k + era * 400 + 1 else k + era * 400).
  cbv zeta.
  assert (Hlen : days_in_month y m
                 = if mp =? 11 then 28 + leap_days (k + 1)
                   else month_start (mp + 1) - month_start mp).
  { destruct (Z.eqb_spec mp 11) as [E|E].
    - destruct (H11 E) as [_ Hm2]. unfold y. rewrite Hm2. simpl.
      rewrite days_in_feb.
      replace (k + era * 400 + 1) with (k + 1 + era * 400) by lia.
      rewrite leap_days_shift. reflexivity.
    - destruct (Hn11 E) as (Hd1 & Hm2 & _).
      rewrite days_in_month_not_feb by exact Hm2. symmetry. exact Hd1. }
  assert (Hfirst : era * 146097 + year_start k + doy - 719468
                   - (doy - month_start mp + 1 - 1)
                   = era * 146097 + year_start k + month_start mp - 719468)
    by lia.
  assert (Hdfc : forall d, days_from_civil y m d
            = era * 146097 + year_start k + month_start mp + d - 1 - 719468)
    by (intros d; apply dfc_of; assumption).
  assert (Hlenpos : doy - month_start mp + 1 <= days_in_month y m).
  { rewrite Hlen. destruct (Z.eqb_spec mp 11) as [E|E].
    - destruct (H11 E) as [Hs _]. rewrite Hs. unfold year_end in Hle. lia.
    - specialize (Hnext E). lia. }
  assert (Hlast : year_start k + (month_start mp + days_in_month y m - 1)
                  <= year_end k).
  { rewrite Hlen. destruct (Z.eqb_spec mp 11) as [E|E].
    - destruct (H11 E) as [Hs _]. rewrite Hs. unfold year_end. lia.
    - specialize (Hnext E). destruct (Hn11 E) as (Hd1 & _).
      assert (month_start (mp + 1) <= 337).
      { assert (Hr : 0 <= mp + 1 <= 11) by lia.
        unfold month_start. Z.div_mod_to_equations. lia. }
      unfold year_end. pose proof (leap_days_range (k + 1)). lia. }
  assert (Hms0 : 0 <= month_start mp).
  { unfold month_start. Z.div_mod_to_equations. lia. }
  split; [exact Hm|]. split; [lia|]. split; [rewrite Hdfc; lia|].
  split; [rewrite Hdfc; lia|]. split; [|split].
  - rewrite Hfirst.
    rewrite (civil_of era k (month_start mp) Hk ltac:(lia) ltac:(lia)).
    rewrite Hback. fold m. fold y. f_equal. lia.
  - rewrite Hfirst.
    replace (era * 146097 + year_start k + month_start mp - 719468
             + days_in_month y m - 1)
      with (era * 146097 + year_start k
            + (month_start mp + days_in_month y m - 1) - 719468) by lia.
    assert (Hmp' : (5 * (month_start mp + days_in_month y m - 1) + 2) / 153 = mp).
    { rewrite Hlen. destruct (Z.eqb_spec mp 11) as [E|E].
      - destruct (H11 E) as [Hs _]. rewrite Hs, E.
        pose proof (leap_days_range (k + 1)).
        Z.div_mod_to_equations. lia.
      - destruct (Hn11 E) as (_ & _ & He).
        replace (month_start mp + (month_start (mp + 1) - month_start mp) - 1)
          with (month_start (mp + 1) - 1) by lia.
        exact He. }
    assert (Hnn : 0 <= month_start mp + days_in_month y m - 1) by lia.
    rewrite (civil_of era k _ Hk Hnn Hlast).
    rewrite Hmp'. fold m. fold y. f_equal. lia.
  - rewrite Hfirst.
    destruct (Z.eqb_spec m 12) as [E12|E12].
    + (* December: mp = 9 *)
      assert (Emp : mp = 9).
      { unfold m, month_of_mp in E12. destruct (mp <? 10) eqn:Elt; lia. }
      assert (Hy : y = k + era * 400).
      { unfold y. rewrite E12. reflexivity. }
      rewrite Hlen, Hy.
      pose proof (dfc_of era k 10 1 Hk ltac:(lia)) as Hj.
      change (month_of_mp 10) with 1 in Hj. simpl in Hj.
      rewrite Hj, Emp. simpl (9 =? 11). cbv iota. change (9 + 1) with 10. lia.
    + destruct (Z.eqb_spec mp 11) as [E|E].
      * (* February *)
        destruct (H11 E) as [Hs Hm2].
        assert (Hy : y = k + era * 400 + 1) by (unfold y; rewrite Hm2; reflexivity).
        rewrite Hlen, Hs, Hy, Hm2.
        destruct (year_facts k Hk) as (_ & _ & H399 & Hnot).
        destruct (Z.eq_dec k 399) as [->|Hk9].
        -- assert (Hj : days_from_civil (0 + (era + 1) * 400) 3 1
                     = (era + 1) * 146097 + year_start 0 + month_start 0
                       + 1 - 1 - 719468)
             by exact (dfc_of (era + 1) 0 0 1 ltac:(lia) ltac:(lia)).
           replace (399 + era * 400 + 1) with (0 + (era + 1) * 400) by lia.
           change (2 + 1) with 3. rewrite Hj.
           specialize (H399 eq_refl). unfold year_end in H399.
           change (month_start 0) with 0. rewrite year_start_0. lia.
        -- assert (Hj : days_from_civil (k + 1 + era * 400) 3 1
                     = era * 146097 + year_start (k + 1) + month_start 0
                       + 1 - 1 - 719468)
             by exact (dfc_of era (k + 1) 0 1 ltac:(lia) ltac:(lia)).
           replace (k + era * 400 + 1) with (k + 1 + era * 400) by lia.
           change (2 + 1) with 3. rewrite Hj.
           specialize (Hnot Hk9). unfold year_end in Hnot.
           change (month_start 0) with 0. lia.
      * (* the other months *)
        destruct (Hn11 E) as (Hd1 & Hm2 & _).
        assert (Hmp1 : 0 <= mp + 1 <= 11) by lia.
        assert (Hm1 : month_of_mp (mp + 1) = m + 1).
        { unfold m, month_of_mp in *.
          destruct (mp <? 10) eqn:E1, (mp + 1 <? 10) eqn:E2; lia. }
        assert (Hflag : (month_of_mp (mp + 1) <=? 2) = (m <=? 2)).
        { rewrite Hm1. unfold m, month_of_mp in *.
          destruct (mp <? 10) eqn:E1; lia. }
        pose proof (dfc_of era k (mp + 1) 1 Hk Hmp1) as Hj.
        rewrite Hflag, Hm1 in Hj. fold y in Hj.
        rewrite Hj, Hlen.
        destruct (Z.eqb_spec mp 11); [contradiction|]. lia.
Qed.

Lemma foldr_max_spec t rest :
  foldr Z.max t rest ∈ t :: rest
  /\ forall x, x ∈ t :: rest -> x <= foldr Z.max t rest.
Proof.
  induction rest as [|r rest [IH1 IH2]]; simpl.
  - split; [left|]. intros x Hx. apply list_elem_of_singleton in Hx. lia.
  - split.
    + destruct (Z.max_spec r (foldr Z.max t rest)) as [[_ ->]|[_ ->]].
      * apply elem_of_cons in IH1 as [->|IH1]; [left|right; right; exact IH1].
      * right. left.
    + intros x Hx. apply elem_of_cons in Hx as [->|Hx].
      * specialize (IH2 t ltac:(left)). lia.
      * apply elem_of_cons in Hx as [->|Hx]; [lia|].
        specialize (IH2 x ltac:(right; exact Hx)). lia.
Qed.

Lemma replace_ymd_some ts y m d r :
  replace_ymd ts y m d = Some r ->
  r = days_from_civil y m d * NS_PER_DAY + ts mod NS_PER_DAY
  /\ TS_MIN <= r <= TS_MAX.
Proof.
  unfold replace_ymd. cbv zeta.
  destruct (_ && _) eqn:E; [|discriminate].
  intros [= <-]. apply andb_true_iff in E as [E1 E2].
  apply Z.leb_le in E1. apply Z.leb_le in E2. split; [reflexivity|lia].
Qed.

Lemma replace_ymd_none ts y m d :
  replace_ymd ts y m d = None ->
  let r := days_from_civil y m d * NS_PER_DAY + ts mod NS_PER_DAY in
  r < TS_MIN \/ TS_MAX < r.
Proof.
  unfold replace_ymd. cbv zeta.
  destruct (TS_MIN <=? _) eqn:E1; simpl.
  - destruct (_ <=? TS_MAX) eqn:E2; [discriminate|].
    intros _. right. apply Z.leb_gt in E2. exact E2.
  - intros _. left. apply Z.leb_gt in E1. exact E1.
Qed.

Lemma ns_split ts : ts = ts / NS_PER_DAY * NS_PER_DAY + ts mod NS_PER_DAY
  /\ 0 <= ts mod NS_PER_DAY < NS_PER_DAY.
Proof. unfold NS_PER_DAY. Z.div_mod_to_equations. lia. Qed.

Lemma ns_div days tod :
  0 <= tod < NS_PER_DAY ->
  (days * NS_PER_DAY + tod) / NS_PER_DAY = days
  /\ (days * NS_PER_DAY + tod) mod NS_PER_DAY = tod.
Proof. unfold NS_PER_DAY. intros H. Z.div_mod_to_equations. lia. Qed.

Lemma days_in_month_range y m : 28 <= days_in_month y m <= 31.
Proof.
  unfold days_in_month. destruct (m =? 2); [destruct (_ || _); lia|].
  destruct (_ || _); lia.
Qed.

(** X19. The window that [last_month_span] returns holds the latest
    date of the column, and no date of the column lies after it: it
    starts on the first day of the month of the latest date, at the time
    of day of the latest date, and ends one calendar month later; the
    month that the main loop names in the push, [month_word] of the day
    before the end, is the month of the latest date.  A column without
    dates gives [(None, None)], and the function raises only for a
    latest date within 31 days of the ends of the range of time
    stamps. *)
Theorem last_month_window dates :
  match last_month_span dates with
  | Some (Some start, Some next_start) =>
      exists last y m d,
        Some last ∈ dates /\ (forall t, Some t ∈ dates -> t <= last)
        /\ fields last = (y, m, d)
        /\ start <= last < next_start
        /\ fields start = (y, m, 1)
        /\ start mod NS_PER_DAY = last mod NS_PER_DAY
        /\ next_start - start = days_in_month y m * NS_PER_DAY
        /\ month_of_window next_start = month_word (Some last)
  | Some (None, None) => Forall (fun t => t = None) dates
  | Some _ => False
  | None =>
      exists last,
        Some last ∈ dates /\ (forall t, Some t ∈ dates -> t <= last)
        /\ (last - 31 * NS_PER_DAY < TS_MIN \/ TS_MAX < last + 31 * NS_PER_DAY)
  end.
Proof.
  unfold last_month_span.
  destruct (omap id dates) as [|t rest] eqn:Eo.
  - apply Forall_forall. intros [x|] Hx; [|reflexivity].
    exfalso. assert (Hin : x ∈ omap id dates).
    { apply list_elem_of_omap. exists (Some x). split; [exact Hx|reflexivity]. }
    rewrite Eo in Hin. inversion Hin.
  - destruct (foldr_max_spec t rest) as [Hmem Hmax].
    set (last := foldr Z.max t rest) in *.
    assert (Hlast : Some last ∈ dates).
    { rewrite <- Eo in Hmem. apply list_elem_of_omap in Hmem as (o & Ho & E).
      destruct o; simpl in E; [injection E as ->; exact Ho|discriminate]. }
    assert (Hall : forall x, Some x ∈ dates -> x <= last).
    { intros x Hx. apply Hmax. rewrite <- Eo. apply list_elem_of_omap.
      exists (Some x). split; [exact Hx|reflexivity]. }
    destruct (ns_split last) as [Hsplit Htod].
    set (days := last / NS_PER_DAY) in *.
    set (tod := last mod NS_PER_DAY) in *.
    pose proof (day_facts days) as Hf.
    unfold fields at 1. fold days.
    destruct (civil_from_days days) as [[y m] d] eqn:Ec.
    cbv zeta in Hf.
    destruct Hf as (Hm & Hd & Hdfc & Hfirst & Hcf & Hcl & Hnext).
    pose proof (days_in_month_range y m) as Hdim.
    destruct (replace_ymd last y m 1) as [start|] eqn:Es.
    + apply replace_ymd_some in Es as [Estart Hrange].
      fold tod in Estart. rewrite Hfirst in Estart.
      destruct (ns_div (days - (d - 1)) tod Htod) as [Hsd Hsm].
      rewrite <- Estart in Hsd, Hsm.
      unfold fields. rewrite Hsd, Hcf.
      set (ny := if m =? 12 then y + 1 else y).
      set (nm := if m =? 12 then 1 else m + 1).
      replace (if m =? 12 then replace_ymd start (y + 1) 1 1
               else replace_ymd start y (m + 1) 1)
        with (replace_ymd start ny nm 1)
        by (unfold ny, nm; destruct (m =? 12); reflexivity).
      assert (Hnd : days_from_civil ny nm 1
                    = days - (d - 1) + days_in_month y m)
        by (unfold ny, nm; destruct (m =? 12); exact Hnext).
      destruct (replace_ymd start ny nm 1) as [next|] eqn:En.
      * apply replace_ymd_some in En as [Enext _].
        rewrite Hnd, Hsm in Enext.
        exists last, y, m, d.
        split; [exact Hlast|]. split; [exact Hall|].
        split; [unfold fields; fold days; exact Ec|].
        split; [unfold NS_PER_DAY in *; nia|].
        split; [unfold fields; rewrite Hsd; exact Hcf|].
        split; [exact Hsm|].
        split; [unfold NS_PER_DAY in *; lia|].
        unfold month_of_window, month_word, fields. fold days. rewrite Ec.
        replace (next - NS_PER_DAY)
          with ((days - (d - 1) + days_in_month y m - 1) * NS_PER_DAY + tod)
          by (unfold NS_PER_DAY in *; lia).
        destruct (ns_div (days - (d - 1) + days_in_month y m - 1) tod Htod)
          as [Hq _].
        rewrite Hq, Hcl. reflexivity.
      * apply replace_ymd_none in En. cbv zeta in En.
        rewrite Hnd, Hsm in En.
        exists last. split; [exact Hlast|]. split; [exact Hall|].
        right. unfold NS_PER_DAY, TS_MIN, TS_MAX in *. nia.
    + apply replace_ymd_none in Es. cbv zeta in Es.
      fold tod in Es. rewrite Hfirst in Es.
      exists last. split; [exact Hlast|]. split; [exact Hall|].
      unfold NS_PER_DAY, TS_MIN, TS_MAX in *. nia.
Qed.

End CalendarFacts.

Module CalendarExamples.

Import Pandas Scorer Calendar CalendarFacts.

(** The latest of the dates is 15 March 2024, 14:30: the window runs
    from 1 March, 14:30, to 1 April, 14:30, and a purchase of the
    morning of 1 March is outside. *)
Example window_of_march :
  last_month_span [Some feb_10; None; Some march_15_1430; Some march_1_0900]
  = Some (Some 1709303400000000000, Some 1711981800000000000)
  /\ fields 1709303400000000000 = (2024, 3, 1)
  /\ fields 1711981800000000000 = (2024, 4, 1)
  /\ in_period 1709303400000000000 1711981800000000000 (Some march_1_0900)
     = false
  /\ month_of_window 1711981800000000000 = u "марте"
  /\ last_month_span [None; None] = Some (None, None).
Proof. vm_compute. repeat split; reflexivity. Qed.

End CalendarExamples.

(** ** The benefit shown in the push *)

Module PipelineFacts.

Import Pandas Scorer Rules Pushgen Text Pipeline.
Import F64Facts RulesFacts RulesCaps F64Order FeatureFacts2.

Lemma py_min_never_above a cap_value :
  flt cap_value cap_value = false -> fgt (py_min a cap_value) cap_value = false.
Proof.
  intros Hirr. unfold py_min, fgt.
  destruct (flt cap_value a) eqn:E; [exact Hirr|exact E].
Qed.

Lemma fmul_comm x y : fmul x y = fmul y x.
Proof.
  unfold fmul, SFmul.
  destruct x as [sx|sx| |sx mx ex], y as [sy|sy| |sy my ey];
    try reflexivity; try (rewrite xorb_comm; reflexivity).
  rewrite xorb_comm, Pos.mul_comm, Z.add_comm. reflexivity.
Qed.

Lemma feq_refl x : is_nan x = false -> feq x x = true.
Proof.
  unfold feq, SFeqb, SFcompare.
  destruct x as [s|s| |s m e]; try discriminate; intros _.
  - reflexivity.
  - destruct s; reflexivity.
  - rewrite Z.compare_refl, Pos.compare_cont_refl. destruct s; reflexivity.
Qed.

Lemma sequence_None {X : Type} (l : list (option X)) :
  Ingest.sequence l = None <-> None ∈ l.
Proof.
  induction l as [|[x|] l IH]; cbn [Ingest.sequence].
  - split; [discriminate|intros H; inversion H].
  - destruct (Ingest.sequence l) as [r|].
    + split; [discriminate|].
      intros H. apply elem_of_cons in H as [H|H]; [discriminate|].
      apply IH in H. discriminate.
    + split; [|reflexivity]. intros _. right. apply IH. reflexivity.
  - split; [left|reflexivity].
Qed.

Lemma distinct_complete l x : x ∈ l -> x ∈ distinct l.
Proof.
  induction l as [|y l IH]; cbn [distinct]; [auto|].
  intros H. apply elem_of_cons in H as [->|H]; [left|].
  destruct (decide (y = x)) as [->|Hne]; [left|right].
  apply list_elem_of_filter. split; [|apply IH, H].
  unfold label_eqb. apply bool_decide_eq_false_2. exact Hne.
Qed.

Section WithLib.
Context {P : Lib}.

(** X20. The benefit that [estimate_benefit] puts into the push is
    never greater than 15 000 for the travel card and never greater than
    20 000 for the premium card and the credit card, whatever the
    inputs, NaN and the infinities included; for every other product it
    is [0.0]. *)
Theorem shown_benefit_is_capped product tx_client feats avg_bal period b mt :
  estimate_benefit product tx_client feats avg_bal period = Some (b, mt) ->
  (product = u "Карта для путешествий" -> fgt b TRAVEL_CAP = false)
  /\ (product = u "Премиальная карта" -> fgt b PREMIUM_CAP = false)
  /\ (product = u "Кредитная карта" -> fgt b CC_CAP = false)
  /\ (product <> u "Карта для путешествий" ->
      product <> u "Премиальная карта" ->
      product <> u "Кредитная карта" -> b = zero).
Proof.
  destruct period as [start end_]. unfold estimate_benefit, str_eqb.
  destruct (bool_decide_reflect (product = u "Карта для путешествий")) as [E1|E1].
  - destruct (py_int (TRAVEL_SPEND feats)); [|discriminate].
    destruct (py_round _); [|discriminate].
    destruct (py_int TRAVEL_CAP); [|discriminate].
    intros H. apply (inj Some) in H. apply (f_equal fst) in H. cbn [fst] in H.
    subst b. split; [intros _; apply py_min_never_above; reflexivity|].
    split; [intros H; rewrite E1 in H; vm_compute in H; discriminate|].
    split; [intros H; rewrite E1 in H; vm_compute in H; discriminate|].
    intros H. destruct (H E1).
  - destruct (bool_decide_reflect (product = u "Премиальная карта")) as [E2|E2].
    + intros H. apply (inj Some) in H. apply (f_equal fst) in H. cbn [fst] in H.
      subst b. split; [intros H; destruct (E1 H)|].
      split; [intros _; apply py_min_never_above; reflexivity|].
      split; [intros H; rewrite E2 in H; vm_compute in H; discriminate|].
      intros _ H. destruct (H E2).
    + destruct (bool_decide_reflect (product = u "Кредитная карта")) as [E3|E3].
      * intros H. apply (inj Some) in H. apply (f_equal fst) in H.
        cbn [fst] in H.
        subst b. split; [intros H; destruct (E1 H)|].
        split; [intros H; destruct (E2 H)|].
        split; [intros _; apply py_min_never_above; reflexivity|].
        intros _ _ H. destruct (H E3).
      * intros H. apply (inj Some) in H. apply (f_equal fst) in H.
        cbn [fst] in H.
        subst b. split; [intros H; destruct (E1 H)|].
        split; [intros H; destruct (E2 H)|].
        split; [intros H; destruct (E3 H)|].
        intros _ _ _. reflexivity.
Qed.

(** X21. For the travel card the benefit shown in the push is the
    score: when the travel spend of the features is a finite number that
    is not negative, [estimate_benefit] returns a benefit equal to
    [benefit_travel] of that spend. *)
Theorem travel_benefit_shown_is_the_score tx_client feats avg_bal period :
  nn (TRAVEL_SPEND feats) ->
  py_int (TRAVEL_SPEND feats) <> None ->
  exists b mt,
    estimate_benefit (u "Карта для путешествий") tx_client feats avg_bal period
    = Some (b, mt)
    /\ feq b (benefit_travel (TRAVEL_SPEND feats)) = true.
Proof.
  intros Hnn Hfin. destruct period as [start end_].
  unfold estimate_benefit, str_eqb.
  rewrite bool_decide_eq_true_2 by reflexivity.
  destruct (py_int (TRAVEL_SPEND feats)) as [t|]; [|contradiction].
  assert (Hp : py_round (fmul TRAVEL_CB lit_100) = Some 4)
    by (vm_compute; reflexivity).
  assert (Hc : py_int TRAVEL_CAP = Some 15000) by (vm_compute; reflexivity).
  rewrite Hp, Hc. eexists _, _. split; [reflexivity|].
  unfold benefit_travel, _cap.
  change CFG.travel_cb_rate with TRAVEL_CB.
  change CFG.travel_cb_monthly_cap with TRAVEL_CAP.
  rewrite (fmul_comm TRAVEL_CB).
  assert (Hv : nn (fmul (TRAVEL_SPEND feats) TRAVEL_CB))
    by (apply fmul_nn_r; [exact Hnn|exact I]).
  destruct (fmul (TRAVEL_SPEND feats) TRAVEL_CB) as [s|s| |s m e];
    simpl in Hv; try contradiction.
  - destruct s; reflexivity.
  - subst s. apply feq_refl. reflexivity.
  - subst s. change (fle (S754_finite false m e) zero) with false.
    cbv iota. apply feq_refl.
    unfold py_min. destruct (flt TRAVEL_CAP _); reflexivity.
Qed.

(** X22. [_build_ctx_map] on the features of a client raises exactly
    when one of the favourite categories is a missing label.  If every
    purchase inside the window has a category, the context is built,
    with the benefit formatted by [kzt], and with [fav] equal to the
    hyphen when the window has no purchase at all.  If a purchase inside
    the window has no category and the window shows at most three
    different categories, the missing label is among the favourites and
    the call raises. *)
Theorem ctx_map_needs_category_labels tx tr avg_bal start end_ b mt :
  let f := compute_features_for_client tx tr avg_bal (start, end_) in
  let in_window r := r ∈ tx /\ in_period start end_ (tx_date r) = true in
  (_build_ctx_map f avg_bal b mt = None <-> None ∈ FAV_CATS f)
  /\ ((forall r, in_window r -> tx_category r <> None) ->
      exists c, _build_ctx_map f avg_bal b mt = Some c
                /\ benefit c = Some (kzt b)
                /\ ((forall r, ~ in_window r) -> fav c = Some (u "-")))
  /\ ((exists r, in_window r /\ tx_category r = None) ->
      (exists cats, (length cats <= 3)%nat
                    /\ forall r, in_window r -> tx_category r ∈ cats) ->
      _build_ctx_map f avg_bal b mt = None).
Proof.
  intros f in_window.
  assert (Hiff : _build_ctx_map f avg_bal b mt = None <-> None ∈ FAV_CATS f).
  { unfold _build_ctx_map. destruct (FAV_CATS f) as [|c cats] eqn:E.
    - split; [discriminate|intros H; inversion H].
    - rewrite <- sequence_None.
      destruct (Ingest.sequence (c :: cats)); split; auto; discriminate. }
  destruct (features_fields tx tr avg_bal start end_)
    as (_ & _ & _ & _ & _ & _ & _ & _ & _ & _ & Hf).
  cbv zeta in Hf. fold f in Hf.
  set (txm := filter (fun r => in_period start end_ (tx_date r) = true) tx)
    in Hf.
  assert (Hwin : forall r, r ∈ txm <-> in_window r).
  { intros r. unfold txm, in_window. rewrite list_elem_of_filter. tauto. }
  split; [exact Hiff|]. split.
  - intros Hall.
    assert (Hno : None ∉ FAV_CATS f).
    { intros Hin. rewrite Hf, <- firstn_map in Hin.
      assert (Hin' : None ∈ map fst (category_sums txm)).
      { rewrite <- (take_drop 3 (map fst (category_sums txm))).
        apply elem_of_app. left. exact Hin. }
      rewrite category_sums_labels in Hin'. apply distinct_subset in Hin'.
      apply list_elem_of_fmap in Hin' as (r & Hc & Hr).
      apply Hwin in Hr. exact (Hall r Hr (eq_sym Hc)). }
    rewrite <- Hiff in Hno.
    destruct (_build_ctx_map f avg_bal b mt) as [c|] eqn:E; [|congruence].
    exists c. split; [reflexivity|].
    unfold _build_ctx_map in E. split.
    + destruct (FAV_CATS f) as [|c0 cats].
      * apply (inj Some) in E. subst c. reflexivity.
      * destruct (Ingest.sequence (c0 :: cats)); [|discriminate].
        apply (inj Some) in E. subst c. reflexivity.
    + intros Hnone.
      assert (Htxm : txm = []).
      { destruct txm as [|r l] eqn:Et; [reflexivity|].
        exfalso. apply (Hnone r), Hwin. left. }
      assert (Hnil : map fst (take 3 (category_sums [])) = [])
        by reflexivity.
      rewrite Htxm, Hnil in Hf. rewrite Hf in E.
      apply (inj Some) in E. subst c. reflexivity.
  - intros (r & Hr & Hc) (cats & Hlen & Hcats).
    apply Hiff. rewrite Hf.
    assert (Hl : (length (category_sums txm) <= 3)%nat).
    { rewrite <- (length_map fst), category_sums_labels.
      etransitivity; [|exact Hlen]. apply submseteq_length.
      apply NoDup_submseteq; [apply distinct_NoDup|].
      intros x Hx. apply distinct_subset in Hx.
      apply list_elem_of_fmap in Hx as (r' & -> & Hr').
      apply Hcats, Hwin, Hr'. }
    rewrite take_ge by exact Hl. rewrite category_sums_labels.
    apply distinct_complete. rewrite <- Hc.
    apply list_elem_of_fmap. exists r. split; [reflexivity|]. apply Hwin, Hr.
Qed.

End WithLib.

End PipelineFacts.

Module PipelineExamples.

Import Pandas Scorer Rules Pushgen Text Pipeline Samples FeatureProps.
Import FeatureSamples PipelineFacts.

(** For the credit card the two differ: with 250 000 spent on hotels
    and 12 500 on an online service the push shows the cap of 20 000,
    while the rule of the scorer gives 27 500 for the same sums (cap
    30 000). *)
Example credit_card_shown_and_scored :
  let purchases := [march_purchase (u "Отели") (dec 250000 0);
                    march_purchase (u "Едим дома") (dec 12500 0)] in
  let feats :=
    compute_features_for_client (P := model) purchases [] (dec 100000 0) march in
  option_map fst
    (estimate_benefit (P := model) (u "Кредитная карта") purchases feats
       (dec 100000 0) march)
  = Some (dec 20000 0)
  /\ benefit_credit_card (FAV_SPEND_SUM feats) (ONLINE_SPEND feats)
     = dec 27500 0.
Proof. vm_compute. split; reflexivity. Qed.

(** One purchase without a category inside the window is enough to make
    [_build_ctx_map] raise. *)
Example ctx_map_raises_on_missing_category :
  _build_ctx_map
    (compute_features_for_client (P := model)
       [{| tx_date := Some march_15; tx_category := None;
           tx_amount := dec 1500 0 |}] [] (dec 100000 0) march)
    (dec 100000 0) zero no_meta
  = None.
Proof. vm_compute. reflexivity. Qed.

Lemma shown_benefit_is_capped_witness :
  exists b mt,
    estimate_benefit (P := model) (u "Карта для путешествий") march_purchases
      traveller traveller_balance march = Some (b, mt)
    /\ fgt b TRAVEL_CAP = false.
Proof.
  destruct (estimate_benefit (P := model) (u "Карта для путешествий")
              march_purchases traveller traveller_balance march)
    as [[b mt]|] eqn:E; [|vm_compute in E; discriminate].
  exists b, mt. split; [reflexivity|].
  exact (proj1 (shown_benefit_is_capped (P := model) _ _ _ _ _ _ _ E) eq_refl).
Defined.

Lemma travel_benefit_shown_is_the_score_witness :
  (nn (TRAVEL_SPEND traveller) /\ py_int (TRAVEL_SPEND traveller) <> None)
  /\ exists b mt,
       estimate_benefit (P := model) (u "Карта для путешествий") march_purchases
         traveller traveller_balance march = Some (b, mt)
       /\ feq b (benefit_travel (TRAVEL_SPEND traveller)) = true.
Proof.
  assert (H1 : nn (TRAVEL_SPEND traveller)) by reflexivity.
  assert (H2 : py_int (TRAVEL_SPEND traveller) <> None)
    by (vm_compute; discriminate).
  split; [exact (conj H1 H2)|].
  exact (travel_benefit_shown_is_the_score (P := model) march_purchases
           traveller traveller_balance march H1 H2).
Defined.

Example travel_calc_text :
  option_map (fun r => (fst r, m_calc (snd r)))
    (estimate_benefit (P := model) (u "Карта для путешествий") march_purchases
       traveller traveller_balance march)
  = Some (dec 2000 0, Some (u "4% × travel (50 000) → cap 15 000")).
Proof. vm_compute. reflexivity. Qed.

End PipelineExamples.
